(** * CubeWrld: the cube state model and the phase-recognition engine

    A shallow embedding of
      - [src/utils/cubeLogic.ts]   ([getInitialState], [rotateVector]),
      - the move commit of [useCubeAnimation] (second part of
        [src/components/Scene.tsx]),
      - [utils/phaseEngine] ([src/unnamed/part_002]),
      - [src/utils/ollPatterns.ts] and [src/utils/pllPatterns.ts],
      - [getNotationMove] of [src/utils/cubeLogic.ts], the callbacks and
        the partition of the pieces of [useCubeAnimation],
        the end of [useCubeSwipe] ([src/unnamed/part_001]) and the
        stickers of [src/components/CubeModel.tsx],
    together with the small part of the three.js vector and quaternion
    classes that this code calls.

    Numbers.  The program computes on IEEE doubles.  The embedding
    computes exactly in Q(sqrt 2) (module [Surd]): lattice coordinates
    are integers, and with exact numbers the components of the
    orientation quaternions of a state reachable by moves are 0, +-1/2,
    +-1 and +-sqrt(2)/2.  The doubles that the program stores differ
    from these by rounding; module [Binary64] computes the quaternion
    of the commit as the doubles do.  What is stated of a state is
    therefore what the tolerances of the program (0.1, 0.2, 0.5 rad,
    0.9) make the same on the doubles: positions, which the commit
    rounds to integers, exactly; orientations, up to the orientation
    test of the engine.  The places where the idealisation is visible
    are marked where they occur: [Surd.sqrt] (exact whenever the root
    lies in the field), [Surd.cos_quarter]/[Surd.sin_quarter] (the
    half-angle of a move) and [THREE.angleTo_lt] (a comparison of
    angles taken on the cosines). *)

From Stdlib Require Import Floats.
From Stdlib Require Import ZArith QArith Qround List String Ascii Bool Lia.
From Stdlib Require Import Permutation.
From Stdlib Require Import Reals Qreals Lra.
Import ListNotations.

Local Open Scope string_scope.
Local Open Scope list_scope.
Local Open Scope Z_scope.

(** ** Exact numbers: the ordered field Q(sqrt 2) *)

Module Surd.

(** [mk a b] stands for [a + b * sqrt 2]; both coordinates are kept in
    lowest terms, so that equal numbers are equal terms. *)
Record num : Type := mk { rat : Q; irr : Q }.

Definition ofQ (q : Q) : num := mk (Qred q) 0.
Definition ofZ (z : Z) : num := mk (inject_Z z) 0.

Definition zero : num := ofZ 0.
Definition one : num := ofZ 1.
Definition two : num := ofZ 2.
Definition sqrt2 : num := mk 0 1.

Definition add (x y : num) : num :=
  mk (Qred (rat x + rat y)) (Qred (irr x + irr y)).

Definition opp (x : num) : num :=
  mk (Qred (- rat x)) (Qred (- irr x)).

Definition sub (x y : num) : num :=
  mk (Qred (rat x - rat y)) (Qred (irr x - irr y)).

Definition mul (x y : num) : num :=
  mk (Qred (rat x * rat y + inject_Z 2 * (irr x * irr y)))
     (Qred (rat x * irr y + irr x * rat y)).

(** [1 / (a + b sqrt 2) = (a - b sqrt 2) / (a^2 - 2 b^2)]. *)
Definition inv (x : num) : num :=
  let n := (rat x * rat x - inject_Z 2 * (irr x * irr x))%Q in
  mk (Qred (rat x / n)) (Qred (- irr x / n)).

Definition div (x y : num) : num := mul x (inv y).

(** Sign of [a + b sqrt 2], as the comparison with zero. *)
Definition sgn (x : num) : comparison :=
  let a := rat x in
  let b := irr x in
  match (a ?= 0)%Q, (b ?= 0)%Q with
  | Eq, c => c
  | c, Eq => c
  | Gt, Gt => Gt
  | Lt, Lt => Lt
  | Gt, Lt => (a * a ?= inject_Z 2 * (b * b))%Q
  | Lt, Gt => (inject_Z 2 * (b * b) ?= a * a)%Q
  end.

Definition compare (x y : num) : comparison := sgn (sub x y).

Definition ltb (x y : num) : bool :=
  match compare x y with Lt => true | _ => false end.
Definition leb (x y : num) : bool :=
  match compare x y with Gt => false | _ => true end.
Definition eqb (x y : num) : bool :=
  match compare x y with Eq => true | _ => false end.
Definition gtb (x y : num) : bool := ltb y x.
Definition geb (x y : num) : bool := leb y x.

(** [Math.abs]. *)
Definition abs (x : num) : num :=
  match sgn x with Lt => opp x | _ => x end.

(** [Math.floor] on [(p + r sqrt 2) / n]: the integer part of
    [r sqrt 2] is read off the integer square root of [2 r^2]. *)
Definition floor (x : num) : Z :=
  let p := (Qnum (rat x) * Zpos (Qden (irr x)))%Z in
  let r := (Qnum (irr x) * Zpos (Qden (rat x)))%Z in
  let n := Zpos (Qden (rat x) * Qden (irr x)) in
  let s := Z.sqrt (2 * r * r) in
  let fr := if (0 <=? r)%Z then s else (- s - 1)%Z in
  ((p + fr) / n)%Z.

(** [Math.round]: the nearest integer, halves going up. *)
Definition round (x : num) : Z := floor (add x (ofQ (1 # 2))).

(** *** Square roots *)

Definition Zroot (n : Z) : option Z :=
  let r := Z.sqrt n in
  if (0 <=? n)%Z && (r * r =? n)%Z then Some r else None.

Definition Qroot (q : Q) : option Q :=
  let q' := Qred q in
  match Zroot (Qnum q'), Zroot (Zpos (Qden q')) with
  | Some a, Some b => Some (Qred (a # Z.to_pos b))
  | _, _ => None
  end.

(** Candidates [c + d sqrt 2] for the root of [a + b sqrt 2]:
    [c^2 + 2 d^2 = a] and [2 c d = b], so [c^2] is one of
    [(a +- n) / 2] where [n^2 = a^2 - 2 b^2]. *)
Definition root_candidates (x : num) : list num :=
  let a := rat x in
  let b := irr x in
  match Qroot (a * a - inject_Z 2 * (b * b)) with
  | None => []
  | Some n =>
      flat_map
        (fun c2 : Q =>
           match Qroot c2 with
           | None => []
           | Some c =>
               if Qeq_bool c 0
               then match Qroot (a / inject_Z 2) with
                    | Some d => [mk 0 d]
                    | None => []
                    end
               else [mk c (Qred (b / (inject_Z 2 * c)))]
           end)
        [((a + n) / inject_Z 2)%Q; ((a - n) / inject_Z 2)%Q]
  end.

Definition sqrt_exact (x : num) : option num :=
  find (fun r => eqb (mul r r) x && leb zero r)
       (map abs (root_candidates x)).

(** Resolution of the fallback: a double carries 52 fraction bits. *)
Definition ulp : positive := (2 ^ 52)%positive.

Definition approx (x : num) : Q :=
  (rat x + irr x * (Z.sqrt (2 * Zpos ulp * Zpos ulp) # ulp))%Q.

(** [Math.sqrt]: exact when the root lies in the field, which is the
    case for every length met on a state reachable by moves (1, 2,
    sqrt 2, 2 sqrt 2); any other root is rounded down to a multiple of
    [1 / ulp], standing in for the rounding of the double. *)
Definition sqrt (x : num) : num :=
  match sqrt_exact x with
  | Some r => r
  | None =>
      ofQ (Z.sqrt (Qfloor (approx x * inject_Z (Zpos ulp * Zpos ulp)))
             # ulp)
  end.

(** *** Half-angle of a move

    A move of direction [d] turns by [d * (Math.PI / 2)];
    [setFromAxisAngle] takes the sine and cosine of half of that, the
    multiples of 45 degrees. *)
Definition half : num := ofQ (1 # 2).
Definition rt2_2 : num := mk 0 (1 # 2).

Definition cos_quarter (d : Z) : num :=
  match (d mod 8)%Z with
  | 0 => one
  | 1 => rt2_2
  | 2 => zero
  | 3 => opp rt2_2
  | 4 => opp one
  | 5 => opp rt2_2
  | 6 => zero
  | _ => rt2_2
  end.

Definition sin_quarter (d : Z) : num :=
  match (d mod 8)%Z with
  | 0 => zero
  | 1 => rt2_2
  | 2 => one
  | 3 => rt2_2
  | 4 => zero
  | 5 => opp rt2_2
  | 6 => opp one
  | _ => opp rt2_2
  end.

End Surd.

Declare Scope surd_scope.
Delimit Scope surd_scope with K.
Bind Scope surd_scope with Surd.num.
Definition K : Type := Surd.num.
Bind Scope surd_scope with K.
Infix "+" := Surd.add : surd_scope.
Infix "-" := Surd.sub : surd_scope.
Infix "*" := Surd.mul : surd_scope.
Infix "/" := Surd.div : surd_scope.
Notation "- x" := (Surd.opp x) : surd_scope.
Infix "<?" := Surd.ltb : surd_scope.
Infix ">?" := Surd.gtb : surd_scope.
Infix "=?" := Surd.eqb : surd_scope.

(** Integer and decimal literals of the source. *)
Definition kz (z : Z) : K := Surd.ofZ z.
Definition kq (n : Z) (d : positive) : K := Surd.ofQ (n # d).

(** ** The part of three.js the program calls

    Modelled from the library's documented behaviour ([Vector3] and
    [Quaternion] of three.js); angles, which the program only ever
    builds as [direction * Math.PI / 2], are carried as their number of
    quarter turns. *)

Module THREE.

Local Open Scope surd_scope.

Record Vector3 : Type := vec3 { vx : K; vy : K; vz : K }.
Record Quaternion : Type := quat { qx : K; qy : K; qz : K; qw : K }.

(** [new THREE.Quaternion()]. *)
Definition identity : Quaternion := quat (kz 0) (kz 0) (kz 0) (kz 1).

(** [new THREE.Vector3(...arr)] on a triple of integers. *)
Definition ofArr (p : Z * Z * Z) : Vector3 :=
  let '(a, b, c) := p in vec3 (kz a) (kz b) (kz c).

Definition subVectors (a b : Vector3) : Vector3 :=
  vec3 (vx a - vx b) (vy a - vy b) (vz a - vz b).

Definition negate (v : Vector3) : Vector3 :=
  vec3 (- vx v) (- vy v) (- vz v).

Definition multiplyScalar (v : Vector3) (s : K) : Vector3 :=
  vec3 (vx v * s) (vy v * s) (vz v * s).

Definition divideScalar (v : Vector3) (s : K) : Vector3 :=
  multiplyScalar v (kz 1 / s).

Definition dot (a b : Vector3) : K :=
  vx a * vx b + vy a * vy b + vz a * vz b.

Definition crossVectors (a b : Vector3) : Vector3 :=
  vec3 (vy a * vz b - vz a * vy b)
       (vz a * vx b - vx a * vz b)
       (vx a * vy b - vy a * vx b).

Definition lengthSq (v : Vector3) : K := dot v v.
Definition length (v : Vector3) : K := Surd.sqrt (lengthSq v).

(** [divideScalar(this.length() || 1)]. *)
Definition normalize (v : Vector3) : Vector3 :=
  let l := length v in
  divideScalar v (if l =? kz 0 then kz 1 else l).

Definition distanceToSquared (a b : Vector3) : K :=
  lengthSq (subVectors a b).
Definition distanceTo (a b : Vector3) : K :=
  Surd.sqrt (distanceToSquared a b).

Definition getComponent (v : Vector3) (i : Z) : option K :=
  match i with
  | 0%Z => Some (vx v)
  | 1%Z => Some (vy v)
  | 2%Z => Some (vz v)
  | _ => None
  end.

Definition clamp (v lo hi : K) : K :=
  if v <? lo then lo else if hi <? v then hi else v.

(** The cosine whose [Math.acos] is [a.angleTo(b)]; the library
    answers a right angle when a vector is zero. *)
Definition cosTo (a b : Vector3) : K :=
  let denominator := Surd.sqrt (lengthSq a * lengthSq b) in
  if denominator =? kz 0 then kz 0
  else clamp (dot a b / denominator) (kz (-1)) (kz 1).

(** [a.angleTo(b) < eps], for an [eps] between 0 and pi given by its
    cosine: [Math.acos] is decreasing, so the angles compare as their
    cosines do, the other way round. *)
Definition angleTo_lt (a b : Vector3) (cos_eps : K) : bool :=
  cosTo a b >? cos_eps.

(** [setFromAxisAngle(axis, quarters * Math.PI / 2)]. *)
Definition setFromAxisAngle (axis : Vector3) (quarters : Z) : Quaternion :=
  let s := Surd.sin_quarter quarters in
  quat (vx axis * s) (vy axis * s) (vz axis * s)
       (Surd.cos_quarter quarters).

Definition multiplyQuaternions (a b : Quaternion) : Quaternion :=
  quat (qx a * qw b + qw a * qx b + qy a * qz b - qz a * qy b)
       (qy a * qw b + qw a * qy b + qz a * qx b - qx a * qz b)
       (qz a * qw b + qw a * qz b + qx a * qy b - qy a * qx b)
       (qw a * qw b - qx a * qx b - qy a * qy b - qz a * qz b).

(** [this.premultiply(q)] is [q * this]. *)
Definition premultiply (this q : Quaternion) : Quaternion :=
  multiplyQuaternions q this.

(** [invert()]: the conjugate, the quaternion being taken as unit. *)
Definition invert (q : Quaternion) : Quaternion :=
  quat (- qx q) (- qy q) (- qz q) (qw q).

Definition qlengthSq (q : Quaternion) : K :=
  qx q * qx q + qy q * qy q + qz q * qz q + qw q * qw q.

Definition qnormalize (q : Quaternion) : Quaternion :=
  let l := Surd.sqrt (qlengthSq q) in
  if l =? kz 0 then identity
  else
    let l' := kz 1 / l in
    quat (qx q * l') (qy q * l') (qz q * l') (qw q * l').

(** [v.applyQuaternion(q)]: [v + w t + q.xyz x t] with
    [t = 2 (q.xyz x v)]. *)
Definition applyQuaternion (v : Vector3) (q : Quaternion) : Vector3 :=
  let tx := kz 2 * (qy q * vz v - qz q * vy v) in
  let ty := kz 2 * (qz q * vx v - qx q * vz v) in
  let tz := kz 2 * (qx q * vy v - qy q * vx v) in
  vec3 (vx v + qw q * tx + qy q * tz - qz q * ty)
       (vy v + qw q * ty + qz q * tx - qx q * tz)
       (vz v + qw q * tz + qx q * ty - qy q * tx).

Definition applyAxisAngle (v axis : Vector3) (quarters : Z) : Vector3 :=
  applyQuaternion v (setFromAxisAngle axis quarters).

End THREE.

(** ** [types.ts] *)

Definition Vector3Arr : Type := (Z * Z * Z)%type.

(** [arr[i]] on a triple; [undefined] outside 0..2. *)
Definition at3 (v : Vector3Arr) (i : Z) : option Z :=
  let '(a, b, c) := v in
  match i with
  | 0 => Some a
  | 1 => Some b
  | 2 => Some c
  | _ => None
  end.

(** [arr[i] = w] on a triple; outside 0..2 the three entries stay. *)
Definition set3 (v : Vector3Arr) (i : Z) (w : Z) : Vector3Arr :=
  let '(a, b, c) := v in
  match i with
  | 0 => (w, b, c)
  | 1 => (a, w, c)
  | 2 => (a, b, w)
  | _ => v
  end.

Record CubieState : Type := mkCubie {
  id : Z;
  initialPosition : Vector3Arr;
  position : Vector3Arr;
  rotation : Vector3Arr;
  quaternion : THREE.Quaternion
}.

Inductive Axis : Type := AxisX | AxisY | AxisZ.

Record Move : Type := mkMove {
  axis : Axis;
  slice : list Z;
  direction : Z
}.

Inductive Phase : Type := Scrambled | Cross | F2L | OLL | PLL | Solved.

Inductive F2LTag : Type := FirstLayer | SecondLayer.

Record AnalysisResult : Type := mkResult {
  phase : Phase;
  baseColor : option string;
  isSolved : bool;
  f2lTag : option F2LTag;
  missingCount : option Z;
  ollCase : option string;
  pllCase : option string
}.

Module COLORS.
Definition U : string := "#ffffff".
Definition D : string := "#ffd500".
Definition L : string := "#ff5800".
Definition R : string := "#b71234".
Definition F : string := "#009b48".
Definition B : string := "#0046ad".
Definition CORE : string := "#101010".
End COLORS.

(** ** [utils/cubeLogic.ts] *)

Definition roundPos (v : K) : Z := Surd.round v.

Definition range3 : list Z := [-1; 0; 1].

(** The three nested loops, outermost first. *)
Definition lattice : list Vector3Arr :=
  flat_map (fun x => flat_map (fun y => map (fun z => (x, y, z)) range3) range3)
           range3.

(** One [state.push({ id: id++, ... })]. *)
Definition push_cubie (acc : list CubieState * Z) (p : Vector3Arr)
  : list CubieState * Z :=
  let (state, next) := acc in
  (state ++ [mkCubie next p p (0, 0, 0) THREE.identity], next + 1).

Definition getInitialState : list CubieState :=
  fst (fold_left push_cubie lattice ([], 0)).

Definition map3 (f : K -> Z) (v : K * K * K) : Vector3Arr :=
  let '(a, b, c) := v in (f a, f b, f c).

Definition rotateVector (vec : Vector3Arr) (ax : Axis) (dir : Z) : Vector3Arr :=
  let '(x0, y0, z0) := vec in
  let x := kz x0 in
  let y := kz y0 in
  let z := kz z0 in
  let d := kz dir in
  if Z.abs dir =? 2 then
    match ax with
    | AxisX => map3 roundPos (x, - y, - z)%K
    | AxisY => map3 roundPos (- x, y, - z)%K
    | AxisZ => map3 roundPos (- x, - y, z)%K
    end
  else
    match ax with
    | AxisX => map3 roundPos (x, d * - z, d * y)%K
    | AxisY => map3 roundPos (d * z, y, d * - x)%K
    | AxisZ => map3 roundPos (d * - y, d * x, z)%K
    end.

(** ** The move commit of [useCubeAnimation]

    What the animation loop does once a turn has reached its target
    angle: [cubies.map(c => ...)] with [angleRad = (Math.PI / 2) *
    move.direction]. *)

Definition axisIndex (a : Axis) : Z :=
  match a with AxisX => 0 | AxisY => 1 | AxisZ => 2 end.

Definition axisVec (a : Axis) : THREE.Vector3 :=
  THREE.vec3 (kz (match a with AxisX => 1 | _ => 0 end))
             (kz (match a with AxisY => 1 | _ => 0 end))
             (kz (match a with AxisZ => 1 | _ => 0 end)).

Definition rotQuat (move : Move) : THREE.Quaternion :=
  THREE.setFromAxisAngle (axisVec (axis move)) (direction move).

(** [arr.includes(v)], [v] possibly [undefined]. *)
Definition includes (l : list Z) (v : option Z) : bool :=
  match v with
  | Some w => existsb (Z.eqb w) l
  | None => false
  end.

Definition commitCubie (move : Move) (c : CubieState) : CubieState :=
  if negb (includes (slice move) (at3 (position c) (axisIndex (axis move))))
  then c
  else
    let pos := THREE.applyAxisAngle (THREE.ofArr (position c))
                 (axisVec (axis move)) (direction move) in
    let newPos := (Surd.round (THREE.vx pos), Surd.round (THREE.vy pos),
                   Surd.round (THREE.vz pos)) in
    let newQ := THREE.qnormalize
                  (THREE.premultiply (quaternion c) (rotQuat move)) in
    mkCubie (id c) (initialPosition c) newPos (rotation c) newQ.

Definition applyMove (cubies : list CubieState) (move : Move)
  : list CubieState :=
  map (commitCubie move) cubies.

(** ** The orientation of the commit, on the doubles

    The quaternion that the commit stores,
    [c.quaternion.clone().premultiply(rotQuat).normalize()], as the
    program computes it: on binary64 numbers, each operation rounded to
    the nearest double.  [Math.sin] and [Math.cos] belong to the
    runtime; they are given at the half angles of the four directions,
    where they return the doubles nearest to the sine and the cosine of
    the double that the angle is. *)

Module Binary64.

Local Open Scope float_scope.

Record Quaternion : Type := quat {
  qx : float; qy : float; qz : float; qw : float
}.

(** [new THREE.Quaternion()]. *)
Definition identity : Quaternion := quat 0 0 0 1.

(** [Math.PI]. *)
Definition PI : float := 0x1.921fb54442d18p+1.

(** A whole number as a double. *)
Definition ofZ (z : Z) : float :=
  SF2Prim (binary_normalize prec emax z 0 false).

(** [Math.sin] at zero and at plus and minus a quarter and a half of
    [Math.PI]; the table has no other entry. *)
Definition Math_sin (x : float) : float :=
  if x =? 0 then x
  else if x =? 0x1.921fb54442d18p-1 then 0x1.6a09e667f3bccp-1
  else if x =? -0x1.921fb54442d18p-1 then -0x1.6a09e667f3bccp-1
  else if x =? 0x1.921fb54442d18p+0 then 1
  else if x =? -0x1.921fb54442d18p+0 then -1
  else PrimFloat.nan.

(** [Math.cos] at the same angles. *)
Definition Math_cos (x : float) : float :=
  if x =? 0 then 1
  else if PrimFloat.abs x =? 0x1.921fb54442d18p-1 then 0x1.6a09e667f3bcdp-1
  else if PrimFloat.abs x =? 0x1.921fb54442d18p+0 then 0x1.1a62633145c07p-54
  else PrimFloat.nan.

Definition setFromAxisAngle (axis : float * float * float) (angle : float)
  : Quaternion :=
  let '(x, y, z) := axis in
  let halfAngle := angle / 2 in
  let s := Math_sin halfAngle in
  quat (x * s) (y * s) (z * s) (Math_cos halfAngle).

Definition multiplyQuaternions (a b : Quaternion) : Quaternion :=
  quat (qx a * qw b + qw a * qx b + qy a * qz b - qz a * qy b)
       (qy a * qw b + qw a * qy b + qz a * qx b - qx a * qz b)
       (qz a * qw b + qw a * qz b + qx a * qy b - qy a * qx b)
       (qw a * qw b - qx a * qx b - qy a * qy b - qz a * qz b).

(** [this.premultiply(q)] is [q * this]. *)
Definition premultiply (this q : Quaternion) : Quaternion :=
  multiplyQuaternions q this.

Definition length (q : Quaternion) : float :=
  PrimFloat.sqrt (qx q * qx q + qy q * qy q + qz q * qz q + qw q * qw q).

Definition normalize (q : Quaternion) : Quaternion :=
  let l := length q in
  if l =? 0 then identity
  else
    let l := 1 / l in
    quat (qx q * l) (qy q * l) (qz q * l) (qw q * l).

Definition axisVec (a : Axis) : float * float * float :=
  (match a with AxisX => 1 | _ => 0 end,
   match a with AxisY => 1 | _ => 0 end,
   match a with AxisZ => 1 | _ => 0 end).

(** [rotQuat] of the commit, for [angleRad = (Math.PI / 2) *
    move.direction]. *)
Definition rotQuat (ax : Axis) (direction : Z) : Quaternion :=
  let angleRad := (PI / 2) * ofZ direction in
  setFromAxisAngle (axisVec ax) angleRad.

(** [newQ] of the commit. *)
Definition commitQuat (q : Quaternion) (ax : Axis) (direction : Z)
  : Quaternion :=
  normalize (premultiply q (rotQuat ax direction)).

(** The rational number a finite double is. *)
Definition toQ (x : float) : Q :=
  match Prim2SF x with
  | S754_finite s m e =>
      (inject_Z (if s then Zneg m else Zpos m) * Qpower 2 e)%Q
  | _ => 0%Q
  end.

End Binary64.

(** ** [utils/phaseEngine] *)

Definition ROT_EPSILON_cos : K :=
  (* cos 0.5, to the sixteen digits a double holds *)
  kq 8775825618903727 10000000000000000.

Definition absSum (c : CubieState) : Z :=
  let '(a, b, c') := initialPosition c in Z.abs a + Z.abs b + Z.abs c'.

Definition isCenter (c : CubieState) : bool := absSum c =? 1.
Definition isEdge (c : CubieState) : bool := absSum c =? 2.
Definition isCorner (c : CubieState) : bool := absSum c =? 3.

(** [Math.abs(a - b) < 0.1] on two array entries; a missing entry makes
    the difference [NaN] and the test false. *)
Definition near (a b : option Z) : bool :=
  match a, b with
  | Some a', Some b' => (Surd.abs (kz a' - kz b') <? kq 1 10)%K
  | _, _ => false
  end.

Definition isCorrectlyPlaced (piece center : CubieState) : bool :=
  let vInit := THREE.subVectors (THREE.ofArr (initialPosition center))
                                (THREE.ofArr (initialPosition piece)) in
  let vCurr := THREE.subVectors (THREE.ofArr (position center))
                                (THREE.ofArr (position piece)) in
  let invPieceQ := THREE.invert (quaternion piece) in
  let vCurrLocal := THREE.applyQuaternion vCurr invPieceQ in
  let dist := THREE.distanceTo vCurrLocal vInit in
  (dist <? kq 2 10)%K.

Definition isOrientedForOLL (piece topCenter : CubieState) : bool :=
  let localUp := THREE.normalize (THREE.ofArr (initialPosition topCenter)) in
  let centerQ := THREE.qnormalize (quaternion topCenter) in
  let centerUpWorld := THREE.applyQuaternion localUp centerQ in
  let pieceQ := THREE.qnormalize (quaternion piece) in
  let pieceUpWorld := THREE.applyQuaternion localUp pieceQ in
  THREE.angleTo_lt centerUpWorld pieceUpWorld ROT_EPSILON_cos.

(** ** [utils/ollPatterns.ts] *)

(** [i < j] pairs of a list, in the order of the two nested loops. *)
Fixpoint pairs {A : Type} (l : list A) : list (A * A) :=
  match l with
  | [] => []
  | a :: t => map (pair a) t ++ pairs t
  end.

(** [d > maxDot], with [maxDot] starting at [-Infinity]. *)
Definition above (d : K) (maxDot : option K) : bool :=
  match maxDot with
  | None => true
  | Some m => (d >? m)%K
  end.

Section OLL.

Variable topPieces : list CubieState.
Variable topCenter : CubieState.

Definition oll_localUp : THREE.Vector3 :=
  THREE.normalize (THREE.ofArr (initialPosition topCenter)).

Definition oll_up : THREE.Vector3 :=
  THREE.applyQuaternion oll_localUp (quaternion topCenter).

(** The filter of [orientedEdges] and of [orientedCorners]. *)
Definition oll_oriented (c : CubieState) : bool :=
  let currentUp := THREE.applyQuaternion oll_localUp (quaternion c) in
  (THREE.dot currentUp oll_up >? kq 9 10)%K.

Definition getStickerNormal (c : CubieState) : THREE.Vector3 :=
  THREE.applyQuaternion oll_localUp (quaternion c).

Definition oll_headlightPairs (corners : list CubieState) : nat :=
  List.length
    (filter
       (fun cc : CubieState * CubieState =>
          let (c1, c2) := cc in
          if (THREE.distanceTo (THREE.ofArr (position c1))
                               (THREE.ofArr (position c2)) >? kq 22 10)%K
          then false
          else (THREE.dot (getStickerNormal c1) (getStickerNormal c2)
                  >? kq 9 10)%K)
       (pairs corners)).

(** The [forEach] that looks for the clockwise neighbour. *)
Definition oll_neighborStep (orientedC : CubieState)
    (centerPos tangentCW : THREE.Vector3)
    (acc : option CubieState * option K) (c : CubieState)
  : option CubieState * option K :=
  if id c =? id orientedC then acc
  else
    let cPosRel := THREE.normalize
                     (THREE.subVectors (THREE.ofArr (position c)) centerPos) in
    let d := THREE.dot cPosRel tangentCW in
    if above d (snd acc) then (Some c, Some d) else acc.

Definition oll_twoOriented (corners orientedCorners : list CubieState)
  : option string :=
  match orientedCorners with
  | o1 :: o2 :: _ =>
      let dist := THREE.distanceTo (THREE.ofArr (position o1))
                                   (THREE.ofArr (position o2)) in
      if (dist >? kq 22 10)%K then Some "L"
      else
        (* [orientedCorners.includes(c)] compares references: an entry
           of [corners] is in the filtered array iff the filter kept it *)
        let unoriented := filter (fun c => negb (oll_oriented c)) corners in
        match unoriented with
        | [u1; u2] =>
            if (THREE.dot (getStickerNormal u1) (getStickerNormal u2)
                  >? kq 8 10)%K
            then Some "U" else Some "T"
        | _ => Some "Unknown"
        end
  | _ => None (* not reached: two corners are oriented *)
  end.

Definition identify2LookOLL : option string :=
  let edges := filter isEdge topPieces in
  let corners := filter isCorner topPieces in
  let orientedEdges := filter oll_oriented edges in
  let edgeCount := List.length orientedEdges in
  if (edgeCount <? 4)%nat then
    if (edgeCount =? 0)%nat then Some "Dot"
    else if (edgeCount =? 2)%nat then
      match orientedEdges with
      | e1 :: e2 :: _ =>
          let dist := THREE.distanceTo (THREE.ofArr (position e1))
                                       (THREE.ofArr (position e2)) in
          if (dist <? kq 18 10)%K then Some "L-Shape" else Some "Line"
      | _ => None (* not reached: two edges are oriented *)
      end
    else Some "Unknown"
  else
    let orientedCorners := filter oll_oriented corners in
    let orientedCount := List.length orientedCorners in
    let centerPos := THREE.ofArr (position topCenter) in
    if (orientedCount =? 0)%nat then
      let headlightPairs := oll_headlightPairs corners in
      if (2 <=? headlightPairs)%nat then Some "H"
      else if (headlightPairs =? 1)%nat then Some "Pi"
      else Some "Unknown"
    else
      let sune :=
        if (orientedCount =? 1)%nat then
          match orientedCorners with
          | orientedC :: _ =>
              let oPosRel := THREE.subVectors
                               (THREE.ofArr (position orientedC)) centerPos in
              let tangentCW := THREE.normalize
                                 (THREE.crossVectors oll_up oPosRel) in
              match fst (fold_left
                           (oll_neighborStep orientedC centerPos tangentCW)
                           corners (None, None)) with
              | Some neighbor =>
                  let nPosRel := THREE.subVectors
                                   (THREE.ofArr (position neighbor))
                                   centerPos in
                  let nSticker := getStickerNormal neighbor in
                  let cross := THREE.crossVectors nPosRel nSticker in
                  let twistVal := THREE.dot cross oll_up in
                  if (twistVal >? kz 0)%K then Some "Sune"
                  else Some "Anti-Sune"
              | None => None
              end
          | [] => None
          end
        else None in
      match sune with
      | Some r => Some r
      | None =>
          if (orientedCount =? 2)%nat
          then oll_twoOriented corners orientedCorners
          else Some "Unknown"
      end.

End OLL.

(** ** [utils/pllPatterns.ts] *)

(** Truthiness of a [string | null]. *)
Definition truthy (o : option string) : bool :=
  match o with
  | Some EmptyString => false
  | Some _ => true
  | None => false
  end.

(** [===] on two [string | null]. *)
Definition same (a b : option string) : bool :=
  match a, b with
  | Some x, Some y => String.eqb x y
  | None, None => true
  | _, _ => false
  end.

Definition isOppositeColor (c1 c2 : string) : bool :=
  existsb
    (fun p : string * string =>
       (String.eqb c1 (fst p) && String.eqb c2 (snd p))
       || (String.eqb c1 (snd p) && String.eqb c2 (fst p)))
    [("U", "D"); ("L", "R"); ("F", "B")].

Definition localNormals : list (THREE.Vector3 * string) :=
  [ (THREE.ofArr (1, 0, 0), "R"); (THREE.ofArr (-1, 0, 0), "L");
    (THREE.ofArr (0, 1, 0), "U"); (THREE.ofArr (0, -1, 0), "D");
    (THREE.ofArr (0, 0, 1), "F"); (THREE.ofArr (0, 0, -1), "B") ].

(** [n.vec.c !== 0 && Math.abs(p[i] - n.vec.c) > 0.1]. *)
Definition offAxis (nc : K) (pc : Z) : bool :=
  (negb (nc =? kz 0) && (Surd.abs (kz pc - nc) >? kq 1 10))%K.

Definition validNormal (cubie : CubieState) (n : THREE.Vector3 * string) : bool :=
  let '(p0, p1, p2) := initialPosition cubie in
  if offAxis (THREE.vx (fst n)) p0 then false
  else if offAxis (THREE.vy (fst n)) p1 then false
  else if offAxis (THREE.vz (fst n)) p2 then false
  else true.

Definition stickerStep (cubie : CubieState) (dir : THREE.Vector3)
    (acc : option string * K) (n : THREE.Vector3 * string)
  : option string * K :=
  let worldNormal := THREE.applyQuaternion (fst n) (quaternion cubie) in
  let d := THREE.dot worldNormal dir in
  if (d >? snd acc)%K then (Some (snd n), d) else acc.

Definition getStickerColor (cubie : CubieState) (dir : THREE.Vector3)
  : option string :=
  let validNormals := filter (validNormal cubie) localNormals in
  fst (fold_left (stickerStep cubie dir) validNormals (None, kq 9 10)).

Record Face : Type := mkFace {
  dir : THREE.Vector3;
  c1 : option string;
  c2 : option string;
  e : option string;
  isHeadlights : bool;
  isBar : bool
}.

Definition pll_candidates : list THREE.Vector3 :=
  [ THREE.ofArr (1, 0, 0); THREE.ofArr (-1, 0, 0);
    THREE.ofArr (0, 1, 0); THREE.ofArr (0, -1, 0);
    THREE.ofArr (0, 0, 1); THREE.ofArr (0, 0, -1) ].

Definition option_string_dec (a b : option string) : {a = b} + {a <> b}.
Proof. decide equality. apply string_dec. Defined.

Section PLL.

Variable topPieces : list CubieState.
Variable topCenter : CubieState.

Definition pll_up : THREE.Vector3 :=
  THREE.applyQuaternion
    (THREE.normalize (THREE.ofArr (initialPosition topCenter)))
    (quaternion topCenter).

Definition sideDirs : list THREE.Vector3 :=
  filter (fun v => (Surd.abs (THREE.dot v pll_up) <? kq 1 10)%K)
         pll_candidates.

(** [new Vector3(...c.position).sub(centerPos).dot(dir) > 0.5]. *)
Definition onFace (d : THREE.Vector3) (c : CubieState) : bool :=
  let centerPos := THREE.ofArr (position topCenter) in
  (THREE.dot (THREE.subVectors (THREE.ofArr (position c)) centerPos) d
     >? kq 5 10)%K.

Definition pll_face (d : THREE.Vector3) : Face :=
  let corners := filter isCorner topPieces in
  let edges := filter isEdge topPieces in
  let faceCorners := filter (onFace d) corners in
  let faceEdge := find (onFace d) edges in
  let cc :=
    match faceCorners with
    | [fc0; fc1] => (getStickerColor fc0 d, getStickerColor fc1 d)
    | _ => (None, None)
    end in
  let c1 := fst cc in
  let c2 := snd cc in
  let e :=
    match faceEdge with
    | Some fe => getStickerColor fe d
    | None => None
    end in
  let isBar := truthy c1 && truthy c2 && truthy e && same c1 c2 && same c1 e in
  let isHeadlights := truthy c1 && truthy c2 && same c1 c2 in
  mkFace d c1 c2 e isHeadlights isBar.

Definition pll_faces : list Face := map pll_face sideDirs.

Definition headlightsCount : nat :=
  List.length (filter isHeadlights pll_faces).
Definition solvedBarsCount : nat :=
  List.length (filter isBar pll_faces).

(** [new Set(faces.map(f => f.c1)).size]. *)
Definition distinctColors : nat :=
  List.length (nodup option_string_dec (map c1 pll_faces)).

Definition pll_HZ : option string :=
  match find (fun f => truthy (c1 f) && truthy (e f)) pll_faces with
  | Some face =>
      match c1 face, e face with
      | Some a, Some b =>
          if truthy (c1 face) && truthy (e face)
          then if isOppositeColor a b then Some "PLL (H)" else Some "PLL (Z)"
          else Some "PLL (Z)"
      | _, _ => Some "PLL (Z)"
      end
  | None => Some "PLL (Z)"
  end.

Definition pll_U : option string :=
  match find isBar pll_faces with
  | Some backFace =>
      let backDir := dir backFace in
      let frontDir := THREE.negate backDir in
      let frontFace :=
        find (fun f => (THREE.dot (dir f) frontDir >? kq 9 10)%K) pll_faces in
      let rightDir := THREE.crossVectors pll_up frontDir in
      let rightFace :=
        find (fun f => (THREE.dot (dir f) rightDir >? kq 9 10)%K) pll_faces in
      match frontFace, rightFace with
      | Some ff, Some rf =>
          if truthy (e ff) && truthy (c1 rf)
          then if same (e ff) (c1 rf) then Some "PLL (Ua)" else Some "PLL (Ub)"
          else Some "PLL (Ua)"
      | _, _ => Some "PLL (Ua)"
      end
  | None => Some "PLL (Ua)"
  end.

Definition identifyPLL : option string :=
  if (headlightsCount =? 0)%nat then Some "Diagonal"
  else if (headlightsCount =? 1)%nat then Some "Headlights"
  else if (headlightsCount =? 4)%nat then
    if (solvedBarsCount =? 4)%nat then
      if (distinctColors =? 4)%nat then Some "Solved" else Some "Unknown"
    else if (solvedBarsCount =? 0)%nat then pll_HZ
    else if (solvedBarsCount =? 1)%nat then pll_U
    else Some "PLL (Z)"
  else Some "Unknown".

End PLL.

(** ** [analyzeCube] *)

(** [arr.findIndex(f)] on a triple. *)
Definition findIndex (f : Z -> bool) (v : Vector3Arr) : Z :=
  let '(a, b, c) := v in
  if f a then 0 else if f b then 1 else if f c then 2 else -1.

(** What one pass of the loop over the centers has worked out when it
    reaches the comparison with the best candidate so far. *)
Record Candidate : Type := mkCandidate {
  currentPhase : Phase;
  cand_f2lTag : option F2LTag;
  cand_missingCount : option Z;
  ollCaseResult : option string;
  pllCaseResult : option string
}.

(** The [let best...] variables of [analyzeCube]. *)
Record Best : Type := mkBest {
  bestPhase : Phase;
  bestBase : option CubieState;
  bestF2LTag : option F2LTag;
  bestMissingCount : option Z;
  bestOLLCase : option string;
  bestPLLCase : option string
}.

Definition phaseValue (p : Phase) : Z :=
  match p with
  | Scrambled => 0
  | Cross => 1
  | F2L => 2
  | OLL => 3
  | PLL => 4
  | Solved => 5
  end.

Definition Phase_eqb (p q : Phase) : bool := phaseValue p =? phaseValue q.

(** [n || 0] on a [number | undefined]. *)
Definition orZero (n : option Z) : Z :=
  match n with Some v => v | None => 0 end.

(** The filter of [topPieces]: is the origin of [p] in the layer of
    the center [tc]? *)
Definition onTopLayer (tc p : CubieState) : bool :=
  let tVec := THREE.ofArr (initialPosition tc) in
  let pVec := THREE.ofArr (initialPosition p) in
  let ax := if negb (THREE.vx tVec =? kz 0)%K then 0
            else if negb (THREE.vy tVec =? kz 0)%K then 1 else 2 in
  match THREE.getComponent pVec ax, THREE.getComponent tVec ax with
  | Some a, Some b => (Surd.abs (a - b) <? kq 1 10)%K
  | _, _ => false
  end.

Section Engine.

Variable cubies : list CubieState.

Definition centers : list CubieState := filter isCenter cubies.
Definition edges : list CubieState := filter isEdge cubies.
Definition corners : list CubieState := filter isCorner cubies.

Section Candidate.

Variable center : CubieState.

Definition crossEdges : list CubieState :=
  filter
    (fun e =>
       let cVec := THREE.ofArr (initialPosition center) in
       let eVec := THREE.ofArr (initialPosition e) in
       (THREE.distanceTo cVec eVec <? kq 11 10)%K)
    edges.

Definition isCrossSolved : bool :=
  forallb (fun e => isCorrectlyPlaced e center) crossEdges.

Definition baseAxisIndex : Z :=
  findIndex (fun v => negb (v =? 0)) (initialPosition center).

Definition baseCorners : list CubieState :=
  filter
    (fun c => near (at3 (initialPosition c) baseAxisIndex)
                   (at3 (initialPosition center) baseAxisIndex))
    corners.

(** One pass of [for (const corner of baseCorners)]; the counters
    are [(solvedPairs, solvedCorners, solvedEdges)]. *)
Definition f2lStep (acc : Z * Z * Z) (corner : CubieState) : Z * Z * Z :=
  let '(solvedPairs, solvedCorners, solvedEdges) := acc in
  let isCornerSolved := isCorrectlyPlaced corner center in
  let solvedCorners :=
    if isCornerSolved then solvedCorners + 1 else solvedCorners in
  let edgeInitPos := set3 (initialPosition corner) baseAxisIndex 0 in
  let edge :=
    find (fun e' =>
            near (at3 (initialPosition e') 0) (at3 edgeInitPos 0)
            && near (at3 (initialPosition e') 1) (at3 edgeInitPos 1)
            && near (at3 (initialPosition e') 2) (at3 edgeInitPos 2))
         edges in
  match edge with
  | Some edge' =>
      let isEdgeSolved := isCorrectlyPlaced edge' center in
      let solvedEdges :=
        if isEdgeSolved then solvedEdges + 1 else solvedEdges in
      let solvedPairs :=
        if isCornerSolved && isEdgeSolved
        then solvedPairs + 1 else solvedPairs in
      (solvedPairs, solvedCorners, solvedEdges)
  | None => (solvedPairs, solvedCorners, solvedEdges)
  end.

Definition f2lCounts : Z * Z * Z := fold_left f2lStep baseCorners (0, 0, 0).

Definition solvedPairs : Z := fst (fst f2lCounts).
Definition solvedCorners : Z := snd (fst f2lCounts).
Definition solvedEdges : Z := snd f2lCounts.

Definition topCenter : option CubieState :=
  find
    (fun c =>
       let baseVec := THREE.ofArr (initialPosition center) in
       let cVec := THREE.ofArr (initialPosition c) in
       (THREE.dot baseVec cVec <? kq (-9) 10)%K)
    centers.

Definition topPieces (tc : CubieState) : list CubieState :=
  filter (onTopLayer tc) (edges ++ corners).

(** The body of the loop from [let currentPhase = 'F2L'] to the
    rank comparison, for a center whose cross is solved. *)
Definition evalCandidate : Candidate :=
  if solvedPairs =? 4 then
    match topCenter with
    | Some tc =>
        let tops := topPieces tc in
        let isOLLSolved := forallb (fun p => isOrientedForOLL p tc) tops in
        if isOLLSolved then
          let pllCaseResult := identifyPLL tops tc in
          if same pllCaseResult (Some "Solved")
          then mkCandidate Solved None None None None
          else mkCandidate PLL None None None pllCaseResult
        else mkCandidate OLL None None (identify2LookOLL tops tc) None
    | None => mkCandidate OLL None None None None
    end
  else if solvedPairs >=? 2 then
    mkCandidate F2L None (Some (4 - solvedPairs)) None None
  else if solvedCorners =? 4 then
    mkCandidate F2L (Some SecondLayer) (Some (4 - solvedEdges)) None None
  else
    mkCandidate F2L (Some FirstLayer) (Some (4 - solvedCorners)) None None.

(** The rank comparison that closes the loop body. *)
Definition consider (best : Best) (cand : Candidate) : Best :=
  let phaseRank := phaseValue (currentPhase cand) in
  if phaseRank >? phaseValue (bestPhase best) then
    mkBest (currentPhase cand) (Some center) (cand_f2lTag cand)
           (cand_missingCount cand) (ollCaseResult cand)
           (pllCaseResult cand)
  else if (phaseRank =? phaseValue (bestPhase best))
          && Phase_eqb (currentPhase cand) F2L then
    if orZero (cand_missingCount cand) <? orZero (bestMissingCount best)
    then mkBest (bestPhase best) (Some center) (cand_f2lTag cand)
                (cand_missingCount cand) (bestOLLCase best)
                (bestPLLCase best)
    else best
  else best.

(** One pass of [for (const center of centers)]. *)
Definition loopBody (best : Best) : Best :=
  if negb isCrossSolved then best (* continue *)
  else consider best evalCandidate.

End Candidate.

Definition initialBest : Best :=
  mkBest Scrambled None None None None None.

Definition finalBest : Best :=
  fold_left (fun best center => loopBody center best) centers initialBest.

Definition colorOf (base : option CubieState) : option string :=
  match base with
  | Some b =>
      let '(ip0, ip1, ip2) := initialPosition b in
      if ip1 =? 1 then Some COLORS.U
      else if ip1 =? -1 then Some COLORS.D
      else if ip0 =? 1 then Some COLORS.R
      else if ip0 =? -1 then Some COLORS.L
      else if ip2 =? 1 then Some COLORS.F
      else if ip2 =? -1 then Some COLORS.B
      else None
  | None => None
  end.

Definition analyzeCube : AnalysisResult :=
  let best := finalBest in
  let colorHex := colorOf (bestBase best) in
  if Phase_eqb (bestPhase best) Scrambled then
    mkResult Cross None false None None None None
  else
    mkResult (bestPhase best) colorHex
             (Phase_eqb (bestPhase best) Solved)
             (bestF2LTag best) (bestMissingCount best)
             (bestOLLCase best) (bestPLLCase best).

End Engine.

(** ** More of the program

    The rest of [utils/cubeLogic.ts], the callbacks and the partition
    of [useCubeAnimation], the end of [useCubeSwipe],
    the stickers of [components/CubeModel.tsx] and the two tables of
    algorithms. *)

(** *** [getNotationMove] ([utils/cubeLogic.ts])

    A character of the embedding is a UTF-16 code unit below 256: the
    ASCII characters, which is what the buttons of the application
    pass, and the Latin-1 supplement. *)

Fixpoint lastChar (s : string) : option ascii :=
  match s with
  | EmptyString => None
  | String c EmptyString => Some c
  | String _ t => lastChar t
  end.

(** [s.endsWith(c)] for a one-character [c]. *)
Definition endsWith (s : string) (c : ascii) : bool :=
  match lastChar s with
  | Some c' => Ascii.eqb c' c
  | None => false
  end.

(** [c.toUpperCase()] for one character: the letters a to z and the
    letters 224 to 254 other than the division sign (247) give the
    character 32 below; three letters have a capital that is not one
    code unit below 256, for which the answer is [None]: 181 (its
    capital is U+039C), 223 (['SS']) and 255 (U+0178); the other
    characters are their own capital. *)
Definition toUpperCase (c : ascii) : option ascii :=
  let n := N_of_ascii c in
  if ((97 <=? n) && (n <=? 122)
      || (224 <=? n) && (n <=? 254) && negb (n =? 247))%N
  then Some (ascii_of_N (n - 32))
  else if ((n =? 181) || (n =? 223) || (n =? 255))%N then None
  else Some c.

(** [s === c] for a capital [s] and a character [c]. *)
Definition sameChar (s : option ascii) (c : ascii) : bool :=
  match s with
  | Some c' => Ascii.eqb c' c
  | None => false
  end.

(** The part of [camera.matrixWorld] the function reads: its first
    three columns, [elements[0..2]], [elements[4..6]] and
    [elements[8..10]]. *)
Record Camera : Type := mkCamera {
  column0 : THREE.Vector3;
  column1 : THREE.Vector3;
  column2 : THREE.Vector3
}.

Record GlobalAxis : Type := mkGlobalAxis {
  g_axis : Axis;
  g_slice : Z;
  g_vec : THREE.Vector3
}.

Definition globalAxes : list GlobalAxis :=
  [ mkGlobalAxis AxisX 1 (THREE.ofArr (1, 0, 0));
    mkGlobalAxis AxisX (-1) (THREE.ofArr (-1, 0, 0));
    mkGlobalAxis AxisY 1 (THREE.ofArr (0, 1, 0));
    mkGlobalAxis AxisY (-1) (THREE.ofArr (0, -1, 0));
    mkGlobalAxis AxisZ 1 (THREE.ofArr (0, 0, 1));
    mkGlobalAxis AxisZ (-1) (THREE.ofArr (0, 0, -1)) ].

(** One pass of [globalAxes.forEach]; the accumulator is
    [(bestMatch, maxDot)], [maxDot] starting at [-Infinity]. *)
Definition bestStep (target : THREE.Vector3)
    (acc : GlobalAxis * option K) (g : GlobalAxis) : GlobalAxis * option K :=
  let d := THREE.dot (g_vec g) target in
  if above d (snd acc) then (g, Some d) else acc.

Definition bestMatch (target : THREE.Vector3) : GlobalAxis :=
  fst (fold_left (bestStep target) globalAxes
         (mkGlobalAxis AxisX 1 (THREE.ofArr (1, 0, 0)), None)).

Definition isSliceLetter (c : ascii) : bool :=
  Ascii.eqb c "M" || Ascii.eqb c "E" || Ascii.eqb c "S".

(** The face a letter refers to: M follows L, E follows D, S follows
    F. *)
Definition targetFace (baseChar : ascii) : option ascii :=
  let baseUpper := toUpperCase baseChar in
  let targetFace := baseUpper in
  let targetFace :=
    if Ascii.eqb baseChar "M" then Some "L"%char else targetFace in
  let targetFace :=
    if Ascii.eqb baseChar "E" then Some "D"%char else targetFace in
  let targetFace :=
    if Ascii.eqb baseChar "S" then Some "F"%char else targetFace in
  targetFace.

(** The direction that face points to on the screen ([switch
    (targetFace)]). *)
Definition target (camera : Camera) (face : option ascii) : THREE.Vector3 :=
  let right := THREE.normalize (column0 camera) in
  let up := THREE.normalize (column1 camera) in
  let back := THREE.normalize (column2 camera) in
  if sameChar face "F" then back
  else if sameChar face "B" then THREE.negate back
  else if sameChar face "R" then right
  else if sameChar face "L" then THREE.negate right
  else if sameChar face "U" then up
  else if sameChar face "D" then THREE.negate up
  else back.

(** What the function builds once the best aligned axis is known. *)
Definition finalMove (notation : string) (baseChar : ascii)
    (bestMatch : GlobalAxis) : Move :=
  let isPrime := endsWith notation "'" in
  let isDouble := endsWith notation "2" in
  let baseUpper := toUpperCase baseChar in
  let dirMult := if isPrime then -1 else if isDouble then 2 else 1 in
  let slice := g_slice bestMatch in
  let baseDir := - slice in
  let finalSlices :=
    if isSliceLetter baseChar then [0]
    else if negb (sameChar baseUpper baseChar) then [slice; 0]
    else [slice] in
  mkMove (g_axis bestMatch) finalSlices (baseDir * dirMult).

(** [None] stands for the [TypeError] of [baseChar.toUpperCase()] on
    the empty string, whose [notation[0]] is [undefined]. *)
Definition getNotationMove (notation : string) (camera : Camera)
  : option Move :=
  match notation with
  | EmptyString => None
  | String baseChar _ =>
      Some (finalMove notation baseChar
              (bestMatch (target camera (targetFace baseChar))))
  end.

(** *** The partition of the pieces ([useMemo] of [useCubeAnimation])

    What the hook hands to the renderer: the pieces that turn with the
    move under way, and the others. *)

Definition groupStep (activeMove : Move)
    (acc : list CubieState * list CubieState) (c : CubieState)
  : list CubieState * list CubieState :=
  let (active, stat) := acc in
  if includes (slice activeMove)
              (at3 (position c) (axisIndex (axis activeMove)))
  then (active ++ [c], stat)
  else (active, stat ++ [c]).

Definition groups (activeMove : option Move) (cubies : list CubieState)
  : list CubieState * list CubieState :=
  match activeMove with
  | None => ([], cubies)
  | Some move => fold_left (groupStep move) cubies ([], [])
  end.

Definition activeGroup (activeMove : option Move) (cubies : list CubieState)
  : list CubieState := fst (groups activeMove cubies).

Definition staticGroup (activeMove : option Move) (cubies : list CubieState)
  : list CubieState := snd (groups activeMove cubies).

(** *** The state of [useCubeAnimation] and its callbacks

    The state is the pair of React states [cubies] and [isAnimating]
    and the fields of [animRef.current] the logic reads; an update of a
    state is taken to be in effect when the next callback runs.
    [Math.PI] is not a member of the number field: the functions take
    the number [PI] that stands for it. *)

Module UseCubeAnimation.

Record Anim : Type := mkAnim {
  activeMove : option Move;
  currentAngle : K;
  targetAngle : K;
  speed : K
}.

Record State : Type := mkState {
  cubies : list CubieState;
  isAnimating : bool;
  animRef : Anim
}.

Section Hook.

Variable PI : K.

(** The state the hook starts with. *)
Definition initial : State :=
  mkState getInitialState false
          (mkAnim None (kz 0) (PI / kz 2)%K (kq 2 10)).

(** The effect that runs when [resetTrigger] changes. *)
Definition reset (st : State) : State :=
  mkState getInitialState false
          (mkAnim None (currentAngle (animRef st)) (targetAngle (animRef st))
                  (speed (animRef st))).

Definition triggerMove (move : Move) (speedMultiplier : K) (st : State)
  : State :=
  match activeMove (animRef st) with
  | Some _ => st
  | None =>
      let isDouble := Z.abs (direction move) =? 2 in
      mkState (cubies st) true
              (mkAnim (Some move) (kz 0)
                      ((PI / kz 2) * kz (direction move))%K
                      ((if isDouble then kz 8 else kz 4) * speedMultiplier)%K)
  end.

(** The callback of [useFrame], for a frame that took [delta]; the
    commit is [applyMove]. *)
Definition useFrame (delta : K) (st : State) : State :=
  match activeMove (animRef st) with
  | None => st
  | Some move =>
      if negb (isAnimating st) then st
      else
        let anim := animRef st in
        let step := (speed anim * delta)%K in
        let newAngle :=
          (currentAngle anim
           + (if (targetAngle anim >? kz 0)%K then step else - step))%K in
        let finished :=
          ((targetAngle anim >? kz 0)%K
           && Surd.geb newAngle (targetAngle anim))
          || ((targetAngle anim <? kz 0)%K
              && Surd.leb newAngle (targetAngle anim)) in
        let newAngle := if finished then targetAngle anim else newAngle in
        if finished
        then mkState (applyMove (cubies st) move) false
                     (mkAnim None newAngle (targetAngle anim) (speed anim))
        else mkState (cubies st) (isAnimating st)
                     (mkAnim (activeMove anim) newAngle (targetAngle anim)
                             (speed anim))
  end.

End Hook.

End UseCubeAnimation.

(** *** [useCubeSwipe] *)

Module UseCubeSwipe.

(** [onPointerDown] snaps the normal of the touched face to an axis of
    the cube. *)
Definition snapStep (worldNormal : THREE.Vector3)
    (acc : THREE.Vector3 * K) (axis : THREE.Vector3) : THREE.Vector3 * K :=
  let d := THREE.dot axis worldNormal in
  if (d >? snd acc)%K then (axis, d) else acc.

Definition faceNormal (worldNormal : THREE.Vector3) : THREE.Vector3 :=
  let axes :=
    [ THREE.ofArr (1, 0, 0); THREE.ofArr (-1, 0, 0);
      THREE.ofArr (0, 1, 0); THREE.ofArr (0, -1, 0);
      THREE.ofArr (0, 0, 1); THREE.ofArr (0, 0, -1) ] in
  let bestAxis := THREE.ofArr (1, 0, 0) in
  let maxDot := kz (-2) in
  fst (fold_left (snapStep worldNormal) axes (bestAxis, maxDot)).

(** [Math.sign]. *)
Definition sign (x : K) : Z :=
  match Surd.sgn x with Lt => -1 | Eq => 0 | Gt => 1 end.

Definition cardinals : list THREE.Vector3 :=
  [THREE.ofArr (1, 0, 0); THREE.ofArr (0, 1, 0); THREE.ofArr (0, 0, 1)].

Definition validAxes (normal : THREE.Vector3) : list THREE.Vector3 :=
  filter (fun c => (Surd.abs (THREE.dot c normal) <? kq 1 10)%K) cardinals.

(** The end of [onPointerUp], from its step 4 on: the move triggered
    for the face normal, for the axis the drag follows on the screen
    and its sense, which the steps before work out with the projection
    of the camera, and for the point touched. *)
Definition swipeMove (normal bestMoveVector : THREE.Vector3) (dragSign : Z)
    (point : THREE.Vector3) : Move :=
  let worldDragDir := THREE.multiplyScalar bestMoveVector (kz dragSign) in
  let rotationAxisVec := THREE.crossVectors normal worldDragDir in
  let '(moveAxis, moveDirection) :=
    if (Surd.abs (THREE.vx rotationAxisVec) >? kq 5 10)%K
    then (AxisX, sign (THREE.vx rotationAxisVec))
    else if (Surd.abs (THREE.vy rotationAxisVec) >? kq 5 10)%K
         then (AxisY, sign (THREE.vy rotationAxisVec))
         else (AxisZ, sign (THREE.vz rotationAxisVec)) in
  let sliceCoord :=
    match moveAxis with
    | AxisX => THREE.vx point
    | AxisY => THREE.vy point
    | AxisZ => THREE.vz point
    end in
  let slice := Surd.round sliceCoord in
  let clampedSlice := Z.max (-1) (Z.min 1 slice) in
  mkMove moveAxis [clampedSlice] moveDirection.

End UseCubeSwipe.

(** *** [Cubie] of [components/CubeModel.tsx]

    The kind of mesh and the stickers of a piece; of a sticker, its
    colour and its place on the piece (the Euler angles that turn it
    to its face are left out). *)

Module CubeModel.

Inductive PieceType : Type := TypeCenter | TypeEdge | TypeCorner.

Definition pieceType (initialPosition : Vector3Arr) : PieceType :=
  let '(x, y, z) := initialPosition in
  let absSum := Z.abs x + Z.abs y + Z.abs z in
  let type := TypeCorner in
  let type := if absSum =? 1 then TypeCenter else type in
  let type := if absSum =? 2 then TypeEdge else type in
  type.

Record Sticker : Type := mkSticker {
  color : string;
  pos : K * K * K
}.

Definition stickers (initialPosition : Vector3Arr) : list Sticker :=
  let '(x, y, z) := initialPosition in
  (if x =? 1 then [mkSticker COLORS.R (kq 49 100, kz 0, kz 0)] else [])
  ++ (if x =? -1 then [mkSticker COLORS.L (kq (-49) 100, kz 0, kz 0)] else [])
  ++ (if y =? 1 then [mkSticker COLORS.U (kz 0, kq 49 100, kz 0)] else [])
  ++ (if y =? -1 then [mkSticker COLORS.D (kz 0, kq (-49) 100, kz 0)] else [])
  ++ (if z =? 1 then [mkSticker COLORS.F (kz 0, kz 0, kq 49 100)] else [])
  ++ (if z =? -1 then [mkSticker COLORS.B (kz 0, kz 0, kq (-49) 100)] else []).

End CubeModel.

(** *** The tables of algorithms ([ollPatterns.ts], [pllPatterns.ts]) *)

Definition OLL_ALGORITHMS : list (string * string) :=
  [ ("Dot", "F R U R' U' F' f R U R' U' f'");
    ("L-Shape", "F R U R' U' F'");
    ("Line", "f R U R' U' f'");
    ("Sune", "R U R' U R U2 R'");
    ("Anti-Sune", "R U2 R' U' R U' R'");
    ("H", "R U R' U R U' R' U R U2 R'");
    ("Pi", "R U2 R2 U' R2 U' R2 U2 R");
    ("U", "R2 D R' U2 R D' R' U2 R'");
    ("T", "r U R' U' r' F R F'");
    ("L", "F R' F' r U R U' r'") ].

Definition PLL_ALGORITHMS : list (string * string) :=
  [ ("Diagonal", "F R U' R' U' R U R' F' R U R' U' R' F R F'");
    ("Headlights", "R U R' U' R' F R2 U' R' U' R U R' F'");
    ("PLL (H)", "M2 U M2 U2 M2 U M2");
    ("PLL (Ua)", "R U' R U R U R U' R' U' R2");
    ("PLL (Ub)", "R2 U R U R' U' R' U' R' U R'");
    ("PLL (Z)", "M' U M2 U M2 U M' U2 M2") ].

(** * Definitions for the statements

    What the properties below are stated with: sample snapshots,
    the set of reachable snapshots, the group of orientations, and the
    functions the proofs enumerate. *)

(** ** The number field and the reals *)

(** The real number a member of the field stands for. *)
Definition toR (x : K) : R :=
  (Q2R (Surd.rat x) + Q2R (Surd.irr x) * sqrt 2)%R.

(** ** Rotation of lattice vectors ([rotateVector]) *)

(** The rotation the specification asks for, written from its words:
    a quarter turn is the right-hand-rule rotation by 90 degrees about
    the axis, in the sense given by the sign of [dir]. *)
Definition spec_quarter (v : Vector3Arr) (ax : Axis) (dir : Z) : Vector3Arr :=
  let '(x, y, z) := v in
  match ax with
  | AxisX => (x, - dir * z, dir * y)
  | AxisY => (dir * z, y, - dir * x)
  | AxisZ => (- dir * y, dir * x, z)
  end.

(** A half turn negates the two coordinates orthogonal to the axis. *)
Definition spec_half (v : Vector3Arr) (ax : Axis) : Vector3Arr :=
  let '(x, y, z) := v in
  match ax with
  | AxisX => (x, - y, - z)
  | AxisY => (- x, y, - z)
  | AxisZ => (- x, - y, z)
  end.

(** The vector the move commit stores for a piece it turns:
    [applyAxisAngle] followed by [Math.round] on each entry. *)
Definition commitPos (p : Vector3Arr) (ax : Axis) (dir : Z) : Vector3Arr :=
  let pos := THREE.applyAxisAngle (THREE.ofArr p) (axisVec ax) dir in
  (Surd.round (THREE.vx pos), Surd.round (THREE.vy pos),
   Surd.round (THREE.vz pos)).

(** The orientation the commit stores for a piece it turns. *)
Definition commitQuat (q : THREE.Quaternion) (ax : Axis) (d : Z)
  : THREE.Quaternion :=
  THREE.qnormalize
    (THREE.premultiply q (THREE.setFromAxisAngle (axisVec ax) d)).

Definition axes : list Axis := [AxisX; AxisY; AxisZ].
Definition turns : list Z := [-2; -1; 1; 2].

Definition Vector3Arr_eq_dec (a b : Vector3Arr) : {a = b} + {a <> b}.
Proof. repeat decide equality. Defined.

(** ** The move commit leaves everything else alone *)

(** The test of the commit: is the piece in one of the turning
    layers? *)
Definition affected (move : Move) (c : CubieState) : bool :=
  includes (slice move) (at3 (position c) (axisIndex (axis move))).

(** ** Sample play *)

(** A turn of one layer, and the snapshot after a sequence of turns of
    the solved cube. *)
Definition turn (ax : Axis) (layer : Z) (d : Z) : Move := mkMove ax [layer] d.

Definition play (moves : list Move) : list CubieState :=
  fold_left applyMove moves getInitialState.

Definition centerAt (p : Vector3Arr) (cubies : list CubieState)
  : option CubieState :=
  find (fun c => if Vector3Arr_eq_dec (initialPosition c) p then true else false)
       (centers cubies).

(** The solved cube after the right face, the top face and the right
    face back: the bottom cross stands, one pair is out. *)
Definition afterRUR' : list CubieState :=
  play [turn AxisX 1 (-1); turn AxisY 1 (-1); turn AxisX 1 1].

Definition bottomCenter : CubieState :=
  mkCubie 10 (0, -1, 0) (0, -1, 0) (0, 0, 0) THREE.identity.

(** Five turns after which no face has its cross. *)
Definition fiveTurns : list CubieState :=
  play [turn AxisY 1 1; turn AxisX 1 1; turn AxisZ 0 1;
        turn AxisY (-1) 2; turn AxisX (-1) 1].

(** ** Reachable snapshots *)

Definition validMove (m : Move) : Prop :=
  Forall (fun s => In s range3) (slice m) /\ In (direction m) turns.

(** The snapshots the animation hook can hold: the initial one, and
    those a committed move makes of them. *)
Inductive reachable : list CubieState -> Prop :=
| reach_init : reachable getInitialState
| reach_move (s : list CubieState) (m : Move) :
    reachable s -> validMove m -> reachable (applyMove s m).

(** *** Orientations: the group of the cube *)

Definition K_eq_dec (a b : K) : {a = b} + {a <> b}.
Proof. unfold K in *. repeat decide equality. Defined.

Definition Vector3_eq_dec (a b : THREE.Vector3) : {a = b} + {a <> b}.
Proof. decide equality; apply K_eq_dec. Defined.

Definition Quaternion_eq_dec (a b : THREE.Quaternion) : {a = b} + {a <> b}.
Proof. decide equality; apply K_eq_dec. Defined.

(** The rotation a quaternion stands for, given by the images of the
    three unit vectors. *)
Definition matrixOf (q : THREE.Quaternion)
  : THREE.Vector3 * THREE.Vector3 * THREE.Vector3 :=
  (THREE.applyQuaternion (THREE.ofArr (1, 0, 0)) q,
   THREE.applyQuaternion (THREE.ofArr (0, 1, 0)) q,
   THREE.applyQuaternion (THREE.ofArr (0, 0, 1)) q).

Definition unitAxes : list THREE.Vector3 := pll_candidates.

Definition isUnitAxis (v : THREE.Vector3) : bool :=
  if in_dec Vector3_eq_dec v unitAxes then true else false.


Definition quarterTurns : list THREE.Quaternion :=
  map (fun ax => THREE.setFromAxisAngle (axisVec ax) 1) axes.

Definition grow (l : list THREE.Quaternion) : list THREE.Quaternion :=
  nodup Quaternion_eq_dec
        (l ++ flat_map (fun g => map (fun q => THREE.premultiply q g) l)
                       quarterTurns).

(** The quaternions generated by the three quarter turns: 48 of them,
    two for each rotation of the cube. *)
Definition cubeGroup : list THREE.Quaternion :=
  Eval vm_compute in Nat.iter 6 grow [THREE.identity].

Definition inGroup (q : THREE.Quaternion) : bool :=
  if in_dec Quaternion_eq_dec q cubeGroup then true else false.

(** *** Positions: permutations of the lattice *)

Fixpoint remove1 (x : Vector3Arr) (l : list Vector3Arr)
  : option (list Vector3Arr) :=
  match l with
  | [] => None
  | y :: t =>
      if Vector3Arr_eq_dec x y then Some t
      else option_map (cons y) (remove1 x t)
  end.

(** A decision procedure for "is a permutation of". *)
Fixpoint permb (l1 l2 : list Vector3Arr) : bool :=
  match l1 with
  | [] => match l2 with [] => true | _ => false end
  | x :: t =>
      match remove1 x l2 with
      | Some l2' => permb t l2'
      | None => false
      end
  end.

Definition inSlice (sl : list Z) (v : Z) : bool := existsb (Z.eqb v) sl.

(** What the commit does to the position of a piece, given the test
    "is this layer turning?". *)
Definition movePos (mem : Z -> bool) (ax : Axis) (d : Z) (p : Vector3Arr)
  : Vector3Arr :=
  match at3 p (axisIndex ax) with
  | Some v => if mem v then commitPos p ax d else p
  | None => p
  end.

Definition memOf (b1 b2 b3 : bool) (v : Z) : bool :=
  if v =? -1 then b1 else if v =? 0 then b2 else if v =? 1 then b3 else false.

(** *** The invariant of reachable snapshots *)

Record wellFormed (s : list CubieState) : Prop := mkWellFormed {
  wf_origins : map initialPosition s = lattice;
  wf_positions : Permutation (map position s) lattice;
  wf_orientations : Forall (fun c => In (quaternion c) cubeGroup) s
}.

(** ** Four quarter turns *)


(** What the commit makes of a piece it turns. *)
Definition turnCubie (ax : Axis) (d : Z) (c : CubieState) : CubieState :=
  mkCubie (id c) (initialPosition c) (commitPos (position c) ax d)
          (rotation c) (commitQuat (quaternion c) ax d).

Definition quarters : list Z := [-1; 1].


(** ** The edge stage of the OLL classifier *)

(** The top edges the classifier counts as oriented. *)
Definition orientedEdges (tops : list CubieState) (tc : CubieState)
  : list CubieState :=
  filter (oll_oriented tc) (filter isEdge tops).

(** The solved cube after F U R U' R' F': seen from the bottom face
    the first two layers stand and two top edges are oriented. *)
Definition afterFURURF : list CubieState :=
  play [turn AxisZ 1 (-1); turn AxisY 1 (-1); turn AxisX 1 (-1);
        turn AxisY 1 1; turn AxisX 1 1; turn AxisZ 1 1].

Definition topOf (cubies : list CubieState) (base : Vector3Arr)
  : option CubieState :=
  match centerAt base cubies with
  | Some c => topCenter cubies c
  | None => None
  end.

(** The claim with the distance taken between the origins of the two
    oriented edges, as the specification words it. *)
Definition edge_stage_by_origin : Prop :=
  forall (tops : list CubieState) (tc e1 e2 : CubieState),
    orientedEdges tops tc = [e1; e2] ->
    identify2LookOLL tops tc =
      if (THREE.distanceTo (THREE.ofArr (initialPosition e1))
                           (THREE.ofArr (initialPosition e2)) <? kq 18 10)%K
      then Some "L-Shape" else Some "Line".

(** ** Placement is sensitive to orientation *)

(** The vector of the oracle, from the piece to the reference center,
    in the solved cube. *)
Definition originVector (piece center : CubieState) : THREE.Vector3 :=
  THREE.subVectors (THREE.ofArr (initialPosition center))
                   (THREE.ofArr (initialPosition piece)).

(** Does the rotation of [q] leave [v] where it is? *)
Definition fixes (q : THREE.Quaternion) (v : THREE.Vector3) : bool :=
  if Vector3_eq_dec (THREE.applyQuaternion v q) v then true else false.

Definition isIdentityRotation (q : THREE.Quaternion) : bool :=
  fixes q (THREE.ofArr (1, 0, 0)) && fixes q (THREE.ofArr (0, 1, 0))
  && fixes q (THREE.ofArr (0, 0, 1)).

(** A piece and a center at their origins, the piece turned by [q]. *)
Definition atOrigin (p : Vector3Arr) (q : THREE.Quaternion) : CubieState :=
  mkCubie 0 p p (0, 0, 0) q.

Definition movingOrigins : list Vector3Arr :=
  filter (fun p => isEdge (atOrigin p THREE.identity)
                   || isCorner (atOrigin p THREE.identity)) lattice.

Definition centerOrigins : list Vector3Arr :=
  filter (fun p => isCenter (atOrigin p THREE.identity)) lattice.

Definition CubieState_eq_dec (a b : CubieState) : {a = b} + {a <> b}.
Proof.
  decide equality;
    (apply Quaternion_eq_dec || apply Vector3Arr_eq_dec || apply Z.eq_dec).
Defined.

(** Twice R' D' R D leaves the corner of origin (1, 1, 1) in place,
    turned by a third of a turn; the centers have not moved. *)
Definition afterTwist : list CubieState :=
  play [turn AxisX 1 1; turn AxisY (-1) (-1); turn AxisX 1 (-1);
        turn AxisY (-1) 1;
        turn AxisX 1 1; turn AxisY (-1) (-1); turn AxisX 1 (-1);
        turn AxisY (-1) 1].

Definition twistedCorner : CubieState :=
  mkCubie 26 (1, 1, 1) (1, 1, 1) (0, 0, 0)
          (THREE.quat (kq 1 2) (kq 1 2) (kq 1 2) (kq 1 2)).

Definition topCenterHome : CubieState :=
  mkCubie 16 (0, 1, 0) (0, 1, 0) (0, 0, 0) THREE.identity.

(** The same vector in the snapshot at hand. *)
Definition currentVector (piece center : CubieState) : THREE.Vector3 :=
  THREE.subVectors (THREE.ofArr (position center))
                   (THREE.ofArr (position piece)).

(** The claim without the condition on the center: the rotation fixes
    the vector to the center neither as it was nor as it is. *)
Definition sensitive_for_any_center : Prop :=
  forall piece center : CubieState,
    In (initialPosition piece) lattice ->
    isEdge piece || isCorner piece = true ->
    In (initialPosition center) lattice ->
    isCenter center = true ->
    position piece = initialPosition piece ->
    In (quaternion piece) cubeGroup ->
    THREE.applyQuaternion (originVector piece center) (quaternion piece)
      <> originVector piece center ->
    THREE.applyQuaternion (currentVector piece center) (quaternion piece)
      <> currentVector piece center ->
    isCorrectlyPlaced piece center = false.

(** After a quarter turn of the middle layer about z and a half turn
    of the right face, the edge of origin (1, 1, 0) is back in its
    place, flipped, and the center of origin (0, 1, 0) sits at
    (1, 0, 0), next to it on the side the flipped sticker faces:
    the oracle answers true. *)
Definition afterSliceAndHalf : list CubieState :=
  play [turn AxisZ 0 (-1); turn AxisX 1 2].

Definition flippedEdge : CubieState :=
  mkCubie 25 (1, 1, 0) (1, 1, 0) (0, 0, 0)
          (THREE.quat Surd.rt2_2 Surd.rt2_2 (kz 0) (kz 0)).

Definition movedCenter : CubieState :=
  mkCubie 16 (0, 1, 0) (1, 0, 0) (0, 0, 0)
          (THREE.quat Surd.rt2_2 Surd.rt2_2 (kz 0) (kz 0)).

(** ** From the PLL sentinel to the phase of the engine *)

(** Once the best phase is ['Solved'] the loop leaves it so, with no
    PLL case. *)
Definition solvedBest (b : Best) : Prop :=
  bestPhase b = Solved /\ bestPLLCase b = None.

(** *** What the classifier reads off a piece *)

Definition cornerOrigins : list Vector3Arr :=
  filter (fun p => isCorner (atOrigin p THREE.identity)) lattice.

Definition orientedTo (localUp centerUp : THREE.Vector3)
    (q : THREE.Quaternion) : bool :=
  THREE.angleTo_lt centerUp
    (THREE.applyQuaternion localUp (THREE.qnormalize q)) ROT_EPSILON_cos.

Definition localUpOf (tcp : Vector3Arr) : THREE.Vector3 :=
  THREE.normalize (THREE.ofArr tcp).

Definition sideDirsOf (up : THREE.Vector3) : list THREE.Vector3 :=
  filter (fun v => (Surd.abs (THREE.dot v up) <? kq 1 10)%K) pll_candidates.

Definition colorAt (p : Vector3Arr) (q : THREE.Quaternion)
    (d : THREE.Vector3) : option string :=
  getStickerColor (atOrigin p q) d.

Definition letters : list string := map snd localNormals.

(** [p] carries a sticker of letter [l] on a face other than the two
    across the axis of the center of origin [tcp]. *)
Definition holds (tcp : Vector3Arr) (l : string) (p : Vector3Arr) : bool :=
  existsb
    (fun n => validNormal (atOrigin p THREE.identity) n
              && String.eqb (snd n) l
              && (THREE.dot (fst n) (THREE.ofArr tcp) =? kz 0)%K)
    localNormals.

Definition topCorner (tcp p : Vector3Arr) : bool :=
  onTopLayer (atOrigin tcp THREE.identity) (atOrigin p THREE.identity).

Definition inLetters (l : string) : bool := existsb (String.eqb l) letters.

(** The corners among the pieces handed to the classifier. *)
Definition topCorners (cubies : list CubieState) (tc : CubieState)
  : list CubieState :=
  filter isCorner (topPieces cubies tc).

(** *** Two centers of the solved cube *)

Definition leftCenter : CubieState :=
  mkCubie 4 (-1, 0, 0) (-1, 0, 0) (0, 0, 0) THREE.identity.

Definition rightCenter : CubieState :=
  mkCubie 22 (1, 0, 0) (1, 0, 0) (0, 0, 0) THREE.identity.

(** ** Orientations, exactly and up to rounding *)

(** The engine's own test that two orientations agree:
    [isOrientedForOLL], an angle below [ROT_EPSILON], along each of the
    three axes. *)
Definition orientedAlike (q q' : THREE.Quaternion) : bool :=
  forallb (fun p => isOrientedForOLL (atOrigin p q') (atOrigin p q))
          [(1, 0, 0); (0, 1, 0); (0, 0, 1)].


(** The four doubles of a quaternion, as the numbers they are. *)
Definition exactOf (q : Binary64.Quaternion) : THREE.Quaternion :=
  THREE.quat (Surd.ofQ (Binary64.toQ (Binary64.qx q)))
             (Surd.ofQ (Binary64.toQ (Binary64.qy q)))
             (Surd.ofQ (Binary64.toQ (Binary64.qz q)))
             (Surd.ofQ (Binary64.toQ (Binary64.qw q))).

(** The vector [v] turned by the rotation that a quaternion [q] other
    than zero stands for, which is that of the unit quaternion
    [q / |q|]: [v + (w t + q.xyz x t) / |q|^2] with [t = 2 (q.xyz x v)].
    No root is taken. *)
Definition turnedBy (q : THREE.Quaternion) (v : THREE.Vector3)
  : THREE.Vector3 :=
  let n := THREE.qlengthSq q in
  let w := THREE.applyQuaternion v q in
  THREE.vec3 (THREE.vx v + (THREE.vx w - THREE.vx v) / n)%K
             (THREE.vy v + (THREE.vy w - THREE.vy v) / n)%K
             (THREE.vz v + (THREE.vz w - THREE.vz v) / n)%K.

Definition rotationOf (q : THREE.Quaternion)
  : THREE.Vector3 * THREE.Vector3 * THREE.Vector3 :=
  (turnedBy q (THREE.ofArr (1, 0, 0)),
   turnedBy q (THREE.ofArr (0, 1, 0)),
   turnedBy q (THREE.ofArr (0, 0, 1))).

(** [q] stands for one of the 24 rotations of the cube, exactly. *)
Definition standsForCubeRotation (q : THREE.Quaternion) : bool :=
  let '(a, b, c) := rotationOf q in
  isUnitAxis a && isUnitAxis b
  && (THREE.dot a b =? kz 0)%K
  && (if Vector3_eq_dec c (THREE.crossVectors a b) then true else false).


(** The quaternion a piece of the solved cube has, on the doubles,
    after the commits of the moves of [play] that turn it. *)
Definition playQuat (play : list (Axis * Z)) : Binary64.Quaternion :=
  fold_left (fun q m => Binary64.commitQuat q (fst m) (snd m)) play
            Binary64.identity.



(** ** Moves and their composition *)

(** The move that turns the same layers the other way. *)
Definition inverse (m : Move) : Move :=
  mkMove (axis m) (slice m) (- direction m).

(** The same layers turned by twice the angle. *)
Definition doubled (m : Move) : Move :=
  mkMove (axis m) (slice m) (2 * direction m).

(** What a piece of a reachable snapshot satisfies. *)
Definition pieceOk (c : CubieState) : Prop :=
  In (position c) lattice /\ In (quaternion c) cubeGroup.

(** The [id] that [getInitialState] gives the piece of origin [p]. *)
Definition idOf (p : Vector3Arr) : Z :=
  let '(x, y, z) := p in 9 * (x + 1) + 3 * (y + 1) + (z + 1).



(** ** Notation *)

(** The camera that looks down the z axis. *)
Definition frontCamera : Camera :=
  mkCamera (THREE.ofArr (1, 0, 0)) (THREE.ofArr (0, 1, 0))
           (THREE.ofArr (0, 0, 1)).

(** The letters of the middle layers with the face each follows, and
    the letters of the wide moves. *)
Definition sliceLetters : list (ascii * ascii) :=
  [("M", "L"); ("E", "D"); ("S", "F")]%char.

Definition wideLetters : list (ascii * ascii) :=
  [("u", "U"); ("d", "D"); ("f", "F"); ("b", "B"); ("l", "L"); ("r", "R")]%char.

(** ** The selection of the engine *)

(** The fields of a candidate go with its phase. *)
Definition candOk (cand : Candidate) : Prop :=
  2 <= phaseValue (currentPhase cand)
  /\ (cand_missingCount cand <> None <-> currentPhase cand = F2L)
  /\ (cand_f2lTag cand <> None -> currentPhase cand = F2L)
  /\ (ollCaseResult cand <> None -> currentPhase cand = OLL)
  /\ (pllCaseResult cand <> None -> currentPhase cand = PLL).

(** The best candidate, when it is the evaluation of [base]. *)
Definition bestOf (base : CubieState) (cand : Candidate) : Best :=
  mkBest (currentPhase cand) (Some base) (cand_f2lTag cand)
         (cand_missingCount cand) (ollCaseResult cand) (pllCaseResult cand).

(** The answer of the engine, when it is the evaluation of [base]. *)
Definition resultOf (base : CubieState) (cand : Candidate) : AnalysisResult :=
  mkResult (currentPhase cand) (colorOf (Some base))
           (Phase_eqb (currentPhase cand) Solved)
           (cand_f2lTag cand) (cand_missingCount cand)
           (ollCaseResult cand) (pllCaseResult cand).

(** No center seen so far does better than the best one. *)
Definition dominates (cubies seen : list CubieState) (b : Best) : Prop :=
  forall c, In c seen -> isCrossSolved cubies c = true ->
    phaseValue (currentPhase (evalCandidate cubies c))
    <= phaseValue (bestPhase b)
    /\ (currentPhase (evalCandidate cubies c) = F2L -> bestPhase b = F2L ->
        orZero (bestMissingCount b)
        <= orZero (cand_missingCount (evalCandidate cubies c))).

(** The invariant of the loop over the centers. *)
Definition selected (cubies seen : list CubieState) (b : Best) : Prop :=
  (b = initialBest /\ forall c, In c seen -> isCrossSolved cubies c = false)
  \/ (exists base, In base seen /\ isCrossSolved cubies base = true
        /\ b = bestOf base (evalCandidate cubies base)
        /\ dominates cubies seen b).

(** ** The sets of pieces the engine works with *)

Definition centerP (p : Vector3Arr) : bool :=
  isCenter (atOrigin p THREE.identity).

Definition edgeP (p : Vector3Arr) : bool := isEdge (atOrigin p THREE.identity).

Definition cornerP (p : Vector3Arr) : bool :=
  isCorner (atOrigin p THREE.identity).

Definition edgeOrigins : list Vector3Arr := filter edgeP lattice.

(** The tests of the engine on the origin of a piece, for the center of
    origin [cp]. *)
Definition crossP (cp p : Vector3Arr) : bool :=
  (THREE.distanceTo (THREE.ofArr cp) (THREE.ofArr p) <? kq 11 10)%K.

Definition baseP (cp p : Vector3Arr) : bool :=
  let i := findIndex (fun v => negb (v =? 0)) cp in
  near (at3 p i) (at3 cp i).

Definition oppositeP (cp p : Vector3Arr) : bool :=
  (THREE.dot (THREE.ofArr cp) (THREE.ofArr p) <? kq (-9) 10)%K.

Definition negArr (p : Vector3Arr) : Vector3Arr :=
  let '(a, b, c) := p in (- a, - b, - c).

(** ** One turn away from the solved cube *)

Definition reportedSolved (cubies : list CubieState) : bool :=
  let r := analyzeCube cubies in Phase_eqb (phase r) Solved && isSolved r.

Definition samePositions (a b : list CubieState) : bool :=
  if list_eq_dec Vector3Arr_eq_dec (map position a) (map position b)
  then true else false.

(** ** The answers of the classifiers *)

(** [dict[key]] on the entries of the table. *)
Fixpoint lookup (dict : list (string * string)) (key : string)
  : option string :=
  match dict with
  | [] => None
  | (k, v) :: t => if String.eqb k key then Some v else lookup t key
  end.

Definition knownOLL (k : string) : bool :=
  String.eqb k "Unknown"
  || match lookup OLL_ALGORITHMS k with Some _ => true | None => false end.

Definition knownPLL (k : string) : bool :=
  String.eqb k "Unknown" || String.eqb k "Solved"
  || match lookup PLL_ALGORITHMS k with Some _ => true | None => false end.

(** The test of [oll_oriented], for the origin of the top center, the
    direction its top sticker points to and the orientation of the
    piece. *)
Definition ollOrientedAt (tcp : Vector3Arr) (up : THREE.Vector3)
    (q : THREE.Quaternion) : bool :=
  (THREE.dot (THREE.applyQuaternion (localUpOf tcp) q) up >? kq 9 10)%K.

(** ** Stickers *)

(** [COLORS[l]] for the letter of a face. *)
Definition colorOfLetter (l : string) : option string :=
  if String.eqb l "U" then Some COLORS.U
  else if String.eqb l "D" then Some COLORS.D
  else if String.eqb l "L" then Some COLORS.L
  else if String.eqb l "R" then Some COLORS.R
  else if String.eqb l "F" then Some COLORS.F
  else if String.eqb l "B" then Some COLORS.B
  else None.

(** The sticker the renderer draws for a normal of the classifier. *)
Definition stickerOf (n : THREE.Vector3 * string) : option CubeModel.Sticker :=
  match colorOfLetter (snd n) with
  | Some c =>
      Some (CubeModel.mkSticker c
              ((THREE.vx (fst n) * kq 49 100)%K,
               (THREE.vy (fst n) * kq 49 100)%K,
               (THREE.vz (fst n) * kq 49 100)%K))
  | None => None
  end.

(** ** The life of the hook *)

Module Events.

Import UseCubeAnimation.

(** What happens to the hook. *)
Inductive Event : Type :=
| ResetCube
| TriggerMove (move : Move) (speedMultiplier : K)
| Frame (delta : K).

Definition step (PI : K) (st : State) (ev : Event) : State :=
  match ev with
  | ResetCube => reset st
  | TriggerMove move speedMultiplier => triggerMove PI move speedMultiplier st
  | Frame delta => useFrame delta st
  end.

Definition run (PI : K) (evs : list Event) (st : State) : State :=
  fold_left (step PI) evs st.

Definition validEvent (ev : Event) : Prop :=
  match ev with
  | TriggerMove move _ => validMove move
  | _ => True
  end.

(** What holds of every state of the hook. *)
Definition consistent (st : State) : Prop :=
  reachable (cubies st)
  /\ (isAnimating st = true <-> activeMove (animRef st) <> None)
  /\ (forall m, activeMove (animRef st) = Some m -> validMove m).


End Events.

(** ** Swipes *)

Definition swipeOk (n b : THREE.Vector3) (s : Z) (m : Move) : bool :=
  (if in_dec Z.eq_dec (direction m) quarters then true else false)
  && (THREE.dot (axisVec (axis m)) n =? kz 0)%K
  && (THREE.dot (axisVec (axis m)) b =? kz 0)%K
  && (if Vector3_eq_dec
           (THREE.multiplyScalar (axisVec (axis m)) (kz (direction m)))
           (THREE.crossVectors n (THREE.multiplyScalar b (kz s)))
      then true else false).

(** * Properties *)

(** ** The number field computes on real numbers

    Each operation of [Surd] is the operation on the real numbers its
    arguments stand for: the embedding is exact where the doubles of
    the program round. *)

Section RealNumbers.

Local Open Scope R_scope.

Lemma Q2R_Qred (q : Q) : Q2R (Qred q) = Q2R q.
Proof. apply Qeq_eqR, Qred_correct. Qed.

Lemma sqrt2_sqrt2 : sqrt 2 * sqrt 2 = 2.
Proof. apply sqrt_sqrt. lra. Qed.

Lemma sqrt2_pos : 0 < sqrt 2.
Proof. apply sqrt_lt_R0. lra. Qed.

Lemma Q2R_two : Q2R (inject_Z 2) = 2.
Proof. unfold Q2R; simpl. lra. Qed.

Ltac toR_unfold :=
  unfold toR, Surd.add, Surd.sub, Surd.mul, Surd.opp;
  cbn [Surd.rat Surd.irr];
  rewrite ?Q2R_Qred, ?Q2R_plus, ?Q2R_minus, ?Q2R_mult, ?Q2R_opp,
          ?Q2R_plus, ?Q2R_mult, ?Q2R_two.

Lemma toR_add (x y : K) : toR (x + y)%K = toR x + toR y.
Proof. toR_unfold. ring. Qed.

Lemma toR_sub (x y : K) : toR (x - y)%K = toR x - toR y.
Proof. toR_unfold. ring. Qed.

Lemma toR_opp (x : K) : toR (- x)%K = - toR x.
Proof. toR_unfold. ring. Qed.

Lemma toR_mul (x y : K) : toR (x * y)%K = toR x * toR y.
Proof.
  toR_unfold.
  replace ((Q2R (Surd.rat x) + Q2R (Surd.irr x) * sqrt 2)
           * (Q2R (Surd.rat y) + Q2R (Surd.irr y) * sqrt 2))
    with (Q2R (Surd.rat x) * Q2R (Surd.rat y)
          + Q2R (Surd.irr x) * Q2R (Surd.irr y) * (sqrt 2 * sqrt 2)
          + (Q2R (Surd.rat x) * Q2R (Surd.irr y)
             + Q2R (Surd.irr x) * Q2R (Surd.rat y)) * sqrt 2) by ring.
  rewrite sqrt2_sqrt2. ring.
Qed.

Lemma toR_kz (z : Z) : toR (kz z) = IZR z.
Proof.
  unfold toR, kz, Surd.ofZ; cbn [Surd.rat Surd.irr].
  unfold Q2R; simpl. lra.
Qed.

Lemma sign_by_product (p q : R) :
  0 < q ->
  (p * q < 0 -> p < 0) /\ (p * q = 0 -> p = 0) /\ (0 < p * q -> 0 < p).
Proof. intros Hq. repeat split; intros H; nra. Qed.

(** The sign test decides the sign of the real number. *)
Lemma sgn_spec (x : K) :
  match Surd.sgn x with
  | Lt => toR x < 0
  | Eq => toR x = 0
  | Gt => 0 < toR x
  end.
Proof.
  unfold Surd.sgn, toR. destruct x as [a b]; cbn [Surd.rat Surd.irr].
  pose proof sqrt2_pos as Hs. pose proof sqrt2_sqrt2 as Hss.
  set (s := sqrt 2) in *.
  assert (Ha : Q2R 0 = 0) by (unfold Q2R; simpl; lra).
  destruct (Qcompare_spec a 0) as [Ea | La | Ga];
    destruct (Qcompare_spec b 0) as [Eb | Lb | Gb];
    try apply Qeq_eqR in Ea; try apply Qeq_eqR in Eb;
    try apply Qlt_Rlt in La; try apply Qlt_Rlt in Lb;
    try apply Qlt_Rlt in Ga; try apply Qlt_Rlt in Gb;
    rewrite ?Ha in *; try nra.
  - (* a < 0 < b *)
    assert (Hq : 0 < Q2R b * s - Q2R a)
      by (assert (0 < Q2R b * s) by (apply Rmult_lt_0_compat; lra); lra).
    assert (Hp : (Q2R a + Q2R b * s) * (Q2R b * s - Q2R a)
                 = 2 * (Q2R b * Q2R b) - Q2R a * Q2R a).
    { replace ((Q2R a + Q2R b * s) * (Q2R b * s - Q2R a))
        with (Q2R b * Q2R b * (s * s) - Q2R a * Q2R a) by ring.
      rewrite Hss. ring. }
    destruct (sign_by_product (Q2R a + Q2R b * s) _ Hq) as [H1 [H2 H3]].
    destruct (Qcompare_spec (inject_Z 2 * (b * b)) (a * a)) as [E | L | G];
      try apply Qeq_eqR in E; try apply Qlt_Rlt in L; try apply Qlt_Rlt in G;
      rewrite ?Q2R_mult, ?Q2R_two in *;
      [apply H2 | apply H1 | apply H3]; lra.
  - (* b < 0 < a *)
    assert (Hq : 0 < Q2R a - Q2R b * s)
      by (assert (0 < (- Q2R b) * s) by (apply Rmult_lt_0_compat; lra); lra).
    assert (Hp : (Q2R a + Q2R b * s) * (Q2R a - Q2R b * s)
                 = Q2R a * Q2R a - 2 * (Q2R b * Q2R b)).
    { replace ((Q2R a + Q2R b * s) * (Q2R a - Q2R b * s))
        with (Q2R a * Q2R a - Q2R b * Q2R b * (s * s)) by ring.
      rewrite Hss. ring. }
    destruct (sign_by_product (Q2R a + Q2R b * s) _ Hq) as [H1 [H2 H3]].
    destruct (Qcompare_spec (a * a) (inject_Z 2 * (b * b))) as [E | L | G];
      try apply Qeq_eqR in E; try apply Qlt_Rlt in L; try apply Qlt_Rlt in G;
      rewrite ?Q2R_mult, ?Q2R_two in *;
      [apply H2 | apply H1 | apply H3]; lra.
Qed.

Lemma compare_spec (x y : K) :
  match Surd.compare x y with
  | Lt => toR x < toR y
  | Eq => toR x = toR y
  | Gt => toR y < toR x
  end.
Proof.
  unfold Surd.compare. pose proof (sgn_spec (x - y)%K) as H.
  rewrite toR_sub in H. destruct (Surd.sgn (x - y)%K); lra.
Qed.

Lemma ltb_spec (x y : K) : (x <? y)%K = true <-> toR x < toR y.
Proof.
  unfold Surd.ltb. pose proof (compare_spec x y) as H.
  destruct (Surd.compare x y); split; intros; try discriminate; try lra; auto.
Qed.

Lemma eqb_spec (x y : K) : (x =? y)%K = true <-> toR x = toR y.
Proof.
  unfold Surd.eqb. pose proof (compare_spec x y) as H.
  destruct (Surd.compare x y); split; intros; try discriminate; try lra; auto.
Qed.

Lemma leb_spec (x y : K) : Surd.leb x y = true <-> toR x <= toR y.
Proof.
  unfold Surd.leb. pose proof (compare_spec x y) as H.
  destruct (Surd.compare x y); split; intros; try discriminate; try lra; auto.
Qed.

Lemma abs_spec (x : K) : toR (Surd.abs x) = Rabs (toR x).
Proof.
  unfold Surd.abs. pose proof (sgn_spec x) as H.
  destruct (Surd.sgn x); rewrite ?toR_opp.
  - rewrite H, Rabs_R0. reflexivity.
  - rewrite Rabs_left; lra.
  - rewrite Rabs_right; lra.
Qed.

(** When the root is found in the field, it is the real root. *)
Lemma sqrt_exact_spec (x r : K) :
  Surd.sqrt_exact x = Some r -> toR r = sqrt (toR x).
Proof.
  unfold Surd.sqrt_exact. intros H. apply find_some in H as [_ H].
  apply andb_prop in H as [He Hl].
  apply eqb_spec in He. apply leb_spec in Hl.
  rewrite toR_mul in He. rewrite <- He.
  change (toR Surd.zero) with (toR (kz 0)) in Hl. rewrite toR_kz in Hl.
  symmetry. apply sqrt_square. exact Hl.
Qed.

(** The square root of two is not rational. *)
Lemma no_sqrt2_below (n : nat) (t r : Z) :
  (Z.abs_nat r < n)%nat -> (t * t = 2 * (r * r))%Z -> r = 0%Z.
Proof.
  revert t r. induction n as [| n IH]; intros t r Hn H; [lia |].
  assert (Et : Z.even t = true).
  { assert (E : Z.even (t * t) = true)
      by (rewrite H, Z.even_mul; reflexivity).
    rewrite Z.even_mul in E. now destruct (Z.even t). }
  apply Z.even_spec in Et as [u ->].
  assert (Hr : (r * r = 2 * (u * u))%Z) by lia.
  assert (Er : Z.even r = true).
  { assert (E : Z.even (r * r) = true)
      by (rewrite Hr, Z.even_mul; reflexivity).
    rewrite Z.even_mul in E. now destruct (Z.even r). }
  apply Z.even_spec in Er as [w ->].
  destruct (Z.eq_dec w 0) as [-> | Hw0]; [reflexivity |].
  assert (Hw : w = 0%Z) by (apply (IH u w); lia).
  contradiction.
Qed.

Lemma no_sqrt2 (t r : Z) : (t * t = 2 * (r * r))%Z -> r = 0%Z.
Proof. apply (no_sqrt2_below (S (Z.abs_nat r))). lia. Qed.

(** [Math.floor] is the integer part of the real number. *)
Lemma floor_spec (x : K) :
  IZR (Surd.floor x) <= toR x < IZR (Surd.floor x) + 1.
Proof.
  unfold Surd.floor, toR. destruct x as [[p dp] [r dr]].
  cbn [Surd.rat Surd.irr Qnum Qden].
  pose proof sqrt2_pos as Hs. pose proof sqrt2_sqrt2 as Hss.
  set (s := sqrt 2) in *.
  set (R0 := (r * Z.pos dp)%Z). set (P := (p * Z.pos dr)%Z).
  set (n := Z.pos (dp * dr)).
  set (t := Z.sqrt (2 * R0 * R0)).
  set (fr := if (0 <=? R0)%Z then t else (- t - 1)%Z).
  assert (Hn : (0 < n)%Z) by (unfold n; lia).
  assert (Ht : (0 <= t /\ t * t <= 2 * R0 * R0 < (t + 1) * (t + 1))%Z).
  { assert (H0 : (0 <= 2 * R0 * R0)%Z) by nia.
    pose proof (Z.sqrt_spec _ H0) as H. pose proof (Z.sqrt_nonneg (2 * R0 * R0)).
    unfold Z.succ in H. fold t in H. lia. }
  destruct Ht as [Ht0 [Ht1 Ht2]].
  (* the integer part of R0 * sqrt 2 *)
  assert (Hfr : IZR fr <= IZR R0 * s < IZR fr + 1).
  { unfold fr. destruct (Z.leb_spec 0 R0) as [Hpos | Hneg].
    - apply IZR_le in Ht0, Ht1, Hpos. apply IZR_lt in Ht2.
      rewrite ?mult_IZR, ?plus_IZR in *.
      assert (0 <= IZR R0 * s) by (apply Rmult_le_pos; lra).
      split; nra.
    - assert (Hlt : (t * t < 2 * R0 * R0)%Z).
      { assert (Hne : (t * t <> 2 * R0 * R0)%Z); [| lia].
        intros E. assert (R0 = 0%Z) by (apply (no_sqrt2 t); lia). lia. }
      apply IZR_le in Ht0. apply IZR_lt in Ht2, Hneg, Hlt.
      rewrite ?mult_IZR, ?plus_IZR in *.
      rewrite minus_IZR, opp_IZR.
      assert (0 < - IZR R0 * s) by (apply Rmult_lt_0_compat; lra).
      split; nra. }
  (* the division by the common denominator *)
  assert (Hx : Q2R (p # dp) + Q2R (r # dr) * s
               = (IZR P + IZR R0 * s) / IZR n).
  { unfold Q2R, P, R0, n; cbn [Qnum Qden].
    rewrite Pos2Z.inj_mul, !mult_IZR. field.
    split; apply not_0_IZR; lia. }
  rewrite Hx.
  pose proof (Z.div_mod (P + fr) n ltac:(lia)) as Hdm.
  pose proof (Z.mod_pos_bound (P + fr) n Hn) as Hm.
  set (q := ((P + fr) / n)%Z) in *. set (m := ((P + fr) mod n)%Z) in *.
  assert (Hn' : 0 < IZR n) by (apply IZR_lt; exact Hn).
  assert (E : IZR P + IZR fr = IZR n * IZR q + IZR m)
    by (rewrite <- plus_IZR, <- mult_IZR, <- plus_IZR; f_equal; exact Hdm).
  destruct Hm as [Hm0 Hm1]. apply IZR_le in Hm0.
  assert (Hm1' : IZR m <= IZR n - 1)
    by (rewrite <- minus_IZR; apply IZR_le; lia).
  split.
  - apply Rmult_le_reg_r with (IZR n); [exact Hn' |].
    unfold Rdiv. rewrite Rmult_assoc, Rinv_l by lra. nra.
  - apply Rmult_lt_reg_r with (IZR n); [exact Hn' |].
    unfold Rdiv. rewrite Rmult_assoc, Rinv_l by lra. nra.
Qed.

(** [Math.round]: the integer within a half below, or less than a half
    above. *)
Lemma round_spec (x : K) :
  IZR (Surd.round x) - / 2 <= toR x < IZR (Surd.round x) + / 2.
Proof.
  unfold Surd.round. pose proof (floor_spec (x + Surd.ofQ (1 # 2))%K) as H.
  rewrite toR_add in H.
  replace (toR (Surd.ofQ (1 # 2))) with (/ 2) in H; [lra |].
  unfold toR, Surd.ofQ; cbn [Surd.rat Surd.irr].
  rewrite Q2R_Qred. unfold Q2R; simpl. lra.
Qed.

(** A member of the field that is not zero has a norm that is not
    zero. *)
Lemma norm_nonzero (x : K) :
  toR x <> 0 ->
  Q2R (Surd.rat x * Surd.rat x - inject_Z 2 * (Surd.irr x * Surd.irr x)) <> 0.
Proof.
  destruct x as [[p dp] [r dr]]. unfold toR; cbn [Surd.rat Surd.irr].
  intros Hx Hn. apply Hx. clear Hx.
  rewrite Q2R_minus, !Q2R_mult, Q2R_two in Hn.
  unfold Q2R in *; cbn [Qnum Qden] in *.
  assert (Hdp : IZR (Z.pos dp) <> 0) by (apply not_0_IZR; lia).
  assert (Hdr : IZR (Z.pos dr) <> 0) by (apply not_0_IZR; lia).
  assert (E : ((p * Z.pos dr) * (p * Z.pos dr)
               = 2 * ((r * Z.pos dp) * (r * Z.pos dp)))%Z).
  { apply eq_IZR. rewrite !mult_IZR.
    assert (H : IZR p * / IZR (Z.pos dp) * (IZR p * / IZR (Z.pos dp))
                = 2 * (IZR r * / IZR (Z.pos dr) * (IZR r * / IZR (Z.pos dr))))
      by lra.
    apply (f_equal (fun v => v * (IZR (Z.pos dp) * IZR (Z.pos dp))
                             * (IZR (Z.pos dr) * IZR (Z.pos dr)))) in H.
    field_simplify in H; [| assumption | assumption]. lra. }
  pose proof (no_sqrt2 _ _ E) as Hr.
  assert (r = 0%Z) by nia. subst r.
  assert (p = 0%Z) by nia. subst p.
  lra.
Qed.

Lemma toR_inv (x : K) : toR x <> 0 -> toR (Surd.inv x) = / toR x.
Proof.
  intros Hx. pose proof (norm_nonzero x Hx) as Hn.
  assert (Hq : ~ (Surd.rat x * Surd.rat x
                  - inject_Z 2 * (Surd.irr x * Surd.irr x) == 0)%Q).
  { intros E. apply Hn. rewrite (Qeq_eqR _ _ E). unfold Q2R; simpl. lra. }
  unfold Surd.inv, toR in *. cbn [Surd.rat Surd.irr].
  rewrite !Q2R_Qred, !Q2R_div, Q2R_opp by exact Hq.
  rewrite Q2R_minus, !Q2R_mult, Q2R_two in *.
  pose proof sqrt2_sqrt2 as Hss. set (s := sqrt 2) in *.
  set (a := Q2R (Surd.rat x)) in *. set (b := Q2R (Surd.irr x)) in *.
  assert (E : (a + b * s) * (a - b * s) = a * a - 2 * (b * b)).
  { replace ((a + b * s) * (a - b * s)) with (a * a - b * b * (s * s)) by ring.
    rewrite Hss. ring. }
  apply Rmult_eq_reg_l with (a + b * s); [| exact Hx].
  rewrite Rinv_r by exact Hx.
  replace ((a + b * s) * (a / (a * a - 2 * (b * b))
                          + - b / (a * a - 2 * (b * b)) * s))
    with ((a + b * s) * (a - b * s) / (a * a - 2 * (b * b)))
    by (field; exact Hn).
  rewrite E. field. exact Hn.
Qed.

Lemma toR_div (x y : K) : toR y <> 0 -> toR (x / y)%K = toR x / toR y.
Proof.
  intros Hy. unfold Surd.div. rewrite toR_mul, toR_inv by exact Hy.
  reflexivity.
Qed.

(** The half-angle table is the cosine and the sine of half the angle
    of the move, [direction * PI / 2]. *)
Lemma half_angle_table (d : Z) :
  In d [-2; -1; 1; 2]%Z ->
  toR (Surd.cos_quarter d) = cos (IZR d * (PI / 2) / 2)
  /\ toR (Surd.sin_quarter d) = sin (IZR d * (PI / 2) / 2).
Proof.
  pose proof sqrt2_sqrt2 as Hss. pose proof sqrt2_pos as Hs.
  assert (Hc : cos (PI / 4) = sqrt 2 / 2).
  { rewrite cos_PI4. apply Rmult_eq_reg_r with (sqrt 2); [| lra].
    field_simplify; lra. }
  assert (Hsn : sin (PI / 4) = sqrt 2 / 2).
  { rewrite sin_PI4. apply Rmult_eq_reg_r with (sqrt 2); [| lra].
    field_simplify; lra. }
  assert (Hr : toR Surd.rt2_2 = sqrt 2 / 2).
  { unfold toR, Surd.rt2_2; cbn [Surd.rat Surd.irr]. unfold Q2R; simpl. lra. }
  assert (Ho : toR Surd.one = 1).
  { unfold toR, Surd.one, Surd.ofZ; cbn [Surd.rat Surd.irr].
    unfold Q2R; simpl. lra. }
  assert (Hz : toR Surd.zero = 0).
  { unfold toR, Surd.zero, Surd.ofZ; cbn [Surd.rat Surd.irr].
    unfold Q2R; simpl. lra. }
  intros [<- | [<- | [<- | [<- | []]]]].
  - change (Surd.cos_quarter (-2)) with Surd.zero.
    change (Surd.sin_quarter (-2)) with (Surd.opp Surd.one).
    rewrite toR_opp, Ho, Hz.
    replace (-2 * (PI / 2) / 2) with (- (PI / 2)) by field.
    rewrite cos_neg, sin_neg, cos_PI2, sin_PI2. split; lra.
  - change (Surd.cos_quarter (-1)) with Surd.rt2_2.
    change (Surd.sin_quarter (-1)) with (Surd.opp Surd.rt2_2).
    rewrite toR_opp, Hr.
    replace (-1 * (PI / 2) / 2) with (- (PI / 4)) by field.
    rewrite cos_neg, sin_neg, Hc, Hsn. split; lra.
  - change (Surd.cos_quarter 1) with Surd.rt2_2.
    change (Surd.sin_quarter 1) with Surd.rt2_2.
    rewrite Hr.
    replace (1 * (PI / 2) / 2) with (PI / 4) by field.
    rewrite Hc, Hsn. split; lra.
  - change (Surd.cos_quarter 2) with Surd.zero.
    change (Surd.sin_quarter 2) with Surd.one.
    rewrite Ho, Hz.
    replace (2 * (PI / 2) / 2) with (PI / 2) by field.
    rewrite cos_PI2, sin_PI2. split; lra.
Qed.

End RealNumbers.

(** ** Integers inside the number field *)

Lemma Qred_inject_Z (n : Z) : Qred (inject_Z n) = inject_Z n.
Proof.
  unfold Qred, inject_Z.
  generalize (Z.ggcd_gcd n 1) (Z.ggcd_correct_divisors n 1).
  destruct (Z.ggcd n 1) as [g [aa bb]]; simpl.
  rewrite Z.gcd_1_r. intros -> [Ha Hb].
  rewrite Z.mul_1_l in Ha, Hb. subst aa.
  destruct bb; try discriminate. injection Hb as <-. reflexivity.
Qed.

Lemma Qred_to_Z (q : Q) (n : Z) : q == inject_Z n -> Qred q = inject_Z n.
Proof.
  intros H. rewrite <- (Qred_inject_Z n). now apply Qred_complete.
Qed.

Lemma kz_opp (a : Z) : (- kz a)%K = kz (- a).
Proof.
  unfold kz, Surd.ofZ, Surd.opp; cbn [Surd.rat Surd.irr].
  f_equal; apply Qred_to_Z; unfold Qeq; simpl; lia.
Qed.

Lemma kz_mul (a b : Z) : (kz a * kz b)%K = kz (a * b).
Proof.
  unfold kz, Surd.ofZ, Surd.mul; cbn [Surd.rat Surd.irr].
  f_equal; apply Qred_to_Z; unfold Qeq; simpl; lia.
Qed.

Lemma kz_sub (a b : Z) : (kz a - kz b)%K = kz (a - b).
Proof.
  unfold kz, Surd.ofZ, Surd.sub; cbn [Surd.rat Surd.irr].
  f_equal; apply Qred_to_Z; unfold Qeq; simpl; lia.
Qed.

Lemma round_kz (a : Z) : Surd.round (kz a) = a.
Proof.
  unfold Surd.round, Surd.floor, Surd.add, kz, Surd.ofZ, Surd.ofQ.
  cbn [Surd.rat Surd.irr].
  change (Qred (0 + 0)) with 0%Q.
  change (Qred (1 # 2)) with (1 # 2)%Q.
  set (q := Qred (inject_Z a + (1 # 2))).
  cbn [Qnum Qden]. rewrite !Z.mul_0_l. change (Z.sqrt 0) with 0%Z.
  cbn [Z.leb Z.compare]. rewrite Z.add_0_r, Z.mul_1_r, Pos.mul_1_r.
  replace (Qnum q / Zpos (Qden q))%Z with (Qfloor q) by (destruct q; reflexivity).
  unfold q. rewrite (Qfloor_comp _ _ (Qred_correct _)).
  unfold Qfloor; cbn [Qplus inject_Z Qnum Qden].
  change (Z.pos (1 * 2)) with 2. rewrite Z.mul_1_l.
  replace (a * 2 + 1) with (1 + a * 2) by lia.
  rewrite Z.div_add by lia. reflexivity.
Qed.

(** ** Rotation of lattice vectors ([rotateVector]) *)

Ltac round_integers :=
  unfold map3, roundPos;
  rewrite ?kz_opp, ?kz_mul, ?kz_opp, ?round_kz.

Lemma rotateVector_quarter (v : Vector3Arr) (ax : Axis) (dir : Z) :
  Z.abs dir <> 2 -> rotateVector v ax dir = spec_quarter v ax dir.
Proof.
  intros Hd. destruct v as [[x y] z]. unfold rotateVector, spec_quarter.
  destruct (Z.eqb_spec (Z.abs dir) 2) as [E | _]; [contradiction |].
  destruct ax; round_integers;
    repeat match goal with |- (_, _) = (_, _) => f_equal end; lia.
Qed.

Lemma rotateVector_half (v : Vector3Arr) (ax : Axis) (dir : Z) :
  Z.abs dir = 2 -> rotateVector v ax dir = spec_half v ax.
Proof.
  intros Hd. destruct v as [[x y] z]. unfold rotateVector, spec_half.
  rewrite Hd. cbn [Z.eqb Pos.eqb].
  destruct ax; round_integers; reflexivity.
Qed.

(** C3. [rotateVector] is the reference rotation of the specification
    on every integer vector, the lattice positions among them: a
    quarter turn ([direction] 1 or -1) is the right-hand-rule rotation
    about the axis (about x, [(x, y, z)] goes to
    [(x, - dir * z, dir * y)]), and a half turn ([direction] 2 or -2)
    negates the two coordinates orthogonal to the axis and keeps the
    third; the entries of the result are the rounded integers. *)
Theorem rotateVector_reference (v : Vector3Arr) (ax : Axis) :
  rotateVector v ax 1 = spec_quarter v ax 1
  /\ rotateVector v ax (-1) = spec_quarter v ax (-1)
  /\ rotateVector v ax 2 = spec_half v ax
  /\ rotateVector v ax (-2) = spec_half v ax.
Proof.
  repeat split;
    solve [ apply rotateVector_quarter; simpl; lia
          | apply rotateVector_half; reflexivity ].
Qed.

Lemma forallb_In {A : Type} (f : A -> bool) (l : list A) (x : A) :
  forallb f l = true -> In x l -> f x = true.
Proof. intros H Hx. rewrite forallb_forall in H. auto. Qed.

Lemma dec_true {P : Prop} (d : {P} + {~ P}) :
  (if d then true else false) = true -> P.
Proof. destruct d; [trivial | discriminate]. Qed.

Lemma in_axes (ax : Axis) : In ax axes.
Proof. destruct ax; simpl; auto. Qed.

(** On the lattice the move commit and [rotateVector] turn a position
    the same way. *)
Lemma commitPos_rotateVector (p : Vector3Arr) (ax : Axis) (dir : Z) :
  In p lattice -> In dir turns -> commitPos p ax dir = rotateVector p ax dir.
Proof.
  intros Hp Hd.
  assert (H : forallb (fun p => forallb (fun ax => forallb (fun d =>
                if Vector3Arr_eq_dec (commitPos p ax d) (rotateVector p ax d)
                then true else false) turns) axes) lattice = true)
    by (vm_compute; reflexivity).
  apply (forallb_In _ _ p) in H; [| assumption].
  apply (forallb_In _ _ ax) in H; [| apply in_axes].
  apply (forallb_In _ _ dir) in H; [| assumption].
  exact (dec_true _ H).
Qed.

(** ** The move commit leaves everything else alone *)

Lemma commitCubie_unaffected (move : Move) (c : CubieState) :
  affected move c = false -> commitCubie move c = c.
Proof.
  unfold affected, commitCubie. intros H. rewrite H. reflexivity.
Qed.

Lemma commitCubie_affected (move : Move) (c : CubieState) :
  affected move c = true ->
  commitCubie move c =
    mkCubie (id c) (initialPosition c)
            (commitPos (position c) (axis move) (direction move))
            (rotation c)
            (commitQuat (quaternion c) (axis move) (direction move)).
Proof.
  unfold affected, commitCubie, commitPos, commitQuat, rotQuat.
  intros H. rewrite H.
  cbn [negb]. cbv zeta. reflexivity.
Qed.

Lemma commitCubie_frame (move : Move) (c : CubieState) :
  commitCubie move c =
    if affected move c
    then mkCubie (id c) (initialPosition c) (position (commitCubie move c))
                 (rotation c) (quaternion (commitCubie move c))
    else c.
Proof.
  destruct (affected move c) eqn:E.
  - rewrite (commitCubie_affected _ _ E). cbn [position quaternion].
    reflexivity.
  - apply commitCubie_unaffected, E.
Qed.

Lemma applyMove_empty_slice (cubies : list CubieState) (ax : Axis) (d : Z) :
  applyMove cubies (mkMove ax [] d) = cubies.
Proof.
  unfold applyMove. induction cubies as [| c l IH]; simpl.
  - reflexivity.
  - rewrite IH. f_equal. apply commitCubie_unaffected.
    unfold affected; simpl. now destruct (at3 (position c) (axisIndex ax)).
Qed.

(** C10. The move commit is a frame-preserving update: piece by
    piece, a piece outside the turning layers comes back as it was,
    and a piece inside them comes back with its [id],
    [initialPosition] (and [rotation]) as they were, only [position]
    and [quaternion] being replaced; a move whose slice set is empty
    gives the snapshot back. *)
Theorem applyMove_frame (cubies : list CubieState) (move : Move) :
  Forall2
    (fun c c' =>
       c' = if affected move c
            then mkCubie (id c) (initialPosition c) (position c')
                         (rotation c) (quaternion c')
            else c)
    cubies (applyMove cubies move)
  /\ applyMove cubies (mkMove (axis move) [] (direction move)) = cubies.
Proof.
  split; [| apply applyMove_empty_slice].
  unfold applyMove. induction cubies as [| c l IH]; simpl; constructor.
  - apply commitCubie_frame.
  - exact IH.
Qed.

(** ** The F2L branch of the engine *)

(** C5. For a candidate center whose cross is solved and which has
    fewer than four solved pairs, the loop body compares the best
    candidate so far with a candidate of phase F2L, whose tag and
    missing count follow the table: two pairs or more, no tag and
    [4 - solvedPairs]; otherwise, four solved corners, ['Second Layer']
    and [4 - solvedEdges]; otherwise ['First Layer'] and
    [4 - solvedCorners]. *)
Theorem f2l_branch_table (cubies : list CubieState) (center : CubieState)
    (best : Best) :
  isCrossSolved cubies center = true ->
  solvedPairs cubies center < 4 ->
  let table :=
    if 2 <=? solvedPairs cubies center then
      mkCandidate F2L None (Some (4 - solvedPairs cubies center)) None None
    else if solvedCorners cubies center =? 4 then
      mkCandidate F2L (Some SecondLayer)
                  (Some (4 - solvedEdges cubies center)) None None
    else
      mkCandidate F2L (Some FirstLayer)
                  (Some (4 - solvedCorners cubies center)) None None in
  evalCandidate cubies center = table
  /\ loopBody cubies center best = consider center best table.
Proof.
  intros Hcross Hlt table.
  assert (E : evalCandidate cubies center = table).
  { unfold evalCandidate, table.
    destruct (Z.eqb_spec (solvedPairs cubies center) 4) as [E4 | _]; [lia |].
    rewrite Z.geb_leb. reflexivity. }
  split; [exact E |].
  unfold loopBody. rewrite Hcross. cbn [negb]. now rewrite E.
Qed.

(** ** The fallback of the engine *)

Lemma Phase_eqb_eq (p q : Phase) : Phase_eqb p q = true <-> p = q.
Proof.
  unfold Phase_eqb. rewrite Z.eqb_eq.
  split; [| now intros ->]. destruct p, q; simpl; congruence.
Qed.

Lemma finalBest_no_cross (cubies : list CubieState) :
  forallb (fun center => negb (isCrossSolved cubies center)) (centers cubies)
    = true ->
  finalBest cubies = initialBest.
Proof.
  unfold finalBest. generalize initialBest. 
  induction (centers cubies) as [| c l IH]; intros best H; simpl in *.
  - reflexivity.
  - apply andb_prop in H as [Hc Hl].
    unfold loopBody at 2. rewrite Hc. now apply IH.
Qed.

(** C6. On a snapshot where no candidate center has its cross edges
    all correctly placed, [analyzeCube] answers phase ['Cross'] with a
    null base color and [isSolved] false (and no other field); and on
    no snapshot at all does it answer phase ['Scrambled']. *)
Theorem no_cross_fallback (cubies : list CubieState) :
  (forallb (fun center => negb (isCrossSolved cubies center)) (centers cubies)
     = true ->
   analyzeCube cubies = mkResult Cross None false None None None None)
  /\ phase (analyzeCube cubies) <> Scrambled.
Proof.
  split.
  - intros H. unfold analyzeCube. rewrite (finalBest_no_cross _ H).
    reflexivity.
  - unfold analyzeCube.
    destruct (Phase_eqb (bestPhase (finalBest cubies)) Scrambled) eqn:E;
      cbn [phase].
    + discriminate.
    + intros Hs. rewrite Hs in E. discriminate E.
Qed.

(** ** Sample play *)

Example bottomCenter_afterRUR' :
  centerAt (0, -1, 0) afterRUR' = Some bottomCenter.
Proof. vm_compute. reflexivity. Qed.

Lemma f2l_branch_table_witness :
  isCrossSolved afterRUR' bottomCenter = true
  /\ solvedPairs afterRUR' bottomCenter < 4
  /\ evalCandidate afterRUR' bottomCenter
     = mkCandidate F2L None (Some 1) None None.
Proof.
  assert (Hc : isCrossSolved afterRUR' bottomCenter = true)
    by (vm_compute; reflexivity).
  assert (Hp : solvedPairs afterRUR' bottomCenter < 4)
    by (vm_compute; reflexivity).
  split; [exact Hc | split; [exact Hp |]].
  generalize (proj1 (f2l_branch_table afterRUR' bottomCenter
                      initialBest Hc Hp)).
  vm_compute. exact (fun H => H).
Defined.

Lemma no_cross_fallback_witness :
  forallb (fun center => negb (isCrossSolved fiveTurns center))
          (centers fiveTurns) = true
  /\ analyzeCube fiveTurns = mkResult Cross None false None None None None.
Proof.
  assert (H : forallb (fun center => negb (isCrossSolved fiveTurns center))
                      (centers fiveTurns) = true)
    by (vm_compute; reflexivity).
  split; [exact H | exact (proj1 (no_cross_fallback fiveTurns) H)].
Defined.

(** ** The solved cube *)

(** C1. On the snapshot of [getInitialState] (27 pieces, each at its
    origin with the identity orientation) [analyzeCube] answers phase
    ['Solved'] with [isSolved] true; every one of the six candidate
    centers has its cross solved and is evaluated to ['Solved'], its PLL
    classification being the sentinel. *)
Theorem solved_state_recognized :
  List.length getInitialState = 27%nat
  /\ Forall (fun c => position c = initialPosition c
                      /\ quaternion c = THREE.identity) getInitialState
  /\ map initialPosition getInitialState = lattice
  /\ analyzeCube getInitialState
     = mkResult Solved (Some COLORS.L) true None None None None
  /\ List.length (centers getInitialState) = 6%nat
  /\ forallb
       (fun center =>
          isCrossSolved getInitialState center
          && (solvedPairs getInitialState center =? 4)
          && match topCenter getInitialState center with
             | Some tc =>
                 same (identifyPLL (topPieces getInitialState tc) tc)
                      (Some "Solved")
             | None => false
             end
          && Phase_eqb (currentPhase (evalCandidate getInitialState center))
                       Solved)
       (centers getInitialState) = true.
Proof.
  split; [reflexivity |].
  split; [repeat constructor |].
  split; [reflexivity |].
  split; [vm_compute; reflexivity |].
  split; vm_compute; reflexivity.
Qed.

(** *** Orientations: the group of the cube *)

Lemma cubeGroup_closed :
  forallb (fun q => if in_dec Quaternion_eq_dec q cubeGroup then true else false)
          (grow cubeGroup) = true.
Proof. vm_compute. reflexivity. Qed.

Lemma cubeGroup_size :
  List.length cubeGroup = 48%nat
  /\ List.length (nodup (fun a b : THREE.Vector3 * THREE.Vector3 * THREE.Vector3 =>
                           ltac:(repeat decide equality; apply K_eq_dec))
                        (map matrixOf cubeGroup)) = 24%nat.
Proof. split; vm_compute; reflexivity. Qed.

Lemma inGroup_In (q : THREE.Quaternion) : inGroup q = true <-> In q cubeGroup.
Proof.
  unfold inGroup. destruct (in_dec Quaternion_eq_dec q cubeGroup);
    split; trivial; discriminate || contradiction.
Qed.

Lemma commitQuat_inGroup (q : THREE.Quaternion) (ax : Axis) (d : Z) :
  In q cubeGroup -> In d turns -> In (commitQuat q ax d) cubeGroup.
Proof.
  intros Hq Hd.
  assert (H : forallb (fun q => forallb (fun ax => forallb (fun d =>
                inGroup (commitQuat q ax d)) turns) axes) cubeGroup = true)
    by (vm_compute; reflexivity).
  apply (forallb_In _ _ q) in H; [| assumption].
  apply (forallb_In _ _ ax) in H; [| apply in_axes].
  apply (forallb_In _ _ d) in H; [| assumption].
  apply inGroup_In. exact H.
Qed.


(** *** Positions: permutations of the lattice *)

Lemma remove1_perm (x : Vector3Arr) (l l' : list Vector3Arr) :
  remove1 x l = Some l' -> Permutation l (x :: l').
Proof.
  revert l'. induction l as [| y t IH]; intros l' H; simpl in H.
  - discriminate.
  - destruct (Vector3Arr_eq_dec x y) as [<- | _].
    + injection H as <-. apply Permutation_refl.
    + destruct (remove1 x t) as [t' |]; [| discriminate].
      injection H as <-. rewrite (IH t' eq_refl). apply perm_swap.
Qed.

Lemma permb_sound (l1 l2 : list Vector3Arr) :
  permb l1 l2 = true -> Permutation l1 l2.
Proof.
  revert l2. induction l1 as [| x t IH]; intros l2 H; simpl in H.
  - destruct l2; [constructor | discriminate].
  - destruct (remove1 x l2) as [l2' |] eqn:E; [| discriminate].
    apply remove1_perm in E. rewrite E. constructor. now apply IH.
Qed.

Lemma position_commitCubie (m : Move) (c : CubieState) :
  position (commitCubie m c)
  = movePos (inSlice (slice m)) (axis m) (direction m) (position c).
Proof.
  destruct (affected m c) eqn:E.
  - rewrite (commitCubie_affected _ _ E). cbn [position].
    unfold affected, includes in E. unfold movePos.
    destruct (at3 (position c) (axisIndex (axis m))); [| discriminate].
    unfold inSlice. now rewrite E.
  - rewrite (commitCubie_unaffected _ _ E).
    unfold affected, includes in E. unfold movePos.
    destruct (at3 (position c) (axisIndex (axis m))); [| reflexivity].
    unfold inSlice. now rewrite E.
Qed.

Lemma movePos_bits (mem : Z -> bool) (ax : Axis) (d : Z) (p : Vector3Arr) :
  In p lattice ->
  movePos mem ax d p = movePos (memOf (mem (-1)) (mem 0) (mem 1)) ax d p.
Proof.
  intros Hp. unfold movePos.
  unfold lattice in Hp; cbn in Hp.
  repeat destruct Hp as [<- | Hp]; try contradiction;
    destruct ax; cbn [at3 axisIndex]; unfold memOf;
    cbn [Z.eqb Pos.eqb]; reflexivity.
Qed.

Lemma in_turns (d : Z) : In d turns -> d = -2 \/ d = -1 \/ d = 1 \/ d = 2.
Proof. unfold turns; simpl. intuition. Qed.

Lemma lattice_turned (mem : Z -> bool) (ax : Axis) (d : Z) :
  In d turns -> Permutation (map (movePos mem ax d) lattice) lattice.
Proof.
  intros Hd.
  rewrite (map_ext_in _ _ lattice (movePos_bits mem ax d)).
  apply in_turns in Hd.
  destruct (mem (-1)), (mem 0), (mem 1), ax;
    destruct Hd as [-> | [-> | [-> | ->]]];
    apply permb_sound; vm_compute; reflexivity.
Qed.

(** *** The invariant of reachable snapshots *)

Lemma quaternion_commitCubie (m : Move) (c : CubieState) :
  In (quaternion c) cubeGroup -> In (direction m) turns ->
  In (quaternion (commitCubie m c)) cubeGroup.
Proof.
  intros Hq Hd. destruct (affected m c) eqn:E.
  - rewrite (commitCubie_affected _ _ E). cbn [quaternion].
    apply commitQuat_inGroup; assumption.
  - rewrite (commitCubie_unaffected _ _ E). exact Hq.
Qed.

Lemma initialPosition_commitCubie (m : Move) (c : CubieState) :
  initialPosition (commitCubie m c) = initialPosition c.
Proof.
  rewrite commitCubie_frame. now destruct (affected m c).
Qed.

Lemma wellFormed_initial : wellFormed getInitialState.
Proof.
  split.
  - reflexivity.
  - apply permb_sound. vm_compute. reflexivity.
  - assert (H : forallb (fun c => inGroup (quaternion c)) getInitialState = true)
      by (vm_compute; reflexivity).
    apply Forall_forall. intros c Hc. apply inGroup_In.
    exact (forallb_In _ _ c H Hc).
Qed.

Lemma wellFormed_applyMove (s : list CubieState) (m : Move) :
  wellFormed s -> In (direction m) turns -> wellFormed (applyMove s m).
Proof.
  intros [Ho Hp Hq] Hd. unfold applyMove. split.
  - rewrite map_map, <- Ho. apply map_ext. apply initialPosition_commitCubie.
  - rewrite map_map.
    rewrite (map_ext _ _ (position_commitCubie m)), <- map_map.
    rewrite (Permutation_map _ Hp). now apply lattice_turned.
  - apply Forall_map. revert Hq. apply Forall_impl.
    intros c Hc. now apply quaternion_commitCubie.
Qed.

Lemma reachable_wellFormed (s : list CubieState) :
  reachable s -> wellFormed s.
Proof.
  induction 1 as [| s m _ IH [_ Hd]].
  - apply wellFormed_initial.
  - now apply wellFormed_applyMove.
Qed.

(** *** Orientations up to rounding *)






(** The quaternions of the group stand for rotations of the cube in
    the exact sense the doubles are held to below. *)
Lemma cubeGroup_stands (q : THREE.Quaternion) :
  In q cubeGroup -> standsForCubeRotation q = true.
Proof.
  intros Hq.
  assert (H : forallb standsForCubeRotation cubeGroup = true)
    by (vm_compute; reflexivity).
  exact (forallb_In _ _ q H Hq).
Qed.




(** On the doubles too the orientation after a first move passes the
    test of the amended statement, against the quaternion the exact
    numbers give. *)
Lemma doubles_alike_after_a_move (ax : Axis) (d : Z) :
  In d turns ->
  orientedAlike (exactOf (playQuat [(ax, d)])) (commitQuat THREE.identity ax d)
  = true.
Proof.
  intros Hd.
  assert (H : forallb (fun ax => forallb (fun d =>
                orientedAlike (exactOf (playQuat [(ax, d)]))
                              (commitQuat THREE.identity ax d)) turns) axes
              = true) by (vm_compute; reflexivity).
  apply (forallb_In _ _ ax) in H; [| apply in_axes]. cbv beta in H.
  apply (forallb_In _ _ d) in H; [| exact Hd]. cbv beta in H.
  exact H.
Qed.

(** ** Four quarter turns *)




Lemma quarters_turns (d : Z) : In d quarters -> In d turns.
Proof. unfold quarters, turns; simpl. intuition. Qed.






(** On the doubles too the orientation after the four turns passes the
    test of the amended statement against the one of before. *)
Lemma doubles_alike_after_full_turn (ax : Axis) (d : Z) :
  In d quarters ->
  orientedAlike (exactOf Binary64.identity)
                (exactOf (playQuat [(ax, d); (ax, d); (ax, d); (ax, d)]))
  = true.
Proof.
  intros Hd.
  assert (H : forallb (fun ax => forallb (fun d =>
                orientedAlike (exactOf Binary64.identity)
                  (exactOf (playQuat [(ax, d); (ax, d); (ax, d); (ax, d)])))
                quarters) axes = true) by (vm_compute; reflexivity).
  apply (forallb_In _ _ ax) in H; [| apply in_axes]. cbv beta in H.
  apply (forallb_In _ _ d) in H; [| exact Hd]. cbv beta in H.
  exact H.
Qed.

(** ** The edge stage of the OLL classifier *)

(** C8, as amended. The edge stage answers by the number of oriented
    top edges: none, ['Dot']; two, ['L-Shape'] when the two are less
    than 1.8 apart at their current positions and ['Line'] otherwise;
    one or three, ['Unknown'].  (With four or more the corner stage
    decides.) *)
Theorem oll_edge_stage (tops : list CubieState) (tc : CubieState) :
  match orientedEdges tops tc with
  | [] => identify2LookOLL tops tc = Some "Dot"
  | [e1; e2] =>
      identify2LookOLL tops tc =
        if (THREE.distanceTo (THREE.ofArr (position e1))
                             (THREE.ofArr (position e2)) <? kq 18 10)%K
        then Some "L-Shape" else Some "Line"
  | [_] | [_; _; _] => identify2LookOLL tops tc = Some "Unknown"
  | _ => True
  end.
Proof.
  unfold identify2LookOLL. fold (orientedEdges tops tc).
  destruct (orientedEdges tops tc) as [| e1 [| e2 [| e3 [| e4 l]]]];
    cbn [List.length Nat.ltb Nat.leb Nat.eqb]; trivial.
Qed.

(** After F U R U' R' F' the two oriented top edges come from adjacent
    places (origins (-1,1,0) and (0,1,-1)) and sit opposite each other
    (at (-1,1,0) and (1,1,0)): the classifier, and the engine with it,
    answer ['Line']. *)
Lemma edge_stage_by_origin_refuted :
  ollCase (analyzeCube afterFURURF) = Some "Line"
  /\ ~ edge_stage_by_origin.
Proof.
  split; [vm_compute; reflexivity |].
  intros H.
  destruct (topOf afterFURURF (0, -1, 0)) as [tc |] eqn:Etc;
    [| vm_compute in Etc; discriminate Etc].
  vm_compute in Etc. injection Etc as <-.
  set (tc := mkCubie 16 (0, 1, 0) (0, 1, 0) (0, 0, 0) THREE.identity) in *.
  destruct (orientedEdges (topPieces afterFURURF tc) tc)
    as [| e1 [| e2 [| e3 l]]] eqn:E;
    try (vm_compute in E; discriminate E).
  specialize (H _ _ _ _ E).
  vm_compute in E. injection E as <- <-.
  vm_compute in H. discriminate H.
Qed.

(** ** Placement is sensitive to orientation *)

Lemma isCorrectlyPlaced_atOrigin (piece center : CubieState) :
  position piece = initialPosition piece ->
  position center = initialPosition center ->
  isCorrectlyPlaced piece center
  = isCorrectlyPlaced (atOrigin (initialPosition piece) (quaternion piece))
                      (atOrigin (initialPosition center) THREE.identity).
Proof.
  intros Hp Hc. unfold isCorrectlyPlaced, atOrigin.
  cbn [initialPosition position quaternion]. rewrite Hp, Hc. reflexivity.
Qed.

Lemma misplaced_table :
  forallb (fun p => forallb (fun c => forallb (fun q =>
     let v := THREE.subVectors (THREE.ofArr c) (THREE.ofArr p) in
     (if Vector3_eq_dec (THREE.applyQuaternion v q) v then true else false)
     || negb (isCorrectlyPlaced (atOrigin p q) (atOrigin c THREE.identity)))
    cubeGroup) centerOrigins) movingOrigins = true.
Proof. vm_compute. reflexivity. Qed.

(** C9, as amended. With the reference center at its origin position
    too: an edge or corner that occupies its origin position and is
    turned by a rotation of the cube that does not fix the vector to
    the center does not pass the tolerance check, and
    [isCorrectlyPlaced] is false. *)
Theorem misoriented_in_place (piece center : CubieState) :
  In (initialPosition piece) lattice ->
  isEdge piece || isCorner piece = true ->
  In (initialPosition center) lattice ->
  isCenter center = true ->
  position piece = initialPosition piece ->
  position center = initialPosition center ->
  In (quaternion piece) cubeGroup ->
  THREE.applyQuaternion (originVector piece center) (quaternion piece)
    <> originVector piece center ->
  isCorrectlyPlaced piece center = false.
Proof.
  intros Hpl Hkind Hcl Hcen Hp Hc Hq Hv.
  rewrite (isCorrectlyPlaced_atOrigin _ _ Hp Hc).
  pose proof misplaced_table as H.
  apply (forallb_In _ _ (initialPosition piece)) in H;
    [| apply filter_In; split; [exact Hpl | exact Hkind]].
  apply (forallb_In _ _ (initialPosition center)) in H;
    [| apply filter_In; split; [exact Hcl | exact Hcen]].
  apply (forallb_In _ _ (quaternion piece)) in H; [| exact Hq].
  cbv beta zeta in H. apply orb_prop in H as [H | H].
  - apply dec_true in H. contradiction.
  - apply negb_true_iff in H. exact H.
Qed.

Lemma fixes_true (q : THREE.Quaternion) (v : THREE.Vector3) :
  fixes q v = true <-> THREE.applyQuaternion v q = v.
Proof.
  unfold fixes. destruct (Vector3_eq_dec (THREE.applyQuaternion v q) v);
    split; trivial; discriminate || contradiction.
Qed.

Lemma isIdentityRotation_matrixOf (q : THREE.Quaternion) :
  isIdentityRotation q = true -> matrixOf q = matrixOf THREE.identity.
Proof.
  unfold isIdentityRotation. intros H.
  apply andb_prop in H as [H H3]. apply andb_prop in H as [H1 H2].
  apply fixes_true in H1, H2, H3.
  assert (E : matrixOf THREE.identity
              = (THREE.ofArr (1, 0, 0), THREE.ofArr (0, 1, 0),
                 THREE.ofArr (0, 0, 1))) by (vm_compute; reflexivity).
  rewrite E. unfold matrixOf. rewrite H1, H2, H3. reflexivity.
Qed.

Lemma in_place_twist_table :
  forallb (fun p => forallb (fun c => forallb (fun q =>
     if fixes q (THREE.subVectors (THREE.ofArr c) (THREE.ofArr p))
     then if fixes q (THREE.ofArr p) then isIdentityRotation q else true
     else true)
    cubeGroup) centerOrigins) movingOrigins = true.
Proof. vm_compute. reflexivity. Qed.

(** A twist in place is such a rotation: a rotation of the cube other
    than the identity that keeps an edge or a corner where it is moves
    the vector from it to any center. *)
Lemma in_place_twist_moves_vector (piece center : CubieState) :
  In (initialPosition piece) lattice ->
  isEdge piece || isCorner piece = true ->
  In (initialPosition center) lattice ->
  isCenter center = true ->
  In (quaternion piece) cubeGroup ->
  matrixOf (quaternion piece) <> matrixOf THREE.identity ->
  THREE.applyQuaternion (THREE.ofArr (initialPosition piece)) (quaternion piece)
    = THREE.ofArr (initialPosition piece) ->
  THREE.applyQuaternion (originVector piece center) (quaternion piece)
    <> originVector piece center.
Proof.
  intros Hpl Hkind Hcl Hcen Hq Hid Hfix Hv.
  unfold originVector in Hv. apply fixes_true in Hfix, Hv.
  pose proof in_place_twist_table as H.
  apply (forallb_In _ _ (initialPosition piece)) in H;
    [| apply filter_In; split; [exact Hpl | exact Hkind]].
  apply (forallb_In _ _ (initialPosition center)) in H;
    [| apply filter_In; split; [exact Hcl | exact Hcen]].
  apply (forallb_In _ _ (quaternion piece)) in H; [| exact Hq].
  cbv beta in H. rewrite Hfix, Hv in H.
  apply Hid, isIdentityRotation_matrixOf, H.
Qed.

Example twistedCorner_afterTwist :
  In twistedCorner afterTwist /\ In topCenterHome afterTwist.
Proof.
  split.
  - apply (dec_true (in_dec CubieState_eq_dec twistedCorner afterTwist)).
    vm_compute. reflexivity.
  - apply (dec_true (in_dec CubieState_eq_dec topCenterHome afterTwist)).
    vm_compute. reflexivity.
Qed.

Lemma misoriented_in_place_witness :
  isCorrectlyPlaced twistedCorner topCenterHome = false.
Proof.
  apply misoriented_in_place.
  - vm_compute. tauto.
  - reflexivity.
  - vm_compute. tauto.
  - reflexivity.
  - reflexivity.
  - reflexivity.
  - apply inGroup_In. vm_compute. reflexivity.
  - vm_compute. discriminate.
Defined.

Lemma sensitive_for_any_center_refuted :
  In flippedEdge afterSliceAndHalf
  /\ In movedCenter afterSliceAndHalf
  /\ isCorrectlyPlaced flippedEdge movedCenter = true
  /\ ~ sensitive_for_any_center.
Proof.
  split; [| split; [| split]].
  - apply (dec_true (in_dec CubieState_eq_dec flippedEdge afterSliceAndHalf)).
    vm_compute. reflexivity.
  - apply (dec_true (in_dec CubieState_eq_dec movedCenter afterSliceAndHalf)).
    vm_compute. reflexivity.
  - vm_compute. reflexivity.
  - intros H. specialize (H flippedEdge movedCenter).
    assert (E : isCorrectlyPlaced flippedEdge movedCenter = true)
      by (vm_compute; reflexivity).
    assert (F : isCorrectlyPlaced flippedEdge movedCenter = false);
      [apply H | rewrite E in F; discriminate F].
    + vm_compute. tauto.
    + reflexivity.
    + vm_compute. tauto.
    + reflexivity.
    + reflexivity.
    + apply inGroup_In. vm_compute. reflexivity.
    + vm_compute. discriminate.
    + vm_compute. discriminate.
Qed.

(** ** From the PLL sentinel to the phase of the engine *)

Lemma evalCandidate_Solved_cleared (cubies : list CubieState)
    (center : CubieState) :
  currentPhase (evalCandidate cubies center) = Solved ->
  evalCandidate cubies center = mkCandidate Solved None None None None.
Proof.
  unfold evalCandidate.
  repeat match goal with
         | |- context [if ?b then _ else _] => destruct b
         | |- context [match ?o with Some _ => _ | None => _ end] => destruct o
         end; cbn [currentPhase]; intros H; try discriminate H; reflexivity.
Qed.

Lemma consider_keeps_solved (center : CubieState) (b : Best) (cand : Candidate) :
  solvedBest b -> solvedBest (consider center b cand).
Proof.
  intros [Hp Hc]. unfold consider. rewrite Hp.
  destruct (currentPhase cand); cbn; split; assumption.
Qed.

Lemma consider_solved (center : CubieState) (b : Best) :
  (bestPhase b = Solved -> bestPLLCase b = None) ->
  solvedBest (consider center b (mkCandidate Solved None None None None)).
Proof.
  intros Hb. unfold consider. cbn [currentPhase].
  destruct (bestPhase b) eqn:E; cbn; split; auto.
Qed.

Lemma loopBody_keeps_solved (cubies : list CubieState) (center : CubieState)
    (b : Best) :
  solvedBest b -> solvedBest (loopBody cubies center b).
Proof.
  intros Hb. unfold loopBody.
  destruct (negb (isCrossSolved cubies center)); [exact Hb |].
  now apply consider_keeps_solved.
Qed.

Lemma loopBody_keeps_cleared (cubies : list CubieState) (center : CubieState)
    (b : Best) :
  (bestPhase b = Solved -> bestPLLCase b = None) ->
  bestPhase (loopBody cubies center b) = Solved ->
  bestPLLCase (loopBody cubies center b) = None.
Proof.
  intros Hb. unfold loopBody.
  destruct (negb (isCrossSolved cubies center)); [exact Hb |].
  unfold consider.
  destruct (phaseValue (currentPhase (evalCandidate cubies center))
              >? phaseValue (bestPhase b)).
  - cbn [bestPhase bestPLLCase]. intros H.
    now rewrite (evalCandidate_Solved_cleared _ _ H).
  - destruct (_ && _); [destruct (_ <? _) |]; cbn [bestPhase bestPLLCase];
      exact Hb.
Qed.

Lemma fold_loopBody_solved (cubies l : list CubieState) (b : Best) :
  solvedBest b ->
  solvedBest (fold_left (fun best center => loopBody cubies center best) l b).
Proof.
  revert b. induction l as [| c l IH]; intros b Hb; simpl.
  - exact Hb.
  - apply IH. now apply loopBody_keeps_solved.
Qed.

Lemma fold_loopBody_reaches (cubies l : list CubieState) (b : Best)
    (center : CubieState) :
  (bestPhase b = Solved -> bestPLLCase b = None) ->
  In center l ->
  isCrossSolved cubies center = true ->
  currentPhase (evalCandidate cubies center) = Solved ->
  solvedBest (fold_left (fun best center => loopBody cubies center best) l b).
Proof.
  intros Hb Hin Hcross Heval. revert b Hb.
  induction l as [| c l IH]; intros b Hb; simpl.
  - destruct Hin.
  - destruct Hin as [-> | Hin].
    + apply fold_loopBody_solved. unfold loopBody. rewrite Hcross. cbn [negb].
      rewrite (evalCandidate_Solved_cleared _ _ Heval).
      now apply consider_solved.
    + apply (IH Hin). now apply loopBody_keeps_cleared.
Qed.

(** A candidate evaluated to ['Solved'] makes the answer of the engine
    ['Solved'], with the PLL case cleared. *)
Lemma analyzeCube_Solved (cubies : list CubieState) (center : CubieState) :
  In center (centers cubies) ->
  isCrossSolved cubies center = true ->
  currentPhase (evalCandidate cubies center) = Solved ->
  phase (analyzeCube cubies) = Solved
  /\ isSolved (analyzeCube cubies) = true
  /\ pllCase (analyzeCube cubies) = None.
Proof.
  intros Hin Hcross Heval.
  destruct (fold_loopBody_reaches cubies (centers cubies) initialBest center)
    as [Hp Hc]; try assumption.
  { intros H. discriminate H. }
  fold (finalBest cubies) in Hp, Hc.
  unfold analyzeCube. rewrite Hp. cbn. auto.
Qed.

(** *** What the classifier reads off a piece

    The classifier looks at a piece through its origin and its
    orientation only; the finite facts below are checked on every
    origin and every orientation of the group. *)

Lemma isOrientedForOLL_orientedTo (piece tc : CubieState) :
  isOrientedForOLL piece tc
  = orientedTo (localUpOf (initialPosition tc))
      (THREE.applyQuaternion (localUpOf (initialPosition tc))
                             (THREE.qnormalize (quaternion tc)))
      (quaternion piece).
Proof. unfold isOrientedForOLL, orientedTo, localUpOf. cbv zeta. reflexivity. Qed.

Lemma sideDirs_sideDirsOf (tc : CubieState) :
  sideDirs tc = sideDirsOf (pll_up tc).
Proof. unfold sideDirs, sideDirsOf. reflexivity. Qed.

Lemma getStickerColor_colorAt (c : CubieState) (d : THREE.Vector3) :
  getStickerColor c d = colorAt (initialPosition c) (quaternion c) d.
Proof.
  unfold colorAt, getStickerColor, atOrigin, validNormal, stickerStep.
  cbn [initialPosition quaternion]. reflexivity.
Qed.

Lemma onTopLayer_topCorner (tc c : CubieState) :
  onTopLayer tc c = topCorner (initialPosition tc) (initialPosition c).
Proof.
  unfold topCorner, onTopLayer, atOrigin. cbn [initialPosition]. reflexivity.
Qed.

Lemma qnormalize_group (q : THREE.Quaternion) :
  In q cubeGroup -> THREE.qnormalize q = q.
Proof.
  intros Hq.
  assert (H : forallb (fun q => if Quaternion_eq_dec (THREE.qnormalize q) q
                                then true else false) cubeGroup = true)
    by (vm_compute; reflexivity).
  exact (dec_true _ (forallb_In _ _ q H Hq)).
Qed.

Lemma isUnitAxis_In (v : THREE.Vector3) : isUnitAxis v = true -> In v unitAxes.
Proof. unfold isUnitAxis. apply dec_true. Qed.

Lemma up_unitAxis (tcp : Vector3Arr) (tq : THREE.Quaternion) :
  In tcp centerOrigins -> In tq cubeGroup ->
  In (THREE.applyQuaternion (localUpOf tcp) tq) unitAxes.
Proof.
  intros Hp Hq.
  assert (H : forallb (fun tcp => forallb (fun tq =>
                isUnitAxis (THREE.applyQuaternion (localUpOf tcp) tq))
                cubeGroup) centerOrigins = true)
    by (vm_compute; reflexivity).
  apply (forallb_In _ _ tcp) in H; [| assumption].
  apply (forallb_In _ _ tq) in H; [| assumption].
  apply isUnitAxis_In. exact H.
Qed.

(** An oriented top corner shows, towards a side of the layer, a
    sticker of one of its own two side faces. *)
Lemma side_sticker_table :
  forallb (fun tcp =>
    let localUp := localUpOf tcp in
    forallb (fun up =>
      let dirs := sideDirsOf up in
      forallb (fun p =>
        if topCorner tcp p then
          forallb (fun q =>
            if orientedTo localUp up q then
              forallb (fun d =>
                match colorAt p q d with
                | Some l => holds tcp l p && inLetters l
                | None => true
                end) dirs
            else true) cubeGroup
        else true) cornerOrigins) unitAxes) centerOrigins = true.
Proof. vm_compute. reflexivity. Qed.

(** Two corners of a layer, no more, carry a given side letter. *)
Lemma holders_table :
  forallb (fun tcp => forallb (fun l =>
    (List.length (filter (fun p => topCorner tcp p && holds tcp l p)
                         cornerOrigins) <=? 2)%nat) letters) centerOrigins
  = true.
Proof. vm_compute. reflexivity. Qed.

(** A corner shows a given letter towards one direction only. *)
Lemma one_direction_table :
  forallb (fun p => forallb (fun q =>
    let cols := map (fun d => (d, colorAt p q d)) unitAxes in
    forallb (fun dc => forallb (fun dc' =>
      match snd dc, snd dc' with
      | Some l, Some l' =>
          negb (String.eqb l l')
          || (if Vector3_eq_dec (fst dc) (fst dc') then true else false)
      | _, _ => true
      end) cols) cols) cubeGroup) cornerOrigins = true.
Proof. vm_compute. reflexivity. Qed.

(** *** Lists *)

Lemma filter_length_all {A : Type} (f : A -> bool) (l : list A) :
  List.length (filter f l) = List.length l ->
  forall x, In x l -> f x = true.
Proof.
  induction l as [| a l IH]; simpl; intros H x Hx.
  - destruct Hx.
  - destruct (f a) eqn:E.
    + simpl in H. injection H as H. destruct Hx as [<- | Hx]; auto.
    + pose proof (filter_length_le f l). lia.
Qed.

Lemma filter_none {A : Type} (f : A -> bool) (l : list A) :
  (forall x, In x l -> f x = false) -> filter f l = [].
Proof.
  induction l as [| a l IH]; simpl; intros H.
  - reflexivity.
  - rewrite (H a (or_introl eq_refl)). apply IH. intros x Hx. apply H. now right.
Qed.

(** Filtering keeps keys distinct. *)
Lemma NoDup_map_filter {A B : Type} (key : A -> B) (keep : A -> bool) :
  forall l : list A, NoDup (map key l) -> NoDup (map key (filter keep l)).
Proof.
  intros l. induction l as [| a l IH]; cbn [filter map]; intros H.
  - constructor.
  - apply NoDup_cons_iff in H as [Hn Hl].
    destruct (keep a); cbn [map]; [| now apply IH].
    apply NoDup_cons; [| now apply IH].
    rewrite in_map_iff. intros [x [Hx Hin]]. apply Hn.
    apply filter_In in Hin as [Hin _]. rewrite <- Hx. now apply in_map.
Qed.

Lemma NoDup_map_inj {A B : Type} (f : A -> B) (l : list A) (x y : A) :
  NoDup (map f l) -> In x l -> In y l -> f x = f y -> x = y.
Proof.
  induction l as [| a l IH]; simpl; intros H Hx Hy E.
  - destruct Hx.
  - inversion H as [| ? ? Hn Hl]; subst.
    destruct Hx as [<- | Hx], Hy as [<- | Hy]; auto.
    + exfalso. apply Hn. rewrite E. now apply in_map.
    + exfalso. apply Hn. rewrite <- E. now apply in_map.
Qed.

Lemma NoDup_map_on {A B : Type} (f : A -> B) (l : list A) :
  NoDup l ->
  (forall x y, In x l -> In y l -> f x = f y -> x = y) ->
  NoDup (map f l).
Proof.
  induction 1 as [| x l Hn Hl IH]; simpl; intros Hinj; constructor.
  - intros Hin. apply in_map_iff in Hin as [y [E Hy]].
    assert (y = x) by (apply Hinj; auto). subst. contradiction.
  - apply IH. intros; apply Hinj; auto.
Qed.

Lemma NoDup_lattice : NoDup lattice.
Proof.
  assert (E : nodup Vector3Arr_eq_dec lattice = lattice)
    by (vm_compute; reflexivity).
  rewrite <- E. apply NoDup_nodup.
Qed.

(** Three different members do not fit in a list of two. *)
Lemma no_room_for_three {A : Type} (l : list A) (x y z : A) :
  (List.length l <= 2)%nat -> In x l -> In y l -> In z l ->
  x <> y -> x <> z -> y <> z -> False.
Proof.
  intros Hl Hx Hy Hz Hxy Hxz Hyz.
  assert (Hn : NoDup [x; y; z]).
  { repeat constructor; simpl; intuition. }
  assert (Hi : incl [x; y; z] l).
  { intros w [<- | [<- | [<- | []]]]; assumption. }
  pose proof (NoDup_incl_length Hn Hi) as H. simpl in H. lia.
Qed.

Lemma sideDirsOf_table :
  forallb (fun up =>
    (List.length (sideDirsOf up) =? 4)%nat
    && (if list_eq_dec Vector3_eq_dec
             (nodup Vector3_eq_dec (sideDirsOf up)) (sideDirsOf up)
        then true else false)
    && forallb isUnitAxis (sideDirsOf up)) unitAxes = true.
Proof. vm_compute. reflexivity. Qed.

Lemma sideDirsOf_spec (up : THREE.Vector3) :
  In up unitAxes ->
  List.length (sideDirsOf up) = 4%nat
  /\ NoDup (sideDirsOf up)
  /\ (forall d, In d (sideDirsOf up) -> In d unitAxes).
Proof.
  intros Hup. pose proof (forallb_In _ _ up sideDirsOf_table Hup) as H.
  cbv beta in H. apply andb_prop in H as [H H3]. apply andb_prop in H as [H1 H2].
  split; [| split].
  - now apply Nat.eqb_eq.
  - apply dec_true in H2. rewrite <- H2. apply NoDup_nodup.
  - intros d Hd. apply isUnitAxis_In. exact (forallb_In _ _ d H3 Hd).
Qed.

Lemma isCenter_origin (c : CubieState) :
  isCenter c = isCenter (atOrigin (initialPosition c) THREE.identity).
Proof. unfold isCenter, absSum, atOrigin. cbn [initialPosition]. reflexivity. Qed.

Lemma isCorner_origin (c : CubieState) :
  isCorner c = isCorner (atOrigin (initialPosition c) THREE.identity).
Proof. unfold isCorner, absSum, atOrigin. cbn [initialPosition]. reflexivity. Qed.

Lemma edge_not_corner (c : CubieState) : isEdge c = true -> isCorner c = false.
Proof.
  unfold isEdge, isCorner. intros H. apply Z.eqb_eq in H. rewrite H. reflexivity.
Qed.

(** *** The four sides show four colors *)

Section Sentinel.

Variable cubies : list CubieState.
Variable tc : CubieState.

Hypothesis Hwf : wellFormed cubies.
Hypothesis Htc : In tc cubies.
Hypothesis Hcenter : isCenter tc = true.
Hypothesis Holl :
  forallb (fun p => isOrientedForOLL p tc) (topPieces cubies tc) = true.
Hypothesis Hhead : headlightsCount (topPieces cubies tc) tc = 4%nat.

Lemma piece_wellFormed (c : CubieState) :
  In c cubies -> In (initialPosition c) lattice /\ In (quaternion c) cubeGroup.
Proof.
  intros Hc. destruct Hwf as [Ho _ Hq]. split.
  - rewrite <- Ho. now apply in_map.
  - rewrite Forall_forall in Hq. now apply Hq.
Qed.

Lemma tc_origin : In (initialPosition tc) centerOrigins.
Proof.
  apply filter_In. split.
  - apply piece_wellFormed, Htc.
  - rewrite <- isCenter_origin. exact Hcenter.
Qed.

Lemma pll_up_localUp :
  pll_up tc
  = THREE.applyQuaternion (localUpOf (initialPosition tc)) (quaternion tc).
Proof. unfold pll_up, localUpOf. reflexivity. Qed.

Lemma up_axis : In (pll_up tc) unitAxes.
Proof.
  rewrite pll_up_localUp. apply up_unitAxis.
  - apply tc_origin.
  - apply piece_wellFormed, Htc.
Qed.

Lemma topCorners_In (c : CubieState) :
  In c (topCorners cubies tc) ->
  In c cubies /\ isCorner c = true /\ onTopLayer tc c = true
  /\ isOrientedForOLL c tc = true.
Proof.
  intros Hc. unfold topCorners in Hc. apply filter_In in Hc as [Hc Hk].
  pose proof (forallb_In _ _ c Holl Hc) as Ho. cbv beta in Ho.
  unfold topPieces in Hc. apply filter_In in Hc as [Hc Ht].
  repeat split; try assumption.
  apply in_app_or in Hc as [Hc | Hc]; unfold edges, corners in Hc;
    apply filter_In in Hc as [Hc _]; exact Hc.
Qed.

Lemma topCorners_NoDup : NoDup (map initialPosition (topCorners cubies tc)).
Proof.
  unfold topCorners, topPieces. rewrite !filter_app.
  rewrite (filter_none isCorner (filter (onTopLayer tc) (edges cubies))).
  - cbn [app]. unfold corners. do 3 apply NoDup_map_filter.
    rewrite (wf_origins _ Hwf). apply NoDup_lattice.
  - intros x Hx. apply filter_In in Hx as [Hx _].
    unfold edges in Hx. apply filter_In in Hx as [_ Hx].
    now apply edge_not_corner.
Qed.

Lemma topCorner_origin (c : CubieState) :
  In c (topCorners cubies tc) ->
  In (initialPosition c) cornerOrigins
  /\ topCorner (initialPosition tc) (initialPosition c) = true.
Proof.
  intros Hc. apply topCorners_In in Hc as [Hin [Hk [Ht _]]]. split.
  - apply filter_In. split.
    + apply piece_wellFormed, Hin.
    + rewrite <- isCorner_origin. exact Hk.
  - rewrite <- onTopLayer_topCorner. exact Ht.
Qed.

Lemma topCorner_oriented (c : CubieState) :
  In c (topCorners cubies tc) ->
  orientedTo (localUpOf (initialPosition tc)) (pll_up tc) (quaternion c)
  = true.
Proof.
  intros Hc. apply topCorners_In in Hc as [_ [_ [_ Ho]]].
  rewrite isOrientedForOLL_orientedTo in Ho.
  rewrite (qnormalize_group (quaternion tc)) in Ho
    by (apply piece_wellFormed, Htc).
  rewrite <- pll_up_localUp in Ho. exact Ho.
Qed.

(** The sticker a top corner shows to a side is a side sticker. *)
Lemma side_sticker (c : CubieState) (d : THREE.Vector3) (l : string) :
  In c (topCorners cubies tc) -> In d (sideDirs tc) ->
  getStickerColor c d = Some l ->
  holds (initialPosition tc) l (initialPosition c) = true
  /\ inLetters l = true.
Proof.
  intros Hc Hd Hl.
  destruct (topCorner_origin c Hc) as [Hp Ht].
  pose proof (topCorner_oriented c Hc) as Ho.
  pose proof (topCorners_In c Hc) as [Hin _].
  pose proof side_sticker_table as H.
  apply (forallb_In _ _ (initialPosition tc)) in H; [| apply tc_origin].
  cbv beta zeta in H.
  apply (forallb_In _ _ (pll_up tc)) in H; [| apply up_axis].
  apply (forallb_In _ _ (initialPosition c)) in H; [| exact Hp].
  cbv beta in H. rewrite Ht in H.
  apply (forallb_In _ _ (quaternion c)) in H;
    [| apply piece_wellFormed, Hin].
  cbv beta in H. rewrite Ho in H.
  rewrite sideDirs_sideDirsOf in Hd.
  apply (forallb_In _ _ d) in H; [| exact Hd].
  cbv beta in H. rewrite <- getStickerColor_colorAt, Hl in H.
  apply andb_prop in H. exact H.
Qed.

Lemma one_direction (c : CubieState) (d d' : THREE.Vector3) (l : string) :
  In c (topCorners cubies tc) -> In d unitAxes -> In d' unitAxes ->
  getStickerColor c d = Some l -> getStickerColor c d' = Some l -> d = d'.
Proof.
  intros Hc Hd Hd' Hl Hl'.
  destruct (topCorner_origin c Hc) as [Hp _].
  pose proof (topCorners_In c Hc) as [Hin _].
  pose proof one_direction_table as H.
  apply (forallb_In _ _ (initialPosition c)) in H; [| exact Hp].
  apply (forallb_In _ _ (quaternion c)) in H;
    [| apply piece_wellFormed, Hin].
  cbv beta zeta in H.
  apply (forallb_In _ _ (d, colorAt (initialPosition c) (quaternion c) d))
    in H; [| apply (in_map (fun d => (d, colorAt _ _ d))), Hd].
  apply (forallb_In _ _ (d', colorAt (initialPosition c) (quaternion c) d'))
    in H; [| apply (in_map (fun d => (d, colorAt _ _ d))), Hd'].
  cbv beta in H. cbn [fst snd] in H.
  rewrite <- !getStickerColor_colorAt, Hl, Hl' in H.
  rewrite String.eqb_refl in H. cbn [negb orb] in H.
  exact (dec_true _ H).
Qed.

Lemma sideDirs_spec :
  List.length (sideDirs tc) = 4%nat
  /\ NoDup (sideDirs tc)
  /\ (forall d, In d (sideDirs tc) -> In d unitAxes).
Proof. rewrite sideDirs_sideDirsOf. apply sideDirsOf_spec, up_axis. Qed.

Lemma headlightsCount_unfold :
  headlightsCount (topPieces cubies tc) tc
  = List.length (filter isHeadlights
                   (map (pll_face (topPieces cubies tc) tc) (sideDirs tc))).
Proof. unfold headlightsCount, pll_faces. reflexivity. Qed.

Lemma all_headlights (d : THREE.Vector3) :
  In d (sideDirs tc) ->
  isHeadlights (pll_face (topPieces cubies tc) tc d) = true.
Proof.
  intros Hd. pose proof Hhead as H. rewrite headlightsCount_unfold in H.
  apply (filter_length_all isHeadlights
           (map (pll_face (topPieces cubies tc) tc) (sideDirs tc))).
  - rewrite H, length_map. symmetry. apply sideDirs_spec.
  - apply (in_map (pll_face (topPieces cubies tc) tc)). exact Hd.
Qed.

(** A side with headlights has two corners, which show the color of
    the side. *)
Lemma headlights_corners (d : THREE.Vector3) :
  isHeadlights (pll_face (topPieces cubies tc) tc d) = true ->
  exists a b l,
    filter (onFace tc d) (topCorners cubies tc) = [a; b]
    /\ c1 (pll_face (topPieces cubies tc) tc d) = Some l
    /\ getStickerColor a d = Some l
    /\ getStickerColor b d = Some l.
Proof.
  unfold pll_face. cbn [isHeadlights c1]. fold (topCorners cubies tc).
  destruct (filter (onFace tc d) (topCorners cubies tc))
    as [| a [| b [| x y]]]; cbn [fst snd truthy andb];
    try discriminate.
  destruct (getStickerColor a d) as [l |] eqn:Ea; [| discriminate].
  destruct (getStickerColor b d) as [l' |] eqn:Eb;
    [| rewrite andb_false_r; discriminate].
  intros H. apply andb_prop in H as [_ H]. cbn [same] in H.
  apply String.eqb_eq in H. subst l'.
  exists a, b, l. repeat split; assumption.
Qed.

(** Two different sides do not show the same color. *)
Lemma side_colors_differ (d d' : THREE.Vector3) :
  In d (sideDirs tc) -> In d' (sideDirs tc) ->
  c1 (pll_face (topPieces cubies tc) tc d)
  = c1 (pll_face (topPieces cubies tc) tc d') ->
  d = d'.
Proof.
  intros Hd Hd' E.
  destruct (Vector3_eq_dec d d') as [| Hne]; [assumption | exfalso].
  destruct (headlights_corners d (all_headlights d Hd))
    as [a [b [l [Hf [Hc [Ha Hb]]]]]].
  destruct (headlights_corners d' (all_headlights d' Hd'))
    as [a' [b' [l' [Hf' [Hc' [Ha' _]]]]]].
  rewrite Hc, Hc' in E. injection E as <-.
  assert (Hin : forall x, In x [a; b] -> In x (topCorners cubies tc)).
  { intros x Hx. rewrite <- Hf in Hx.
    apply filter_In in Hx as [Hx _]. exact Hx. }
  assert (Hina : In a (topCorners cubies tc))
    by (apply Hin; left; reflexivity).
  assert (Hinb : In b (topCorners cubies tc))
    by (apply Hin; right; left; reflexivity).
  assert (Hina' : In a' (topCorners cubies tc)).
  { assert (Hx : In a' [a'; b']) by (left; reflexivity).
    rewrite <- Hf' in Hx. apply filter_In in Hx as [Hx _]. exact Hx. }
  destruct sideDirs_spec as [_ [_ Hax]].
  pose proof topCorners_NoDup as Hnd.
  assert (Hab : initialPosition a <> initialPosition b).
  { pose proof (NoDup_map_filter initialPosition (onFace tc d) _ Hnd) as Hn.
    rewrite Hf in Hn. cbn [map] in Hn.
    inversion Hn as [| ? ? Hnot _]; subst. intros Eab. apply Hnot.
    rewrite Eab. left. reflexivity. }
  assert (Hother : forall x, In x (topCorners cubies tc) ->
              getStickerColor x d = Some l ->
              initialPosition x <> initialPosition a').
  { intros x Hx Hxl Ex.
    assert (x = a') by (apply (NoDup_map_inj initialPosition _ _ _ Hnd);
                        assumption).
    subst x. apply Hne.
    apply (one_direction a' d d' l);
      [exact Hina' | apply Hax, Hd | apply Hax, Hd' | exact Hxl | exact Ha']. }
  destruct (side_sticker a d l Hina Hd Ha) as [Hha Hl].
  destruct (side_sticker b d l Hinb Hd Hb) as [Hhb _].
  destruct (side_sticker a' d' l Hina' Hd' Ha') as [Hha' _].
  pose proof holders_table as Ht.
  apply (forallb_In _ _ (initialPosition tc)) in Ht; [| apply tc_origin].
  apply (forallb_In _ _ l) in Ht;
    [| unfold inLetters in Hl; apply existsb_exists in Hl as [k [Hk Ek]];
       apply String.eqb_eq in Ek; subst; exact Hk].
  cbv beta in Ht. apply Nat.leb_le in Ht.
  assert (Hmember : forall x, In x (topCorners cubies tc) ->
              holds (initialPosition tc) l (initialPosition x) = true ->
              In (initialPosition x)
                 (filter (fun p => topCorner (initialPosition tc) p
                                   && holds (initialPosition tc) l p)
                         cornerOrigins)).
  { intros x Hx Hh. destruct (topCorner_origin x Hx) as [Hp Htop].
    apply filter_In. split; [exact Hp |]. rewrite Htop, Hh. reflexivity. }
  apply (no_room_for_three _ (initialPosition a) (initialPosition b)
           (initialPosition a') Ht).
  - apply Hmember; assumption.
  - apply Hmember; assumption.
  - apply Hmember; assumption.
  - exact Hab.
  - apply Hother; assumption.
  - apply Hother; assumption.
Qed.

(** The re-verification of the classifier succeeds. *)
Lemma distinctColors_four : distinctColors (topPieces cubies tc) tc = 4%nat.
Proof.
  unfold distinctColors, pll_faces. rewrite map_map.
  destruct sideDirs_spec as [Hlen [Hnd _]].
  rewrite nodup_fixed_point.
  - rewrite length_map. exact Hlen.
  - apply NoDup_map_on; [exact Hnd |].
    intros d d' Hd Hd'. apply side_colors_differ; assumption.
Qed.

End Sentinel.

Lemma identifyPLL_counts (tops : list CubieState) (tc : CubieState) :
  headlightsCount tops tc = 4%nat ->
  solvedBarsCount tops tc = 4%nat ->
  identifyPLL tops tc
  = if (distinctColors tops tc =? 4)%nat then Some "Solved" else Some "Unknown".
Proof.
  intros Hh Hb. unfold identifyPLL. rewrite Hh, Hb. reflexivity.
Qed.

Lemma evalCandidate_sentinel (cubies : list CubieState)
    (center tc : CubieState) :
  solvedPairs cubies center = 4 ->
  topCenter cubies center = Some tc ->
  forallb (fun p => isOrientedForOLL p tc) (topPieces cubies tc) = true ->
  identifyPLL (topPieces cubies tc) tc = Some "Solved" ->
  evalCandidate cubies center = mkCandidate Solved None None None None.
Proof.
  intros Hp Ht Ho Hi. unfold evalCandidate. cbv zeta.
  rewrite Hp, Ht, Ho, Hi. reflexivity.
Qed.

(** C7. On a snapshot reachable by moves, for a candidate center of
    the engine with its cross and its four pairs solved and the layer
    of the opposite center oriented: when the PLL classifier finds
    headlights on all four sides and a bar on all four, the four sides
    show four different colors, the classifier answers ['Solved'], the
    candidate is evaluated to phase ['Solved'] with no PLL case, and so
    is the answer of the engine ([isSolved] true, [pllCase] unset). *)
Theorem pll_sentinel (cubies : list CubieState) (center tc : CubieState) :
  reachable cubies ->
  In center (centers cubies) ->
  isCrossSolved cubies center = true ->
  solvedPairs cubies center = 4 ->
  topCenter cubies center = Some tc ->
  forallb (fun p => isOrientedForOLL p tc) (topPieces cubies tc) = true ->
  headlightsCount (topPieces cubies tc) tc = 4%nat ->
  solvedBarsCount (topPieces cubies tc) tc = 4%nat ->
  distinctColors (topPieces cubies tc) tc = 4%nat
  /\ identifyPLL (topPieces cubies tc) tc = Some "Solved"
  /\ evalCandidate cubies center = mkCandidate Solved None None None None
  /\ phase (analyzeCube cubies) = Solved
  /\ isSolved (analyzeCube cubies) = true
  /\ pllCase (analyzeCube cubies) = None.
Proof.
  intros Hr Hin Hcross Hpairs Htop Holl Hhead Hbars.
  pose proof (reachable_wellFormed _ Hr) as Hwf.
  pose proof (find_some _ _ Htop) as [Htc _].
  unfold centers in Htc. apply filter_In in Htc as [Htc Hcen].
  pose proof (distinctColors_four cubies tc Hwf Htc Hcen Holl Hhead) as Hd.
  assert (Hi : identifyPLL (topPieces cubies tc) tc = Some "Solved").
  { rewrite (identifyPLL_counts _ _ Hhead Hbars), Hd. reflexivity. }
  pose proof (evalCandidate_sentinel _ _ _ Hpairs Htop Holl Hi) as He.
  split; [exact Hd | split; [exact Hi | split; [exact He |]]].
  apply (analyzeCube_Solved cubies center Hin Hcross).
  rewrite He. reflexivity.
Qed.

Lemma pll_sentinel_witness :
  topCenter getInitialState leftCenter = Some rightCenter
  /\ headlightsCount (topPieces getInitialState rightCenter) rightCenter
     = 4%nat
  /\ solvedBarsCount (topPieces getInitialState rightCenter) rightCenter
     = 4%nat
  /\ identifyPLL (topPieces getInitialState rightCenter) rightCenter
     = Some "Solved".
Proof.
  assert (Ht : topCenter getInitialState leftCenter = Some rightCenter)
    by (vm_compute; reflexivity).
  assert (Hh : headlightsCount (topPieces getInitialState rightCenter)
                 rightCenter = 4%nat) by (vm_compute; reflexivity).
  assert (Hb : solvedBarsCount (topPieces getInitialState rightCenter)
                 rightCenter = 4%nat) by (vm_compute; reflexivity).
  split; [exact Ht | split; [exact Hh | split; [exact Hb |]]].
  refine (proj1 (proj2 (pll_sentinel getInitialState leftCenter rightCenter
                          reach_init _ _ _ Ht _ Hh Hb))).
  - apply (dec_true (in_dec CubieState_eq_dec leftCenter
                            (centers getInitialState))).
    vm_compute. reflexivity.
  - vm_compute. reflexivity.
  - vm_compute. reflexivity.
  - vm_compute. reflexivity.
Defined.

(** * More properties of the program

    Properties of the code beyond the ten claims: the algebra of the
    moves, the partition of the pieces, the notation, the selection of
    the engine, the classifiers, the stickers, and the callbacks of the
    animation hook. *)

(** ** Helpers *)

Lemma reachable_pieces (s : list CubieState) :
  reachable s -> Forall pieceOk s.
Proof.
  intros Hs. apply reachable_wellFormed in Hs as [_ Hp Hq].
  apply Forall_forall. intros c Hc. split.
  - apply (Permutation_in _ Hp), in_map, Hc.
  - revert c Hc. apply Forall_forall. exact Hq.
Qed.


Lemma validMove_turns (m : Move) : validMove m -> In (direction m) turns.
Proof. intros [_ H]. exact H. Qed.

Lemma valid_turn (ax : Axis) (l d : Z) :
  In l range3 -> In d turns -> validMove (turn ax l d).
Proof.
  intros Hl Hd. split; [| exact Hd].
  constructor; [exact Hl | constructor].
Qed.

Lemma afterRUR'_reachable : reachable afterRUR'.
Proof.
  unfold afterRUR', play; cbn [fold_left].
  repeat (apply reach_move; [| apply valid_turn; simpl; auto]).
  apply reach_init.
Qed.

(** ** [rotateVector] *)

(** X1. [rotateVector] composes as the turns of a layer do: for two
    directions among -2, -1, 1, 2 about the same axis, turning a vector
    of integers by one and then by the other is the turn by their sum
    modulo 4: the vector itself, a quarter turn either way or a half
    turn.  In particular a direction undoes its opposite and two
    quarter turns make the half turn. *)
Theorem rotateVector_compose (v : Vector3Arr) (ax : Axis) (d1 d2 : Z) :
  In d1 turns -> In d2 turns ->
  rotateVector (rotateVector v ax d1) ax d2 =
    match (d1 + d2) mod 4 with
    | 0 => v
    | 1 => rotateVector v ax 1
    | 2 => rotateVector v ax 2
    | _ => rotateVector v ax (-1)
    end.
Proof.
  intros H1 H2. apply in_turns in H1, H2.
  destruct (rotateVector_reference v ax) as [Ea [Eb [Ec Ed]]].
  destruct H1 as [-> | [-> | [-> | ->]]];
    destruct H2 as [-> | [-> | [-> | ->]]];
    match goal with
    | |- context [(?a + ?b) mod 4] =>
        let r := eval vm_compute in ((a + b) mod 4) in
        change ((a + b) mod 4) with r
    end; cbv iota;
    rewrite ?Ea, ?Eb, ?Ec, ?Ed;
    match goal with
    | |- rotateVector ?w _ _ = _ =>
        destruct (rotateVector_reference w ax) as [Fa [Fb [Fc Fd]]];
        rewrite ?Fa, ?Fb, ?Fc, ?Fd
    end;
    destruct v as [[x y] z]; destruct ax;
    cbn [spec_quarter spec_half];
    (apply f_equal2; [apply f_equal2 |]); lia.
Qed.

Lemma rotateVector_compose_witness :
  In 1 turns /\ In (-1) turns
  /\ rotateVector (rotateVector (1, 0, -1) AxisY 1) AxisY (-1) = (1, 0, -1).
Proof.
  assert (H1 : In 1 turns) by (simpl; auto).
  assert (H2 : In (-1) turns) by (simpl; auto).
  split; [exact H1 | split; [exact H2 |]].
  exact (rotateVector_compose (1, 0, -1) AxisY 1 (-1) H1 H2).
Defined.

(** ** The move commit and [rotateVector] *)

(** X2. The move commit moves the pieces as [rotateVector] would: on a
    reachable snapshot and for a valid move, the position the commit
    stores for a piece of a turning layer, computed with
    [applyAxisAngle] and [Math.round], is [rotateVector] of its
    position, and the other positions stay. *)
Theorem commit_positions_rotateVector (s : list CubieState) (m : Move) :
  reachable s -> validMove m ->
  map position (applyMove s m)
  = map (fun c => if affected m c
                  then rotateVector (position c) (axis m) (direction m)
                  else position c) s.
Proof.
  intros Hs Hm. apply reachable_pieces in Hs. apply validMove_turns in Hm.
  unfold applyMove. rewrite map_map. apply map_ext_Forall.
  revert Hs. apply Forall_impl. intros c [Hp _].
  destruct (affected m c) eqn:E.
  - rewrite (commitCubie_affected _ _ E). cbn [position].
    apply commitPos_rotateVector; assumption.
  - rewrite (commitCubie_unaffected _ _ E). reflexivity.
Qed.

Lemma commit_positions_rotateVector_witness :
  reachable getInitialState /\ validMove (turn AxisY 1 1)
  /\ map position (applyMove getInitialState (turn AxisY 1 1))
     = map (fun c => if affected (turn AxisY 1 1) c
                     then rotateVector (position c) AxisY 1
                     else position c) getInitialState.
Proof.
  assert (Hm : validMove (turn AxisY 1 1))
    by (apply valid_turn; simpl; auto).
  split; [exact reach_init | split; [exact Hm |]].
  exact (commit_positions_rotateVector _ _ reach_init Hm).
Defined.

(** ** What every reachable snapshot keeps *)

Lemma commitCubie_fields (m : Move) (c : CubieState) :
  id (commitCubie m c) = id c
  /\ initialPosition (commitCubie m c) = initialPosition c
  /\ rotation (commitCubie m c) = rotation c.
Proof.
  rewrite commitCubie_frame. destruct (affected m c); repeat split.
Qed.

(** X3. On every reachable snapshot the pieces come in the order of
    [getInitialState]: the piece at index [i] has [id] [i] and the
    origin [(x, y, z)] with [9 (x + 1) + 3 (y + 1) + (z + 1) = i], and
    its [rotation] is still [[0, 0, 0]]: no move writes that field. *)
Theorem reachable_identities (s : list CubieState) :
  reachable s ->
  map id s = map Z.of_nat (seq 0 27)
  /\ map initialPosition s = lattice
  /\ Forall (fun c => id c = idOf (initialPosition c)
                      /\ rotation c = (0, 0, 0)) s.
Proof.
  induction 1 as [| s m _ [IH1 [IH2 IH3]] _].
  - split; [reflexivity | split; [reflexivity |]].
    assert (H : forallb (fun c =>
                  (id c =? idOf (initialPosition c))
                  && (if Vector3Arr_eq_dec (rotation c) (0, 0, 0)
                      then true else false)) getInitialState = true)
      by (vm_compute; reflexivity).
    apply Forall_forall. intros c Hc.
    apply (forallb_In _ _ c) in H; [| exact Hc].
    apply andb_prop in H as [H1 H2]. split.
    + apply Z.eqb_eq. exact H1.
    + exact (dec_true _ H2).
  - unfold applyMove. rewrite !map_map. split; [| split].
    + rewrite <- IH1. apply map_ext. intros c. apply commitCubie_fields.
    + rewrite <- IH2. apply map_ext. intros c. apply commitCubie_fields.
    + apply Forall_map. revert IH3. apply Forall_impl. intros c [H1 H2].
      destruct (commitCubie_fields m c) as [-> [-> ->]]. split; assumption.
Qed.

Lemma reachable_identities_witness :
  reachable afterRUR' /\ map id afterRUR' = map Z.of_nat (seq 0 27).
Proof.
  assert (Hr : reachable afterRUR').
  { unfold afterRUR', play; cbn [fold_left].
    repeat (apply reach_move; [| apply valid_turn; simpl; auto]).
    apply reach_init. }
  split; [exact Hr |].
  exact (proj1 (reachable_identities afterRUR' Hr)).
Defined.







(** ** Composition of moves *)




Lemma commitCubie_turnCubie (m : Move) (c : CubieState) :
  commitCubie m c
  = if affected m c then turnCubie (axis m) (direction m) c else c.
Proof.
  destruct (affected m c) eqn:E.
  - apply commitCubie_affected. exact E.
  - apply commitCubie_unaffected. exact E.
Qed.






















(** ** The partition of the pieces *)

Lemma groups_fold (m : Move) (l a b : list CubieState) :
  fold_left (groupStep m) l (a, b)
  = (a ++ filter (affected m) l, b ++ filter (fun c => negb (affected m c)) l).
Proof.
  revert a b. induction l as [| c l IH]; intros a b.
  - simpl. now rewrite !app_nil_r.
  - cbn [fold_left filter]. unfold groupStep at 2.
    fold (affected m c). destruct (affected m c); cbn [negb];
      rewrite IH, <- app_assoc; reflexivity.
Qed.

Lemma filter_split_perm {A : Type} (f : A -> bool) (l : list A) :
  Permutation (filter f l ++ filter (fun x => negb (f x)) l) l.
Proof.
  induction l as [| x l IH]; [constructor |].
  cbn [filter]. destruct (f x); cbn [negb app].
  - now constructor.
  - rewrite <- Permutation_middle. now constructor.
Qed.

Lemma groups_perm (activeMove : option Move) (cubies : list CubieState) :
  Permutation (activeGroup activeMove cubies ++ staticGroup activeMove cubies)
              cubies.
Proof.
  unfold activeGroup, staticGroup, groups. destruct activeMove as [m |].
  - rewrite groups_fold. cbn [fst snd app]. apply filter_split_perm.
  - cbn [fst snd app]. reflexivity.
Qed.

(** X9. [activeGroup] and [staticGroup] split the pieces: together they
    are a permutation of [cubies]; with no move under way every piece
    is static; with a move under way the active pieces are those of
    its layers and the static ones the others, each group in the order
    of [cubies], and the commit of that move leaves every static piece
    as it is. *)
Theorem groups_partition (activeMove : option Move)
    (cubies : list CubieState) :
  Permutation (activeGroup activeMove cubies ++ staticGroup activeMove cubies)
              cubies
  /\ match activeMove with
     | None => activeGroup activeMove cubies = []
     | Some move =>
         activeGroup activeMove cubies = filter (affected move) cubies
         /\ staticGroup activeMove cubies
            = filter (fun c => negb (affected move c)) cubies
         /\ map (commitCubie move) (staticGroup activeMove cubies)
            = staticGroup activeMove cubies
     end.
Proof.
  split; [apply groups_perm |].
  unfold activeGroup, staticGroup, groups. destruct activeMove as [m |].
  - rewrite groups_fold. cbn [fst snd app]. split; [| split].
    + reflexivity.
    + reflexivity.
    + rewrite <- (map_id (filter _ cubies)) at 2. apply map_ext_in.
      intros c Hc. apply filter_In in Hc as [_ Hc].
      apply commitCubie_unaffected.
      destruct (affected m c); [discriminate | reflexivity].
  - reflexivity.
Qed.

Lemma count_by_position (f : Vector3Arr -> bool) (s : list CubieState) :
  List.length (filter (fun c => f (position c)) s)
  = List.length (filter f (map position s)).
Proof.
  induction s as [| c s IH]; [reflexivity |].
  cbn [filter map]. destruct (f (position c)); cbn [List.length]; now rewrite IH.
Qed.

Lemma filter_length_perm {A : Type} (f : A -> bool) (l l' : list A) :
  Permutation l l' -> List.length (filter f l) = List.length (filter f l').
Proof.
  induction 1 as [| x l l' _ IH | x y l | l l' l'' _ IH1 _ IH2].
  - reflexivity.
  - cbn [filter]. destruct (f x); cbn [List.length]; now rewrite IH.
  - cbn [filter]. destruct (f x), (f y); reflexivity.
  - now rewrite IH1.
Qed.

Lemma memOf_range (mem : Z -> bool) (v : Z) :
  In v range3 -> mem v = memOf (mem (-1)) (mem 0) (mem 1) v.
Proof. intros [<- | [<- | [<- | []]]]; reflexivity. Qed.

Lemma lattice_coordinate (p : Vector3Arr) (ax : Axis) :
  In p lattice -> exists v, at3 p (axisIndex ax) = Some v /\ In v range3.
Proof.
  intros Hp. unfold lattice in Hp; cbn in Hp.
  repeat destruct Hp as [<- | Hp]; try contradiction;
    destruct ax; cbn [at3 axisIndex]; eexists; (split; [reflexivity |]);
    simpl; tauto.
Qed.

Lemma layer_count (mem : Z -> bool) (ax : Axis) :
  List.length (filter (fun p => match at3 p (axisIndex ax) with
                                | Some v => mem v
                                | None => false
                                end) lattice)
  = (9 * List.length (filter mem range3))%nat.
Proof.
  rewrite (filter_ext_in _
             (fun p => match at3 p (axisIndex ax) with
                       | Some v => memOf (mem (-1)) (mem 0) (mem 1) v
                       | None => false
                       end) lattice).
  - rewrite (filter_ext_in mem (memOf (mem (-1)) (mem 0) (mem 1)) range3)
      by apply memOf_range.
    generalize (mem (-1)) (mem 0) (mem 1). intros b1 b2 b3.
    destruct b1, b2, b3, ax; vm_compute; reflexivity.
  - intros p Hp. destruct (lattice_coordinate p ax Hp) as [v [-> Hv]].
    apply memOf_range. exact Hv.
Qed.

(** X10. On a reachable snapshot the active group of a move has nine
    pieces for each of the layers -1, 0, 1 that its [slice] names, and
    the two groups have the 27 pieces between them. *)
Theorem active_pieces_count (s : list CubieState) (m : Move) :
  reachable s ->
  List.length (activeGroup (Some m) s)
  = (9 * List.length (filter (inSlice (slice m)) range3))%nat
  /\ (List.length (activeGroup (Some m) s)
      + List.length (staticGroup (Some m) s) = 27)%nat.
Proof.
  intros Hs. pose proof (reachable_wellFormed _ Hs) as [Ho Hp _].
  assert (Hlen : List.length s = 27%nat).
  { rewrite <- (length_map initialPosition), Ho. reflexivity. }
  split.
  - unfold activeGroup, groups. rewrite groups_fold. cbn [fst app].
    rewrite <- (layer_count (inSlice (slice m)) (axis m)).
    rewrite <- (filter_length_perm _ _ _ Hp).
    rewrite <- count_by_position. reflexivity.
  - rewrite <- length_app, <- Hlen. apply Permutation_length.
    apply groups_perm.
Qed.

Lemma active_pieces_count_witness :
  reachable afterRUR'
  /\ List.length (activeGroup (Some (mkMove AxisX [1; 0] 1)) afterRUR') = 18%nat.
Proof.
  assert (Hr : reachable afterRUR').
  { unfold afterRUR', play; cbn [fold_left].
    repeat (apply reach_move; [| apply valid_turn; simpl; auto]).
    apply reach_init. }
  split; [exact Hr |].
  exact (proj1 (active_pieces_count afterRUR' (mkMove AxisX [1; 0] 1) Hr)).
Defined.

Lemma commitQuat_changes (q : THREE.Quaternion) (ax : Axis) (d : Z) :
  In q cubeGroup -> In d turns -> commitQuat q ax d <> q.
Proof.
  intros Hq Hd.
  assert (H : forallb (fun q => forallb (fun ax => forallb (fun d =>
                if Quaternion_eq_dec (commitQuat q ax d) q
                then false else true) turns) axes) cubeGroup = true)
    by (vm_compute; reflexivity).
  apply (forallb_In _ _ q) in H; [| assumption].
  apply (forallb_In _ _ ax) in H; [| apply in_axes].
  apply (forallb_In _ _ d) in H; [| assumption].
  cbv beta in H.
  destruct (Quaternion_eq_dec (commitQuat q ax d) q); [discriminate | assumption].
Qed.

Lemma turnCubie_changes (ax : Axis) (d : Z) (c : CubieState) :
  In (quaternion c) cubeGroup -> In d turns -> turnCubie ax d c <> c.
Proof.
  destruct c as [i ip p r q]. cbn [quaternion]. intros Hq Hd F.
  unfold turnCubie in F.
  cbn [id initialPosition position rotation quaternion] in F.
  injection F as _ F. exact (commitQuat_changes _ _ _ Hq Hd F).
Qed.

(** X11. The two places that test the layers of a move agree: on a
    reachable snapshot and for a valid move, the pieces of the active
    group are exactly the pieces the commit changes, and the pieces of
    the static group exactly those it returns as they are. *)
Theorem commit_changes_active (s : list CubieState) (m : Move)
    (c : CubieState) :
  reachable s -> validMove m -> In c s ->
  (In c (activeGroup (Some m) s) <-> commitCubie m c <> c)
  /\ (In c (staticGroup (Some m) s) <-> commitCubie m c = c).
Proof.
  intros Hs Hm Hc. apply reachable_pieces in Hs. apply validMove_turns in Hm.
  rewrite Forall_forall in Hs. destruct (Hs c Hc) as [_ Hq].
  pose proof (turnCubie_changes (axis m) (direction m) c Hq Hm) as N.
  unfold activeGroup, staticGroup, groups. rewrite groups_fold.
  cbn [fst snd app]. rewrite !filter_In, (commitCubie_turnCubie m c).
  destruct (affected m c) eqn:E; cbn [negb].
  - split; split.
    + intros _. exact N.
    + intros _. split; [exact Hc | reflexivity].
    + intros [_ F]. discriminate F.
    + intros F. contradiction.
  - split; split.
    + intros [_ F]. discriminate F.
    + intros F. now contradiction F.
    + reflexivity.
    + intros _. split; [exact Hc | reflexivity].
Qed.

Lemma commit_changes_active_witness :
  reachable getInitialState /\ validMove (turn AxisY 1 1)
  /\ In bottomCenter getInitialState
  /\ (In bottomCenter (staticGroup (Some (turn AxisY 1 1)) getInitialState)
      <-> commitCubie (turn AxisY 1 1) bottomCenter = bottomCenter).
Proof.
  assert (Hm : validMove (turn AxisY 1 1)) by (apply valid_turn; simpl; auto).
  assert (Hc : In bottomCenter getInitialState).
  { apply (dec_true (in_dec CubieState_eq_dec bottomCenter getInitialState)).
    vm_compute. reflexivity. }
  split; [exact reach_init | split; [exact Hm | split; [exact Hc |]]].
  exact (proj2 (commit_changes_active getInitialState _ bottomCenter
                  reach_init Hm Hc)).
Defined.

(** ** [getNotationMove] *)

Lemma bestStep_fold_In (target : THREE.Vector3) (l : list GlobalAxis)
    (acc : GlobalAxis * option K) :
  fst (fold_left (bestStep target) l acc) = fst acc
  \/ In (fst (fold_left (bestStep target) l acc)) l.
Proof.
  revert acc. induction l as [| g l IH]; intros acc; [left; reflexivity |].
  cbn [fold_left]. destruct (IH (bestStep target acc g)) as [E | E].
  - rewrite E. unfold bestStep.
    destruct (above (THREE.dot (g_vec g) target) (snd acc)).
    + right. left. reflexivity.
    + left. reflexivity.
  - right. right. exact E.
Qed.

Lemma bestMatch_In (target : THREE.Vector3) : In (bestMatch target) globalAxes.
Proof.
  unfold bestMatch.
  destruct (bestStep_fold_In target globalAxes
              (mkGlobalAxis AxisX 1 (THREE.ofArr (1, 0, 0)), None)) as [E | E].
  - rewrite E. left. reflexivity.
  - exact E.
Qed.

Lemma bestMatch_slice (target : THREE.Vector3) :
  g_slice (bestMatch target) = 1 \/ g_slice (bestMatch target) = -1.
Proof.
  pose proof (bestMatch_In target) as H. unfold globalAxes in H.
  cbn [In] in H.
  destruct H as [<- | [<- | [<- | [<- | [<- | [<- | []]]]]]];
    cbn [g_slice]; tauto.
Qed.

Lemma finalMove_shape (notation : string) (baseChar : ascii)
    (b : GlobalAxis) :
  g_slice b = 1 \/ g_slice b = -1 ->
  validMove (finalMove notation baseChar b)
  /\ exists g,
       (g = 1 \/ g = -1)
       /\ (slice (finalMove notation baseChar b) = [g]
           \/ slice (finalMove notation baseChar b) = [0]
           \/ slice (finalMove notation baseChar b) = [g; 0])
       /\ (direction (finalMove notation baseChar b) = - g
           \/ direction (finalMove notation baseChar b) = g
           \/ direction (finalMove notation baseChar b) = - (2 * g)).
Proof.
  intros Hb. unfold finalMove, validMove. cbv zeta. cbn [slice direction].
  split.
  - destruct Hb as [E | E]; rewrite E;
      destruct (isSliceLetter baseChar),
               (negb (sameChar (toUpperCase baseChar) baseChar)),
               (endsWith notation "'"), (endsWith notation "2");
      (split;
       [ repeat first [apply Forall_nil | apply Forall_cons; [simpl; tauto |]]
       | simpl; tauto ]).
  - exists (g_slice b). split; [exact Hb |]. split.
    + destruct (isSliceLetter baseChar),
               (negb (sameChar (toUpperCase baseChar) baseChar)); tauto.
    + destruct (endsWith notation "'"), (endsWith notation "2"); lia.
Qed.

(** X12. [getNotationMove] fails on the empty notation only, and any
    other notation, for any camera, gives a valid move of one or two
    layers: the layer [g] of a face, 1 or -1, the middle layer 0, or
    the two of them, [g] first, turned by the direction [- g], [g] or
    [- 2 g]. *)
Theorem getNotationMove_valid (notation : string) (camera : Camera) :
  match getNotationMove notation camera with
  | None => notation = EmptyString
  | Some m =>
      notation <> EmptyString
      /\ validMove m
      /\ exists g,
           (g = 1 \/ g = -1)
           /\ (slice m = [g] \/ slice m = [0] \/ slice m = [g; 0])
           /\ (direction m = - g \/ direction m = g
               \/ direction m = - (2 * g))
  end.
Proof.
  destruct notation as [| baseChar rest]; [reflexivity |].
  unfold getNotationMove. split; [discriminate |].
  apply finalMove_shape, bestMatch_slice.
Qed.

Lemma bestStep_fold_max (target : THREE.Vector3) (l : list GlobalAxis)
    (b : GlobalAxis) (bound : option K) :
  (forall d, bound = Some d -> d = THREE.dot (g_vec b) target) ->
  let r := fold_left (bestStep target) l (b, bound) in
  (forall d, snd r = Some d -> d = THREE.dot (g_vec (fst r)) target)
  /\ (forall g, In g l ->
        (toR (THREE.dot (g_vec g) target)
         <= toR (THREE.dot (g_vec (fst r)) target))%R)
  /\ (forall d, bound = Some d ->
        (toR d <= toR (THREE.dot (g_vec (fst r)) target))%R)
  /\ (l <> [] -> snd r <> None).
Proof.
  revert b bound. induction l as [| g l IH]; intros b bound Hb r.
  - subst r. cbn [fold_left fst snd]. split; [exact Hb |].
    split; [intros g [] |]. split.
    + intros d Hd. rewrite (Hb d Hd). apply Rle_refl.
    + intros F. now contradiction F.
  - subst r. cbn [fold_left].
    assert (E : bestStep target (b, bound) g
                = if above (THREE.dot (g_vec g) target) bound
                  then (g, Some (THREE.dot (g_vec g) target))
                  else (b, bound)) by reflexivity.
    rewrite E. clear E.
    destruct (above (THREE.dot (g_vec g) target) bound) eqn:A.
    + destruct (IH g (Some (THREE.dot (g_vec g) target))) as [I1 [I2 [I3 I4]]].
      { intros d [= <-]. reflexivity. }
      split; [exact I1 |]. split; [| split].
      * intros g' [<- | Hg']; [apply (I3 _ eq_refl) | apply I2, Hg'].
      * intros d Hd. subst bound. cbn [above] in A.
        apply ltb_spec in A.
        apply Rle_trans with (toR (THREE.dot (g_vec g) target)).
        -- apply Rlt_le. exact A.
        -- apply (I3 _ eq_refl).
      * intros _. destruct l as [| g' l'].
        -- intros F. cbn [fold_left snd] in F. discriminate F.
        -- apply I4. discriminate.
    + destruct bound as [m |]; [| discriminate A]. cbn [above] in A.
      destruct (IH b (Some m) Hb) as [I1 [I2 [I3 I4]]].
      split; [exact I1 |]. split; [| split].
      * intros g' [<- | Hg']; [| apply I2, Hg'].
        apply Rle_trans with (toR m); [| apply (I3 _ eq_refl)].
        apply Rnot_lt_le. intros F. apply ltb_spec in F.
        unfold Surd.gtb in A. rewrite F in A. discriminate A.
      * exact I3.
      * intros _. destruct l as [| g' l'].
        -- intros F. cbn [fold_left snd] in F. discriminate F.
        -- apply I4. discriminate.
Qed.

(** X13. The global axis that [getNotationMove] picks is one whose dot
    product with the target direction is largest among the six. *)
Theorem bestMatch_maximal (target : THREE.Vector3) (g : GlobalAxis) :
  In g globalAxes ->
  Surd.leb (THREE.dot (g_vec g) target)
           (THREE.dot (g_vec (bestMatch target)) target) = true.
Proof.
  intros Hg. apply leb_spec. unfold bestMatch.
  destruct (bestStep_fold_max target globalAxes
              (mkGlobalAxis AxisX 1 (THREE.ofArr (1, 0, 0))) None)
    as [_ [H _]]; [discriminate |].
  exact (H g Hg).
Qed.

Lemma bestMatch_maximal_witness :
  In (mkGlobalAxis AxisY (-1) (THREE.ofArr (0, -1, 0))) globalAxes
  /\ Surd.leb (THREE.dot (THREE.ofArr (0, -1, 0)) (THREE.ofArr (1, 2, 3)))
              (THREE.dot (g_vec (bestMatch (THREE.ofArr (1, 2, 3))))
                         (THREE.ofArr (1, 2, 3))) = true.
Proof.
  assert (H : In (mkGlobalAxis AxisY (-1) (THREE.ofArr (0, -1, 0))) globalAxes)
    by (simpl; tauto).
  split; [exact H |].
  exact (bestMatch_maximal (THREE.ofArr (1, 2, 3)) _ H).
Defined.

Lemma endsWith_cons (c x : ascii) (rest : string) :
  endsWith (String c rest) x
  = match rest with
    | EmptyString => Ascii.eqb c x
    | String _ _ => endsWith rest x
    end.
Proof. destruct rest; reflexivity. Qed.

Lemma eqb_false (c x : ascii) : c <> x -> Ascii.eqb c x = false.
Proof. intros H. apply Ascii.eqb_neq. exact H. Qed.

Lemma finalMove_suffix (c : ascii) (b : GlobalAxis) :
  c <> "'"%char -> c <> "2"%char ->
  finalMove (String c "'") c b = inverse (finalMove (String c EmptyString) c b)
  /\ finalMove (String c "2") c b
     = doubled (finalMove (String c EmptyString) c b).
Proof.
  intros H1 H2. unfold finalMove.
  rewrite !endsWith_cons. cbv iota.
  rewrite (eqb_false _ _ H1), (eqb_false _ _ H2).
  change (Ascii.eqb "'" "'") with true. change (Ascii.eqb "'" "2") with false.
  change (Ascii.eqb "2" "'") with false. change (Ascii.eqb "2" "2") with true.
  cbv iota zeta. unfold inverse, doubled. cbn [axis slice direction].
  split; apply (f_equal (mkMove _ _)); lia.
Qed.

Lemma getNotationMove_suffix (c : ascii) (camera : Camera) :
  c <> "'"%char -> c <> "2"%char ->
  getNotationMove (String c "'") camera
  = option_map inverse (getNotationMove (String c EmptyString) camera)
  /\ getNotationMove (String c "2") camera
     = option_map doubled (getNotationMove (String c EmptyString) camera).
Proof.
  intros H1 H2. unfold getNotationMove, option_map.
  destruct (finalMove_suffix c (bestMatch (target camera (targetFace c)))
              H1 H2) as [-> ->].
  split; reflexivity.
Qed.

(** X14. For a letter other than the quote and the digit 2 and for the
    same camera, the primed notation gives the inverse of the move of
    the plain one, and the notation with 2 gives that move with twice
    the direction. *)
Theorem notation_prime_and_double (c : ascii) (camera : Camera) :
  c <> "'"%char -> c <> "2"%char ->
  getNotationMove (String c "'") camera
  = option_map inverse (getNotationMove (String c EmptyString) camera)
  /\ getNotationMove (String c "2") camera
     = option_map doubled (getNotationMove (String c EmptyString) camera).
Proof. apply getNotationMove_suffix. Qed.

Lemma notation_prime_and_double_witness :
  "R"%char <> "'"%char /\ "R"%char <> "2"%char
  /\ getNotationMove "R'" frontCamera
     = option_map inverse (getNotationMove "R" frontCamera).
Proof.
  assert (H1 : "R"%char <> "'"%char) by discriminate.
  assert (H2 : "R"%char <> "2"%char) by discriminate.
  split; [exact H1 | split; [exact H2 |]].
  exact (proj1 (notation_prime_and_double "R" frontCamera H1 H2)).
Defined.

(** Evaluation of the tests on a given letter. *)
Ltac eval_chars :=
  repeat match goal with
         | |- context [targetFace ?c] =>
             let v := eval vm_compute in (targetFace c) in
             change (targetFace c) with v
         | |- context [toUpperCase ?c] =>
             let v := eval vm_compute in (toUpperCase c) in
             change (toUpperCase c) with v
         | |- context [sameChar ?s ?c] =>
             let v := eval vm_compute in (sameChar s c) in
             change (sameChar s c) with v
         | |- context [isSliceLetter ?c] =>
             let v := eval vm_compute in (isSliceLetter c) in
             change (isSliceLetter c) with v
         | |- context [Ascii.eqb ?c ?d] =>
             let v := eval vm_compute in (Ascii.eqb c d) in
             change (Ascii.eqb c d) with v
         end;
  cbv iota zeta; cbn [negb].

(** X15. The letters of the middle layers and of the wide moves follow
    the faces: with the same suffix and camera, M, E and S give the
    move of L, D and F with the layer 0 in place of the face layer, and
    u, d, f, b, l, r, whose capitals are U, D, F, B, L, R, give the
    move of their capital with the layer 0 added to the face layer. *)
Theorem notation_letter_families (rest : string) (camera : Camera) :
  Forall (fun cf : ascii * ascii =>
            getNotationMove (String (fst cf) rest) camera
            = option_map (fun m => mkMove (axis m) [0] (direction m))
                         (getNotationMove (String (snd cf) rest) camera))
         sliceLetters
  /\ Forall (fun cf : ascii * ascii =>
               toUpperCase (fst cf) = Some (snd cf)
               /\ getNotationMove (String (fst cf) rest) camera
                  = option_map
                      (fun m => mkMove (axis m) (slice m ++ [0]) (direction m))
                      (getNotationMove (String (snd cf) rest) camera))
            wideLetters.
Proof.
  split; repeat apply Forall_cons; try apply Forall_nil; cbn [fst snd];
    try (split; [reflexivity |]);
    unfold getNotationMove, option_map; eval_chars;
    match goal with
    | |- context [bestMatch ?t] => generalize (bestMatch t); intros b
    end;
    unfold finalMove; rewrite !endsWith_cons; eval_chars;
    cbn [axis slice direction app];
    destruct rest; reflexivity.
Qed.






(** ** The selection of the engine *)

Lemma evalCandidate_ok (cubies : list CubieState) (center : CubieState) :
  candOk (evalCandidate cubies center).
Proof.
  unfold evalCandidate, candOk.
  repeat match goal with
         | |- context [if ?b then _ else _] => destruct b
         | |- context [match ?o with Some _ => _ | None => _ end] => destruct o
         end;
    cbn [currentPhase cand_missingCount cand_f2lTag ollCaseResult
         pllCaseResult phaseValue];
    (split; [lia |]); intuition congruence.
Qed.

Lemma phaseValue_inj (p q : Phase) : phaseValue p = phaseValue q -> p = q.
Proof. destruct p, q; cbn; intros H; try reflexivity; discriminate H. Qed.

Lemma candOk_F2L_cases (cand : Candidate) :
  candOk cand -> currentPhase cand = F2L ->
  ollCaseResult cand = None /\ pllCaseResult cand = None.
Proof.
  intros [_ [_ [_ [Ho Hp]]]] E. split.
  - destruct (ollCaseResult cand); [| reflexivity].
    assert (F : currentPhase cand = OLL) by (apply Ho; discriminate).
    rewrite E in F. discriminate F.
  - destruct (pllCaseResult cand); [| reflexivity].
    assert (F : currentPhase cand = PLL) by (apply Hp; discriminate).
    rewrite E in F. discriminate F.
Qed.

Lemma consider_selected (cubies seen : list CubieState) (b : Best)
    (c : CubieState) :
  selected cubies seen b -> isCrossSolved cubies c = true ->
  selected cubies (seen ++ [c]) (consider c b (evalCandidate cubies c)).
Proof.
  intros Hsel Hc. right.
  pose proof (evalCandidate_ok cubies c) as Hok.
  set (cand := evalCandidate cubies c) in *.
  assert (Hnew : forall seen' : list CubieState,
            (forall x, In x seen' -> isCrossSolved cubies x = true ->
               phaseValue (currentPhase (evalCandidate cubies x))
               < phaseValue (currentPhase cand)) ->
            seen' = seen ->
            exists base, In base (seen ++ [c])
              /\ isCrossSolved cubies base = true
              /\ bestOf c cand = bestOf base (evalCandidate cubies base)
              /\ dominates cubies (seen ++ [c]) (bestOf c cand)).
  { intros seen' Hlt ->. exists c. split; [apply in_or_app; right; left; reflexivity |].
    split; [exact Hc |]. split; [reflexivity |].
    intros x Hx Hxc. apply in_app_or in Hx. cbn [bestOf bestPhase bestMissingCount].
    destruct Hx as [Hx | [<- | []]].
    - specialize (Hlt x Hx Hxc). split; [lia |].
      intros E1 E2. fold cand in E2. rewrite E1, E2 in Hlt. lia.
    - fold cand. split; lia. }
  unfold consider.
  destruct Hsel as [[-> Hnone] | [base [Hb [Hbc [-> Hdom]]]]].
  - cbn [initialBest bestPhase phaseValue].
    destruct Hok as [Hrank _].
    destruct (phaseValue (currentPhase cand) >? 0) eqn:G;
      [| rewrite Z.gtb_ltb in G; apply Z.ltb_ge in G; lia].
    apply (Hnew seen); [| reflexivity].
    intros x Hx Hxc. rewrite (Hnone x Hx) in Hxc. discriminate Hxc.
  - pose proof (evalCandidate_ok cubies base) as Hokb.
    set (candB := evalCandidate cubies base) in *.
    cbn [bestOf bestPhase bestMissingCount bestOLLCase bestPLLCase].
    destruct (phaseValue (currentPhase cand) >? phaseValue (currentPhase candB))
      eqn:G.
    + rewrite Z.gtb_ltb in G; apply Z.ltb_lt in G.
      apply (Hnew seen); [| reflexivity].
      intros x Hx Hxc. destruct (Hdom x Hx Hxc) as [Hle _].
      cbn [bestOf bestPhase] in Hle. lia.
    + rewrite Z.gtb_ltb in G; apply Z.ltb_ge in G.
      destruct (phaseValue (currentPhase cand) =? phaseValue (currentPhase candB))
        eqn:Q.
      * apply Z.eqb_eq in Q. pose proof (phaseValue_inj _ _ Q) as Qp.
        destruct (Phase_eqb (currentPhase cand) F2L) eqn:F; cbn [andb].
        -- apply Z.eqb_eq, phaseValue_inj in F.
           assert (FB : currentPhase candB = F2L) by (rewrite <- Qp; exact F).
           destruct (orZero (cand_missingCount cand)
                     <? orZero (cand_missingCount candB)) eqn:M.
           ++ apply Z.ltb_lt in M.
              destruct (candOk_F2L_cases _ Hok F) as [Eo' Ep'].
              destruct (candOk_F2L_cases _ Hokb FB) as [Eo Ep].
              exists c. split; [apply in_or_app; right; left; reflexivity |].
              split; [exact Hc |]. split.
              { unfold bestOf. fold cand.
                rewrite Eo, Ep, Eo', Ep', FB, F. reflexivity. }
              intros x Hx Hxc. apply in_app_or in Hx.
              cbn [bestPhase bestMissingCount].
              destruct Hx as [Hx | [<- | []]].
              ** destruct (Hdom x Hx Hxc) as [Hle Hm].
                 cbn [bestOf bestPhase bestMissingCount] in Hle, Hm.
                 split; [exact Hle |]. intros E1 E2.
                 specialize (Hm E1 E2). lia.
              ** fold cand. split; [lia |]. intros _ _. lia.
           ++ apply Z.ltb_ge in M.
              exists base. split; [apply in_or_app; left; exact Hb |].
              split; [exact Hbc |]. split; [reflexivity |].
              intros x Hx Hxc. apply in_app_or in Hx.
              destruct Hx as [Hx | [<- | []]]; [apply (Hdom x Hx Hxc) |].
              fold cand. cbn [bestOf bestPhase bestMissingCount].
              split; [lia |]. intros _ _. exact M.
        -- exists base. split; [apply in_or_app; left; exact Hb |].
           split; [exact Hbc |]. split; [reflexivity |].
           intros x Hx Hxc. apply in_app_or in Hx.
           destruct Hx as [Hx | [<- | []]]; [apply (Hdom x Hx Hxc) |].
           fold cand. cbn [bestOf bestPhase bestMissingCount].
           split; [lia |]. intros E1 _. rewrite E1 in F. discriminate F.
      * cbn [andb]. apply Z.eqb_neq in Q.
        exists base. split; [apply in_or_app; left; exact Hb |].
        split; [exact Hbc |]. split; [reflexivity |].
        intros x Hx Hxc. apply in_app_or in Hx.
        destruct Hx as [Hx | [<- | []]]; [apply (Hdom x Hx Hxc) |].
        fold cand. cbn [bestOf bestPhase bestMissingCount].
        split; [lia |]. intros E1 E2. fold candB in E2.
        rewrite E1, E2 in Q. now contradiction Q.
Qed.

Lemma loopBody_selected (cubies seen : list CubieState) (b : Best)
    (c : CubieState) :
  selected cubies seen b ->
  selected cubies (seen ++ [c]) (loopBody cubies c b).
Proof.
  intros Hsel. unfold loopBody.
  destruct (isCrossSolved cubies c) eqn:Hc; cbn [negb].
  - apply consider_selected; assumption.
  - destruct Hsel as [[-> Hnone] | [base [Hb [Hbc [-> Hdom]]]]].
    + left. split; [reflexivity |].
      intros x Hx. apply in_app_or in Hx.
      destruct Hx as [Hx | [<- | []]]; [apply Hnone, Hx | exact Hc].
    + right. exists base. split; [apply in_or_app; left; exact Hb |].
      split; [exact Hbc |]. split; [reflexivity |].
      intros x Hx Hxc. apply in_app_or in Hx.
      destruct Hx as [Hx | [<- | []]]; [apply (Hdom x Hx Hxc) |].
      rewrite Hc in Hxc. discriminate Hxc.
Qed.

Lemma fold_loopBody_selected (cubies l seen : list CubieState) (b : Best) :
  selected cubies seen b ->
  selected cubies (seen ++ l)
    (fold_left (fun best center => loopBody cubies center best) l b).
Proof.
  revert seen b. induction l as [| c l IH]; intros seen b Hsel.
  - rewrite app_nil_r. exact Hsel.
  - cbn [fold_left].
    replace (seen ++ c :: l) with ((seen ++ [c]) ++ l)
      by (rewrite <- app_assoc; reflexivity).
    apply IH, loopBody_selected, Hsel.
Qed.

Lemma finalBest_selected (cubies : list CubieState) :
  selected cubies (centers cubies) (finalBest cubies).
Proof.
  apply (fold_loopBody_selected cubies (centers cubies) [] initialBest).
  left. split; [reflexivity | intros c []].
Qed.


Lemma analyzeCube_resultOf (cubies : list CubieState) (base : CubieState) :
  finalBest cubies = bestOf base (evalCandidate cubies base) ->
  analyzeCube cubies = resultOf base (evalCandidate cubies base).
Proof.
  intros E. unfold analyzeCube. rewrite E. cbv zeta.
  cbn [bestOf bestPhase bestBase bestF2LTag bestMissingCount bestOLLCase
       bestPLLCase].
  destruct (evalCandidate_ok cubies base) as [Hrank _].
  unfold Phase_eqb at 1. cbn [phaseValue].
  destruct (Z.eqb_spec (phaseValue (currentPhase (evalCandidate cubies base))) 0);
    [lia | reflexivity].
Qed.


(** X18. When some cross is solved the answer of [analyzeCube] is the
    evaluation of one center with a solved cross, whose colour is
    [baseColor], and no center with a solved cross does better: none
    reaches a later phase, and within ['F2L'] none has fewer missing
    pieces. *)
Theorem analyzeCube_selects (cubies : list CubieState) :
  phase (analyzeCube cubies) <> Cross ->
  exists base,
    In base (centers cubies) /\ isCrossSolved cubies base = true
    /\ analyzeCube cubies = resultOf base (evalCandidate cubies base)
    /\ forall c, In c (centers cubies) -> isCrossSolved cubies c = true ->
         phaseValue (currentPhase (evalCandidate cubies c))
         <= phaseValue (phase (analyzeCube cubies))
         /\ (currentPhase (evalCandidate cubies c) = F2L ->
             phase (analyzeCube cubies) = F2L ->
             orZero (missingCount (analyzeCube cubies))
             <= orZero (cand_missingCount (evalCandidate cubies c))).
Proof.
  intros Hph.
  destruct (finalBest_selected cubies)
    as [[E _] | [base [Hb [Hbc [E Hdom]]]]].
  - exfalso. apply Hph. unfold analyzeCube. rewrite E. reflexivity.
  - exists base. split; [exact Hb |]. split; [exact Hbc |].
    pose proof (analyzeCube_resultOf _ _ E) as R.
    split; [exact R |]. rewrite R. rewrite E in Hdom.
    unfold resultOf. cbn [phase missingCount].
    exact Hdom.
Qed.

Lemma analyzeCube_selects_witness :
  phase (analyzeCube afterRUR') <> Cross
  /\ exists base, In base (centers afterRUR')
       /\ analyzeCube afterRUR' = resultOf base (evalCandidate afterRUR' base).
Proof.
  assert (H : phase (analyzeCube afterRUR') <> Cross)
    by (vm_compute; discriminate).
  split; [exact H |].
  destruct (analyzeCube_selects afterRUR' H) as [base [H1 [_ [H2 _]]]].
  exists base. split; assumption.
Defined.

(** ** The sets of pieces the engine works with *)

Lemma filter_by_origin (P : CubieState -> bool) (P' : Vector3Arr -> bool)
    (s : list CubieState) :
  (forall c, P c = P' (initialPosition c)) ->
  map initialPosition (filter P s) = filter P' (map initialPosition s).
Proof.
  intros H. induction s as [| c s IH]; [reflexivity |].
  cbn [filter map]. rewrite <- H. destruct (P c); cbn [map]; now rewrite IH.
Qed.

Lemma census_table :
  List.length centerOrigins = 6%nat
  /\ List.length edgeOrigins = 12%nat
  /\ List.length cornerOrigins = 8%nat
  /\ forallb (fun cp =>
       (List.length (filter (crossP cp) edgeOrigins) =? 4)%nat
       && (List.length (filter (baseP cp) cornerOrigins) =? 4)%nat
       && (if list_eq_dec Vector3Arr_eq_dec
                (filter (oppositeP cp) centerOrigins) [negArr cp]
           then true else false)
       && (List.length (filter (topCorner (negArr cp))
                          (edgeOrigins ++ cornerOrigins)) =? 8)%nat)
       centerOrigins = true.
Proof. vm_compute. repeat split. Qed.

Lemma find_by_origin (P : CubieState -> bool) (P' : Vector3Arr -> bool)
    (l : list CubieState) (q : Vector3Arr) :
  (forall c, P c = P' (initialPosition c)) ->
  filter P' (map initialPosition l) = [q] ->
  exists x, find P l = Some x /\ In x l /\ initialPosition x = q.
Proof.
  intros H. induction l as [| c l IH]; [discriminate |].
  cbn [filter map find]. rewrite <- H. destruct (P c).
  - intros [= E _]. exists c. split; [reflexivity |].
    split; [left; reflexivity | exact E].
  - intros E. destruct (IH E) as [x [Hx [Hin Hq]]].
    exists x. split; [exact Hx |]. split; [right; exact Hin | exact Hq].
Qed.

Section Census.

Variable s : list CubieState.
Hypothesis Horigins : map initialPosition s = lattice.

Lemma centers_origins : map initialPosition (centers s) = centerOrigins.
Proof.
  unfold centers. rewrite (filter_by_origin isCenter centerP).
  - rewrite Horigins. reflexivity.
  - intros c. apply isCenter_origin.
Qed.

Lemma edges_origins : map initialPosition (edges s) = edgeOrigins.
Proof.
  unfold edges. rewrite (filter_by_origin isEdge edgeP).
  - rewrite Horigins. reflexivity.
  - intros c. reflexivity.
Qed.

Lemma corners_origins : map initialPosition (corners s) = cornerOrigins.
Proof.
  unfold corners. rewrite (filter_by_origin isCorner cornerP).
  - rewrite Horigins. reflexivity.
  - intros c. apply isCorner_origin.
Qed.

Lemma center_origin (center : CubieState) :
  In center (centers s) -> In (initialPosition center) centerOrigins.
Proof.
  intros H. rewrite <- centers_origins. apply in_map, H.
Qed.

Lemma crossEdges_origin (center : CubieState) :
  crossEdges s center
  = filter (fun e => crossP (initialPosition center) (initialPosition e))
           (edges s).
Proof. unfold crossEdges, crossP. reflexivity. Qed.

Lemma baseCorners_origin (center : CubieState) :
  baseCorners s center
  = filter (fun c => baseP (initialPosition center) (initialPosition c))
           (corners s).
Proof. unfold baseCorners, baseAxisIndex, baseP. reflexivity. Qed.

Lemma topCenter_origin (center : CubieState) :
  topCenter s center
  = find (fun c => oppositeP (initialPosition center) (initialPosition c))
         (centers s).
Proof. unfold topCenter, oppositeP. reflexivity. Qed.

Lemma topPieces_origin (tc : CubieState) :
  topPieces s tc
  = filter (fun p => topCorner (initialPosition tc) (initialPosition p))
           (edges s ++ corners s).
Proof.
  unfold topPieces. apply filter_ext. intros p. apply onTopLayer_topCorner.
Qed.

Lemma census_of (center : CubieState) :
  In center (centers s) ->
  List.length (crossEdges s center) = 4%nat
  /\ List.length (baseCorners s center) = 4%nat
  /\ exists tc, topCenter s center = Some tc /\ In tc (centers s)
       /\ initialPosition tc = negArr (initialPosition center)
       /\ List.length (topPieces s tc) = 8%nat.
Proof.
  intros Hc. pose proof (center_origin _ Hc) as Hcp.
  destruct census_table as [_ [_ [_ T]]].
  apply (forallb_In _ _ _ T) in Hcp. clear T.
  apply andb_prop in Hcp as [Hcp T4]. apply andb_prop in Hcp as [Hcp T3].
  apply andb_prop in Hcp as [T1 T2].
  apply Nat.eqb_eq in T1, T2, T4. apply dec_true in T3.
  split; [| split].
  - rewrite <- (length_map initialPosition), crossEdges_origin.
    rewrite (filter_by_origin
               (fun e => crossP (initialPosition center) (initialPosition e))
               (crossP (initialPosition center)))
      by (intros c; reflexivity).
    rewrite edges_origins. exact T1.
  - rewrite <- (length_map initialPosition), baseCorners_origin.
    rewrite (filter_by_origin
               (fun c => baseP (initialPosition center) (initialPosition c))
               (baseP (initialPosition center)))
      by (intros c; reflexivity).
    rewrite corners_origins. exact T2.
  - destruct (find_by_origin
                (fun c => oppositeP (initialPosition center)
                                    (initialPosition c))
                (oppositeP (initialPosition center)) (centers s)
                (negArr (initialPosition center)))
      as [tc [Hf [Hin Htc]]].
    + intros c. reflexivity.
    + rewrite centers_origins. exact T3.
    + exists tc. split; [rewrite topCenter_origin; exact Hf |].
      split; [exact Hin |]. split; [exact Htc |].
      rewrite <- (length_map initialPosition), topPieces_origin.
      rewrite (filter_by_origin
                 (fun p => topCorner (initialPosition tc) (initialPosition p))
                 (topCorner (initialPosition tc)))
        by (intros c; reflexivity).
      rewrite map_app, edges_origins, corners_origins, Htc. exact T4.
Qed.

End Census.

(** X19. On a reachable snapshot the engine finds 6 centers, 12 edges
    and 8 corners, and for each center 4 cross edges, 4 base corners
    and the opposite center as [topCenter], which is always found and
    has 8 pieces in its layer. *)
Theorem piece_census (s : list CubieState) (center : CubieState) :
  reachable s -> In center (centers s) ->
  List.length (centers s) = 6%nat
  /\ List.length (edges s) = 12%nat
  /\ List.length (corners s) = 8%nat
  /\ List.length (crossEdges s center) = 4%nat
  /\ List.length (baseCorners s center) = 4%nat
  /\ exists tc, topCenter s center = Some tc /\ In tc (centers s)
       /\ initialPosition tc = negArr (initialPosition center)
       /\ List.length (topPieces s tc) = 8%nat.
Proof.
  intros Hs Hc. apply reachable_wellFormed in Hs as [Ho _ _].
  destruct census_table as [T1 [T2 [T3 _]]].
  split; [| split; [| split]].
  - rewrite <- (length_map initialPosition), (centers_origins s Ho). exact T1.
  - rewrite <- (length_map initialPosition), (edges_origins s Ho). exact T2.
  - rewrite <- (length_map initialPosition), (corners_origins s Ho). exact T3.
  - apply (census_of s Ho center Hc).
Qed.

Lemma piece_census_witness :
  reachable getInitialState /\ In bottomCenter (centers getInitialState)
  /\ List.length (crossEdges getInitialState bottomCenter) = 4%nat.
Proof.
  assert (Hc : In bottomCenter (centers getInitialState)).
  { apply (dec_true (in_dec CubieState_eq_dec bottomCenter
                       (centers getInitialState))).
    vm_compute. reflexivity. }
  split; [exact reach_init | split; [exact Hc |]].
  exact (proj1 (proj2 (proj2 (proj2
           (piece_census getInitialState bottomCenter reach_init Hc))))).
Defined.

(** ** The counts of the F2L stage *)

Lemma f2lStep_bounds (cubies : list CubieState) (center corner : CubieState)
    (sp sc se k : Z) :
  0 <= sp /\ sp <= sc /\ sp <= se /\ sc <= k /\ se + sc <= k + sp ->
  let '(sp', sc', se') := f2lStep cubies center (sp, sc, se) corner in
  0 <= sp' /\ sp' <= sc' /\ sp' <= se' /\ sc' <= k + 1
  /\ se' + sc' <= k + 1 + sp'.
Proof.
  intros H. unfold f2lStep.
  destruct (isCorrectlyPlaced corner center);
    destruct (find _ (edges cubies)) as [edge' |];
    try destruct (isCorrectlyPlaced edge' center);
    cbn [andb]; lia.
Qed.

Lemma f2lCounts_bounds (cubies : list CubieState) (center : CubieState)
    (l : list CubieState) (acc : Z * Z * Z) (k : Z) :
  (let '(sp, sc, se) := acc in
   0 <= sp /\ sp <= sc /\ sp <= se /\ sc <= k /\ se + sc <= k + sp) ->
  let '(sp', sc', se') := fold_left (f2lStep cubies center) l acc in
  0 <= sp' /\ sp' <= sc' /\ sp' <= se'
  /\ sc' <= k + Z.of_nat (List.length l)
  /\ se' + sc' <= k + Z.of_nat (List.length l) + sp'.
Proof.
  revert acc k. induction l as [| c l IH]; intros [[sp sc] se] k H.
  - cbn [fold_left List.length]. lia.
  - cbn [fold_left].
    pose proof (f2lStep_bounds cubies center c sp sc se k H) as S.
    specialize (IH (f2lStep cubies center (sp, sc, se) c) (k + 1)).
    destruct (f2lStep cubies center (sp, sc, se) c) as [[sp1 sc1] se1].
    specialize (IH S).
    destruct (fold_left (f2lStep cubies center) l (sp1, sc1, se1))
      as [[sp' sc'] se'].
    rewrite length_cons, Nat2Z.inj_succ. lia.
Qed.

Lemma evalCandidate_F2L_bounds (s : list CubieState) (center : CubieState) :
  map initialPosition s = lattice -> In center (centers s) ->
  currentPhase (evalCandidate s center) = F2L ->
  exists n, cand_missingCount (evalCandidate s center) = Some n
    /\ match cand_f2lTag (evalCandidate s center) with
       | None => 1 <= n <= 2
       | Some SecondLayer => 3 <= n <= 4
       | Some FirstLayer => 1 <= n <= 4
       end.
Proof.
  intros Ho Hc.
  destruct (census_of s Ho center Hc) as [_ [Hlen _]].
  pose proof (f2lCounts_bounds s center (baseCorners s center) (0, 0, 0) 0)
    as B.
  fold (f2lCounts s center) in B. rewrite Hlen in B.
  unfold evalCandidate, solvedPairs, solvedCorners, solvedEdges.
  destruct (f2lCounts s center) as [[sp sc] se]. cbn [fst snd].
  assert (B' : 0 <= sp /\ sp <= sc /\ sp <= se /\ sc <= 4 /\ se + sc <= 4 + sp)
    by (apply B; lia).
  clear B.
  destruct (Z.eqb_spec sp 4).
  - destruct (topCenter s center);
      [destruct (forallb _ _); [destruct (same _ _) |] |];
      cbn [currentPhase]; intros F; discriminate F.
  - destruct (Z.geb_spec sp 2); [| destruct (Z.eqb_spec sc 4)];
      cbn [currentPhase cand_missingCount cand_f2lTag]; intros _;
      eexists; (split; [reflexivity | lia]).
Qed.

(** X20. On a reachable snapshot in phase ['F2L'], [missingCount] is
    set and lies between 1 and 4: it is 1 or 2 when no tag is given
    (two or three pairs stand), 3 or 4 with the tag ['Second Layer'],
    and 1 to 4 with the tag ['First Layer']. *)
Theorem f2l_missing_bounds (s : list CubieState) :
  reachable s -> phase (analyzeCube s) = F2L ->
  exists n, missingCount (analyzeCube s) = Some n
    /\ match f2lTag (analyzeCube s) with
       | None => 1 <= n <= 2
       | Some SecondLayer => 3 <= n <= 4
       | Some FirstLayer => 1 <= n <= 4
       end.
Proof.
  intros Hs Hph. apply reachable_wellFormed in Hs as [Ho _ _].
  destruct (finalBest_selected s) as [[E _] | [base [Hb [_ [E _]]]]].
  - unfold analyzeCube in Hph. rewrite E in Hph. discriminate Hph.
  - rewrite (analyzeCube_resultOf _ _ E) in Hph |- *.
    unfold resultOf in Hph |- *. cbn [phase missingCount f2lTag] in Hph |- *.
    apply evalCandidate_F2L_bounds; assumption.
Qed.

Lemma f2l_missing_bounds_witness :
  reachable afterRUR' /\ phase (analyzeCube afterRUR') = F2L
  /\ exists n, missingCount (analyzeCube afterRUR') = Some n.
Proof.
  assert (Hp : phase (analyzeCube afterRUR') = F2L)
    by (vm_compute; reflexivity).
  split; [exact afterRUR'_reachable | split; [exact Hp |]].
  destruct (f2l_missing_bounds afterRUR' afterRUR'_reachable Hp) as [n [H _]].
  exists n. exact H.
Defined.

(** ** One turn away from the solved cube *)

Lemma reportedSolved_spec (cubies : list CubieState) :
  reportedSolved cubies = true ->
  phase (analyzeCube cubies) = Solved /\ isSolved (analyzeCube cubies) = true.
Proof.
  unfold reportedSolved. generalize (analyzeCube cubies). intros r H.
  cbv zeta in H.
  apply andb_prop in H as [H1 H2]. split; [| exact H2].
  apply Z.eqb_eq, phaseValue_inj in H1. exact H1.
Qed.

Lemma samePositions_false (a b : list CubieState) :
  samePositions a b = false -> map position a <> map position b.
Proof.
  unfold samePositions.
  destruct (list_eq_dec Vector3Arr_eq_dec (map position a) (map position b));
    [discriminate | intros _; assumption].
Qed.

(** X21. The engine does not see one turn of a layer: after any single
    turn of one layer of the solved cube, by a quarter or a half turn
    either way, [analyzeCube] still answers ['Solved'] with [isSolved]
    true, although the positions are no longer those of the solved
    cube. *)
Theorem single_turn_reported_solved (ax : Axis) (layer d : Z) :
  In layer range3 -> In d turns ->
  phase (analyzeCube (applyMove getInitialState (turn ax layer d))) = Solved
  /\ isSolved (analyzeCube (applyMove getInitialState (turn ax layer d))) = true
  /\ map position (applyMove getInitialState (turn ax layer d))
     <> map position getInitialState.
Proof.
  intros Hl Hd.
  assert (H : forallb (fun ax => forallb (fun layer => forallb (fun d =>
               if reportedSolved (applyMove getInitialState (turn ax layer d))
               then if samePositions
                         (applyMove getInitialState (turn ax layer d))
                         getInitialState
                    then false else true
               else false) turns) range3) axes = true)
    by (vm_compute; reflexivity).
  apply (forallb_In _ _ ax) in H; [| apply in_axes].
  apply (forallb_In _ _ layer) in H; [| assumption].
  apply (forallb_In _ _ d) in H; [| assumption].
  cbv beta in H.
  destruct (reportedSolved (applyMove getInitialState (turn ax layer d)))
    eqn:R; [| discriminate H].
  destruct (samePositions (applyMove getInitialState (turn ax layer d))
              getInitialState) eqn:P; [discriminate H |].
  destruct (reportedSolved_spec _ R) as [H1 H2].
  split; [exact H1 | split; [exact H2 |]].
  apply samePositions_false. exact P.
Qed.

Lemma single_turn_reported_solved_witness :
  In 1 range3 /\ In 1 turns
  /\ isSolved (analyzeCube (applyMove getInitialState (turn AxisY 1 1))) = true.
Proof.
  assert (Hl : In 1 range3) by (simpl; tauto).
  assert (Hd : In 1 turns) by (simpl; tauto).
  split; [exact Hl | split; [exact Hd |]].
  exact (proj1 (proj2 (single_turn_reported_solved AxisY 1 1 Hl Hd))).
Defined.

(** ** The answers of the classifiers *)

Lemma oll_twoOriented_known (tc : CubieState) (cs ocs : list CubieState) :
  List.length ocs = 2%nat ->
  exists k, oll_twoOriented tc cs ocs = Some k /\ knownOLL k = true.
Proof.
  destruct ocs as [| o1 [| o2 [| o3 l]]]; try discriminate. intros _.
  unfold oll_twoOriented.
  destruct (_ >? _)%K; [eexists; split; reflexivity |].
  destruct (filter _ cs) as [| u1 [| u2 [| u3 l]]];
    try (eexists; split; reflexivity).
  destruct (_ >? _)%K; eexists; split; reflexivity.
Qed.

Lemma identify2LookOLL_known (tops : list CubieState) (tc : CubieState) :
  exists k, identify2LookOLL tops tc = Some k /\ knownOLL k = true.
Proof.
  unfold identify2LookOLL. cbv zeta.
  set (es := filter (oll_oriented tc) (filter isEdge tops)).
  set (cs := filter isCorner tops).
  set (ocs := filter (oll_oriented tc) cs).
  destruct (List.length es <? 4)%nat.
  - destruct (Nat.eqb_spec (List.length es) 0);
      [eexists; split; reflexivity |].
    destruct (Nat.eqb_spec (List.length es) 2) as [E2 |];
      [| eexists; split; reflexivity].
    destruct es as [| e1 [| e2 l]]; try discriminate E2.
    destruct (_ <? _)%K; eexists; split; reflexivity.
  - destruct (Nat.eqb_spec (List.length ocs) 0).
    + destruct (2 <=? _)%nat; [eexists; split; reflexivity |].
      destruct (_ =? 1)%nat; eexists; split; reflexivity.
    + destruct (Nat.eqb_spec (List.length ocs) 1) as [E1 |].
      * destruct ocs as [| o l]; [discriminate E1 |].
        destruct (fst (fold_left _ cs (None, None))) as [nb |].
        -- destruct (_ >? _)%K; eexists; split; reflexivity.
        -- destruct (Nat.eqb_spec (List.length (o :: l)) 2) as [E2 |];
             [rewrite E1 in E2; discriminate E2 |].
           eexists; split; reflexivity.
      * destruct (Nat.eqb_spec (List.length ocs) 2) as [E2 |].
        -- apply oll_twoOriented_known. exact E2.
        -- eexists; split; reflexivity.
Qed.

Lemma knownOLL_spec (k : string) :
  knownOLL k = true -> k = "Unknown" \/ lookup OLL_ALGORITHMS k <> None.
Proof.
  unfold knownOLL. intros H. apply orb_prop in H as [H | H].
  - left. apply String.eqb_eq. exact H.
  - right. destruct (lookup OLL_ALGORITHMS k); [discriminate | discriminate H].
Qed.

Lemma pll_HZ_known (tops : list CubieState) (tc : CubieState) :
  exists k, pll_HZ tops tc = Some k /\ knownPLL k = true.
Proof.
  unfold pll_HZ.
  destruct (find _ (pll_faces tops tc)) as [f |];
    [| eexists; split; reflexivity].
  destruct (c1 f) as [a |]; [| eexists; split; reflexivity].
  destruct (e f) as [b |]; [| eexists; split; reflexivity].
  destruct (truthy (Some a) && truthy (Some b));
    [| eexists; split; reflexivity].
  destruct (isOppositeColor a b); eexists; split; reflexivity.
Qed.

Lemma pll_U_known (tops : list CubieState) (tc : CubieState) :
  exists k, pll_U tops tc = Some k /\ knownPLL k = true.
Proof.
  unfold pll_U.
  destruct (find isBar (pll_faces tops tc)) as [bf |];
    [| eexists; split; reflexivity].
  cbv zeta.
  destruct (find _ (pll_faces tops tc)) as [ff |];
    [| eexists; split; reflexivity].
  destruct (find _ (pll_faces tops tc)) as [rf |];
    [| eexists; split; reflexivity].
  destruct (truthy (e ff) && truthy (c1 rf));
    [| eexists; split; reflexivity].
  destruct (same (e ff) (c1 rf)); eexists; split; reflexivity.
Qed.

Lemma identifyPLL_known (tops : list CubieState) (tc : CubieState) :
  exists k, identifyPLL tops tc = Some k /\ knownPLL k = true.
Proof.
  unfold identifyPLL.
  destruct (_ =? 0)%nat; [eexists; split; reflexivity |].
  destruct (_ =? 1)%nat; [eexists; split; reflexivity |].
  destruct (_ =? 4)%nat; [| eexists; split; reflexivity].
  destruct (_ =? 4)%nat.
  - destruct (_ =? 4)%nat; eexists; split; reflexivity.
  - destruct (_ =? 0)%nat; [apply pll_HZ_known |].
    destruct (_ =? 1)%nat; [apply pll_U_known |].
    eexists; split; reflexivity.
Qed.

Lemma knownPLL_spec (k : string) :
  knownPLL k = true ->
  k = "Unknown" \/ k = "Solved" \/ lookup PLL_ALGORITHMS k <> None.
Proof.
  unfold knownPLL. intros H. apply orb_prop in H as [H | H];
    [apply orb_prop in H as [H | H] |].
  - left. apply String.eqb_eq. exact H.
  - right. left. apply String.eqb_eq. exact H.
  - right. right.
    destruct (lookup PLL_ALGORITHMS k); [discriminate | discriminate H].
Qed.

(** X22. The classifiers answer with the names of the tables: for any
    pieces, [identify2LookOLL] returns a string, never [undefined],
    which is ['Unknown'] or a key of [OLL_ALGORITHMS], and
    [identifyPLL] returns ['Unknown'], ['Solved'] or a key of
    [PLL_ALGORITHMS]. *)
Theorem classifier_answers (tops : list CubieState) (tc : CubieState) :
  (exists k, identify2LookOLL tops tc = Some k
     /\ (k = "Unknown" \/ lookup OLL_ALGORITHMS k <> None))
  /\ (exists k, identifyPLL tops tc = Some k
        /\ (k = "Unknown" \/ k = "Solved"
            \/ lookup PLL_ALGORITHMS k <> None)).
Proof.
  split.
  - destruct (identify2LookOLL_known tops tc) as [k [E H]].
    exists k. split; [exact E | apply knownOLL_spec, H].
  - destruct (identifyPLL_known tops tc) as [k [E H]].
    exists k. split; [exact E | apply knownPLL_spec, H].
Qed.

Lemma same_Solved (k : string) :
  same (Some k) (Some "Solved") = false -> k <> "Solved".
Proof.
  cbn [same]. intros H E. apply String.eqb_eq in E. rewrite E in H.
  discriminate H.
Qed.

Lemma evalCandidate_case (s : list CubieState) (center : CubieState) :
  map initialPosition s = lattice -> In center (centers s) ->
  (currentPhase (evalCandidate s center) = OLL ->
   exists k, ollCaseResult (evalCandidate s center) = Some k
     /\ (k = "Unknown" \/ lookup OLL_ALGORITHMS k <> None))
  /\ (currentPhase (evalCandidate s center) = PLL ->
      exists k, pllCaseResult (evalCandidate s center) = Some k
        /\ k <> "Solved"
        /\ (k = "Unknown" \/ lookup PLL_ALGORITHMS k <> None)).
Proof.
  intros Ho Hc.
  destruct (census_of s Ho center Hc) as [_ [_ [tc [Htc _]]]].
  unfold evalCandidate. rewrite Htc. cbv zeta.
  destruct (solvedPairs s center =? 4).
  - destruct (forallb _ (topPieces s tc)).
    + destruct (identifyPLL_known (topPieces s tc) tc) as [k [E K]].
      rewrite E.
      destruct (same (Some k) (Some "Solved")) eqn:S;
        cbn [currentPhase ollCaseResult pllCaseResult];
        (split; [intros F; discriminate F |]); intros F;
        [discriminate F |].
      exists k. split; [reflexivity |]. split; [apply same_Solved, S |].
      destruct (knownPLL_spec k K) as [H | [H | H]]; [left; exact H | | right; exact H].
      exfalso. exact (same_Solved k S H).
    + cbn [currentPhase ollCaseResult pllCaseResult].
      split; [| intros F; discriminate F]. intros _.
      destruct (identify2LookOLL_known (topPieces s tc) tc) as [k [E K]].
      exists k. split; [exact E | apply knownOLL_spec, K].
  - destruct (solvedPairs s center >=? 2); [| destruct (_ =? 4)];
      cbn [currentPhase]; split; intros F; discriminate F.
Qed.

(** X23. On a reachable snapshot the answer of [analyzeCube] names its
    case: in phase ['OLL'] [ollCase] is set, to ['Unknown'] or a key
    of [OLL_ALGORITHMS]; in phase ['PLL'] [pllCase] is set, to
    ['Unknown'] or a key of [PLL_ALGORITHMS], never to ['Solved']. *)
Theorem analyzeCube_case_shown (s : list CubieState) :
  reachable s ->
  (phase (analyzeCube s) = OLL ->
   exists k, ollCase (analyzeCube s) = Some k
     /\ (k = "Unknown" \/ lookup OLL_ALGORITHMS k <> None))
  /\ (phase (analyzeCube s) = PLL ->
      exists k, pllCase (analyzeCube s) = Some k
        /\ k <> "Solved"
        /\ (k = "Unknown" \/ lookup PLL_ALGORITHMS k <> None)).
Proof.
  intros Hs. apply reachable_wellFormed in Hs as [Ho _ _].
  destruct (finalBest_selected s) as [[E _] | [base [Hb [_ [E _]]]]].
  - unfold analyzeCube. rewrite E. cbn.
    split; intros F; discriminate F.
  - rewrite (analyzeCube_resultOf _ _ E). unfold resultOf.
    cbn [phase ollCase pllCase].
    apply evalCandidate_case; assumption.
Qed.

Lemma analyzeCube_case_shown_witness :
  reachable afterFURURF
  /\ (phase (analyzeCube afterFURURF) = OLL ->
      exists k, ollCase (analyzeCube afterFURURF) = Some k
        /\ (k = "Unknown" \/ lookup OLL_ALGORITHMS k <> None)).
Proof.
  assert (Hr : reachable afterFURURF).
  { unfold afterFURURF, play; cbn [fold_left].
    repeat (apply reach_move; [| apply valid_turn; simpl; auto]).
    apply reach_init. }
  split; [exact Hr |].
  exact (proj1 (analyzeCube_case_shown afterFURURF Hr)).
Defined.

Lemma oll_oriented_at (tc c : CubieState) :
  oll_oriented tc c
  = ollOrientedAt (initialPosition tc)
      (THREE.applyQuaternion (localUpOf (initialPosition tc)) (quaternion tc))
      (quaternion c).
Proof.
  unfold oll_oriented, oll_up, oll_localUp, ollOrientedAt, localUpOf.
  cbv zeta. reflexivity.
Qed.

Lemma orientation_table :
  forallb (fun tcp => forallb (fun up => forallb (fun q =>
    Bool.eqb (ollOrientedAt tcp up q) (orientedTo (localUpOf tcp) up q))
    cubeGroup) unitAxes) centerOrigins = true.
Proof. vm_compute. reflexivity. Qed.

(** X24. The two tests of orientation agree: on a reachable snapshot,
    for any piece and any center as top center, the test of the OLL
    classifier (dot product above 0.9) and [isOrientedForOLL] of the
    engine (angle below 0.5 rad) give the same answer. *)
Theorem orientation_tests_agree (s : list CubieState) (piece tc : CubieState) :
  reachable s -> In piece s -> In tc (centers s) ->
  oll_oriented tc piece = isOrientedForOLL piece tc.
Proof.
  intros Hs Hp Htc. pose proof (reachable_wellFormed _ Hs) as [Ho _ _].
  apply reachable_pieces in Hs. rewrite Forall_forall in Hs.
  destruct (Hs piece Hp) as [_ Hq].
  assert (Htq : In (quaternion tc) cubeGroup).
  { apply Hs. unfold centers in Htc. apply filter_In in Htc. apply Htc. }
  pose proof (center_origin s Ho tc Htc) as Hcp.
  rewrite oll_oriented_at, isOrientedForOLL_orientedTo.
  rewrite (qnormalize_group _ Htq).
  pose proof (up_unitAxis _ _ Hcp Htq) as Hup.
  pose proof orientation_table as T.
  apply (forallb_In _ _ _ T) in Hcp. clear T.
  apply (forallb_In _ _ _ Hcp) in Hup. clear Hcp.
  apply (forallb_In _ _ _ Hup) in Hq. clear Hup.
  cbv beta in Hq. apply Bool.eqb_prop in Hq. exact Hq.
Qed.

Lemma orientation_tests_agree_witness :
  reachable getInitialState /\ In bottomCenter getInitialState
  /\ In topCenterHome (centers getInitialState)
  /\ oll_oriented topCenterHome bottomCenter
     = isOrientedForOLL bottomCenter topCenterHome.
Proof.
  assert (H1 : In bottomCenter getInitialState).
  { apply (dec_true (in_dec CubieState_eq_dec bottomCenter getInitialState)).
    vm_compute. reflexivity. }
  assert (H2 : In topCenterHome (centers getInitialState)).
  { apply (dec_true (in_dec CubieState_eq_dec topCenterHome
                       (centers getInitialState))).
    vm_compute. reflexivity. }
  split; [exact reach_init | split; [exact H1 | split; [exact H2 |]]].
  exact (orientation_tests_agree getInitialState bottomCenter topCenterHome
           reach_init H1 H2).
Defined.

(** ** Stickers *)

(** X25. The stickers the renderer draws are the normals the PLL
    classifier takes as valid: for a piece with its origin on the
    lattice, [stickers] lists, in the order of [localNormals], one
    sticker for each valid normal, of the colour of its letter and
    placed 0.49 along it; their number is the sum of the absolute
    coordinates of the origin, and the kind of mesh is that of
    [isCenter] and [isEdge], the core piece being drawn as a
    corner. *)
Theorem stickers_are_valid_normals (c : CubieState) :
  In (initialPosition c) lattice ->
  map Some (CubeModel.stickers (initialPosition c))
  = map stickerOf (filter (validNormal c) localNormals)
  /\ Z.of_nat (List.length (CubeModel.stickers (initialPosition c)))
     = absSum c
  /\ (CubeModel.pieceType (initialPosition c) = CubeModel.TypeCenter
      <-> isCenter c = true)
  /\ (CubeModel.pieceType (initialPosition c) = CubeModel.TypeEdge
      <-> isEdge c = true)
  /\ (CubeModel.pieceType (initialPosition c) = CubeModel.TypeCorner
      <-> isCorner c = true \/ initialPosition c = (0, 0, 0)).
Proof.
  intros Hp.
  assert (V : filter (validNormal c) localNormals
              = filter (validNormal (atOrigin (initialPosition c) THREE.identity))
                       localNormals) by reflexivity.
  rewrite V. clear V. unfold isCenter, isEdge, isCorner, absSum.
  revert Hp. generalize (initialPosition c). intros p Hp.
  unfold lattice in Hp; cbn in Hp.
  repeat destruct Hp as [<- | Hp]; try contradiction;
    (split; [vm_compute; reflexivity |]);
    (split; [reflexivity |]); cbn;
    repeat split; try (intros H; discriminate H); try reflexivity;
    try (intros [H | H]; discriminate H); try (right; reflexivity);
    try (left; reflexivity).
Qed.

Lemma stickers_are_valid_normals_witness :
  In (initialPosition twistedCorner) lattice
  /\ map Some (CubeModel.stickers (initialPosition twistedCorner))
     = map stickerOf (filter (validNormal twistedCorner) localNormals).
Proof.
  assert (H : In (initialPosition twistedCorner) lattice)
    by (vm_compute; tauto).
  split; [exact H |].
  exact (proj1 (stickers_are_valid_normals twistedCorner H)).
Defined.

Lemma stickerStep_fold (cubie : CubieState) (dir : THREE.Vector3)
    (all ns : list (THREE.Vector3 * string)) (acc : option string * K) :
  (forall n, In n ns -> In n all) ->
  (toR (kq 9 10) <= toR (snd acc))%R ->
  (forall l, fst acc = Some l ->
     exists n, In n all /\ snd n = l
       /\ (THREE.dot (THREE.applyQuaternion (fst n) (quaternion cubie)) dir
           >? kq 9 10)%K = true) ->
  forall l, fst (fold_left (stickerStep cubie dir) ns acc) = Some l ->
    exists n, In n all /\ snd n = l
      /\ (THREE.dot (THREE.applyQuaternion (fst n) (quaternion cubie)) dir
          >? kq 9 10)%K = true.
Proof.
  revert acc. induction ns as [| n ns IH]; intros acc Hin Hle Hacc l.
  - cbn [fold_left]. apply Hacc.
  - cbn [fold_left].
    assert (S : stickerStep cubie dir acc n
                = if (THREE.dot (THREE.applyQuaternion (fst n) (quaternion cubie))
                                dir >? snd acc)%K
                  then (Some (snd n),
                        THREE.dot (THREE.applyQuaternion (fst n)
                                     (quaternion cubie)) dir)
                  else acc) by reflexivity.
    apply IH.
    + intros m Hm. apply Hin. right. exact Hm.
    + rewrite S.
      destruct (_ >? snd acc)%K eqn:G; cbn [snd]; [| exact Hle].
      apply ltb_spec in G. apply Rle_trans with (toR (snd acc)); [exact Hle |].
      apply Rlt_le. exact G.
    + rewrite S.
      destruct (_ >? snd acc)%K eqn:G; cbn [fst]; [| exact Hacc].
      intros l' E. exists n. split; [apply Hin; left; reflexivity |].
      split; [injection E as E; exact E |].
      apply ltb_spec. apply ltb_spec in G.
      apply Rle_lt_trans with (toR (snd acc)); assumption.
Qed.

(** X26. [getStickerColor] reports a sticker the piece has: a letter it
    returns is the letter of one of the six normals that is valid for
    the origin of the piece, and that normal, turned by the
    orientation of the piece, has a dot product above 0.9 with the
    direction asked for. *)
Theorem getStickerColor_sound (cubie : CubieState) (dir : THREE.Vector3)
    (l : string) :
  getStickerColor cubie dir = Some l ->
  exists n, In n localNormals /\ validNormal cubie n = true /\ snd n = l
    /\ (THREE.dot (THREE.applyQuaternion (fst n) (quaternion cubie)) dir
        >? kq 9 10)%K = true.
Proof.
  unfold getStickerColor. cbv zeta. intros H.
  destruct (stickerStep_fold cubie dir
              (filter (validNormal cubie) localNormals)
              (filter (validNormal cubie) localNormals)
              (None, kq 9 10)) with (l := l) as [n [Hn [Hl Hd]]].
  - intros n Hn. exact Hn.
  - apply Rle_refl.
  - intros l' F. discriminate F.
  - exact H.
  - apply filter_In in Hn as [Hn Hv].
    exists n. split; [exact Hn |]. split; [exact Hv |]. split; assumption.
Qed.

Lemma getStickerColor_sound_witness :
  getStickerColor twistedCorner (THREE.ofArr (0, 1, 0)) = Some "R"
  /\ exists n, In n localNormals /\ validNormal twistedCorner n = true
       /\ snd n = "R".
Proof.
  assert (H : getStickerColor twistedCorner (THREE.ofArr (0, 1, 0)) = Some "R")
    by (vm_compute; reflexivity).
  split; [exact H |].
  destruct (getStickerColor_sound twistedCorner _ _ H) as [n [H1 [H2 [H3 _]]]].
  exists n. split; [exact H1 | split; [exact H2 | exact H3]].
Defined.

(** ** Swipes *)

Import UseCubeSwipe.

Lemma snapStep_fold_In (w : THREE.Vector3) (l : list THREE.Vector3)
    (acc : THREE.Vector3 * K) :
  fst (fold_left (snapStep w) l acc) = fst acc
  \/ In (fst (fold_left (snapStep w) l acc)) l.
Proof.
  revert acc. induction l as [| a l IH]; intros acc; [left; reflexivity |].
  cbn [fold_left]. destruct (IH (snapStep w acc a)) as [E | E].
  - rewrite E. unfold snapStep. cbv zeta.
    destruct (_ >? _)%K; [right; left; reflexivity | left; reflexivity].
  - right. right. exact E.
Qed.

Lemma faceNormal_axis (w : THREE.Vector3) : In (faceNormal w) unitAxes.
Proof.
  change (faceNormal w)
    with (fst (fold_left (snapStep w) unitAxes (THREE.ofArr (1, 0, 0), kz (-2)))).
  destruct (snapStep_fold_In w unitAxes (THREE.ofArr (1, 0, 0), kz (-2)))
    as [E | E].
  - rewrite E. left. reflexivity.
  - exact E.
Qed.

Lemma swipe_table :
  forallb (fun n => forallb (fun b => forallb (fun s =>
    swipeOk n b s (swipeMove n b s (THREE.ofArr (0, 0, 0))))
    quarters) (validAxes n)) unitAxes = true.
Proof. vm_compute. reflexivity. Qed.

Lemma swipeMove_point (n b point : THREE.Vector3) (s : Z) :
  axis (swipeMove n b s point) = axis (swipeMove n b s (THREE.ofArr (0, 0, 0)))
  /\ direction (swipeMove n b s point)
     = direction (swipeMove n b s (THREE.ofArr (0, 0, 0)))
  /\ exists c, slice (swipeMove n b s point) = [Z.max (-1) (Z.min 1 c)].
Proof.
  unfold swipeMove. cbv zeta.
  destruct (_ >? _)%K; [| destruct (_ >? _)%K];
    cbn [axis direction slice]; (split; [reflexivity |]);
    (split; [reflexivity |]); eexists; reflexivity.
Qed.

(** X28. A swipe triggers a valid quarter turn: for the face normal
    that [onPointerDown] snaps to, any axis among those the drag may
    follow and either sense, the move of [onPointerUp] turns one layer
    among -1, 0, 1 by a direction 1 or -1, about the axis and in the
    sense of the cross product of the face normal and the drag. *)
Theorem swipeMove_valid (worldNormal bestMoveVector point : THREE.Vector3)
    (dragSign : Z) :
  In bestMoveVector (validAxes (faceNormal worldNormal)) ->
  In dragSign quarters ->
  validMove (swipeMove (faceNormal worldNormal) bestMoveVector dragSign point)
  /\ In (direction (swipeMove (faceNormal worldNormal) bestMoveVector
                      dragSign point)) quarters
  /\ List.length (slice (swipeMove (faceNormal worldNormal) bestMoveVector
                           dragSign point)) = 1%nat
  /\ THREE.multiplyScalar
       (axisVec (axis (swipeMove (faceNormal worldNormal) bestMoveVector
                         dragSign point)))
       (kz (direction (swipeMove (faceNormal worldNormal) bestMoveVector
                         dragSign point)))
     = THREE.crossVectors (faceNormal worldNormal)
         (THREE.multiplyScalar bestMoveVector (kz dragSign)).
Proof.
  intros Hb Hs. pose proof (faceNormal_axis worldNormal) as Hn.
  revert Hb. generalize (faceNormal worldNormal) Hn. clear Hn.
  intros n Hn Hb.
  pose proof swipe_table as T.
  apply (forallb_In _ _ _ T) in Hn. clear T.
  apply (forallb_In _ _ _ Hn) in Hb. clear Hn.
  apply (forallb_In _ _ _ Hb) in Hs. clear Hb.
  cbv beta in Hs.
  destruct (swipeMove_point n bestMoveVector point dragSign)
    as [Ea [Ed [c Es]]].
  unfold validMove. rewrite !Ea, !Ed, !Es.
  revert Hs.
  generalize (swipeMove n bestMoveVector dragSign (THREE.ofArr (0, 0, 0))).
  intros m Hs. unfold swipeOk in Hs.
  apply andb_prop in Hs as [Hs H4]. apply andb_prop in Hs as [Hs _].
  apply andb_prop in Hs as [H1 _].
  apply dec_true in H1. apply dec_true in H4.
  split; [| split; [exact H1 | split; [reflexivity | exact H4]]].
  split.
  - constructor; [| constructor]. unfold range3. cbn [In]. lia.
  - apply quarters_turns. exact H1.
Qed.

Lemma swipeMove_valid_witness :
  In (THREE.ofArr (1, 0, 0)) (validAxes (faceNormal (THREE.ofArr (0, 0, 1))))
  /\ In 1 quarters
  /\ validMove (swipeMove (faceNormal (THREE.ofArr (0, 0, 1)))
                  (THREE.ofArr (1, 0, 0)) 1 (THREE.ofArr (1, 1, 1))).
Proof.
  assert (H1 : In (THREE.ofArr (1, 0, 0))
                  (validAxes (faceNormal (THREE.ofArr (0, 0, 1))))).
  { apply (dec_true (in_dec Vector3_eq_dec _ _)). vm_compute. reflexivity. }
  assert (H2 : In 1 quarters) by (simpl; tauto).
  split; [exact H1 | split; [exact H2 |]].
  exact (proj1 (swipeMove_valid (THREE.ofArr (0, 0, 1)) (THREE.ofArr (1, 0, 0))
                  (THREE.ofArr (1, 1, 1)) 1 H1 H2)).
Defined.

(** ** The life of the hook *)

Import UseCubeAnimation.
Import Events.

Lemma step_consistent (PI : K) (st : State) (ev : Event) :
  consistent st -> validEvent ev -> consistent (step PI st ev).
Proof.
  intros Hst Hev. pose proof Hst as [Hr [Ha Hv]].
  destruct ev as [| move mult | delta].
  - cbn [step]. unfold reset, consistent.
    cbn [cubies isAnimating animRef activeMove].
    split; [apply reach_init |]. split.
    + split; [intros F; discriminate F | intros F; now contradiction F].
    + intros m F. discriminate F.
  - cbn [step]. unfold triggerMove.
    destruct (activeMove (animRef st)) eqn:E; [exact Hst |].
    unfold consistent. cbn [cubies isAnimating animRef activeMove].
    split; [exact Hr |]. split.
    + split; [intros _; discriminate | reflexivity].
    + intros m [= <-]. exact Hev.
  - cbn [step]. unfold useFrame.
    destruct (activeMove (animRef st)) as [move |] eqn:E; [| exact Hst].
    destruct (negb (isAnimating st)); [exact Hst |].
    cbv zeta.
    match goal with |- consistent (if ?b then _ else _) => destruct b end.
    + unfold consistent. cbn [cubies isAnimating animRef activeMove].
      split; [apply reach_move; [exact Hr | apply Hv; reflexivity] |].
      split.
      * split; [intros F; discriminate F | intros F; now contradiction F].
      * intros m F. discriminate F.
    + unfold consistent. cbn [cubies isAnimating animRef activeMove].
      split; [exact Hr |]. split; [exact Ha | exact Hv].
Qed.

Lemma initial_consistent (PI : K) : consistent (initial PI).
Proof.
  unfold consistent, initial. cbn [cubies isAnimating animRef activeMove].
  split; [apply reach_init |]. split.
  - split; [intros F; discriminate F | intros F; now contradiction F].
  - intros m F. discriminate F.
Qed.

Lemma run_consistent (PI : K) (evs : list Event) (st : State) :
  consistent st -> Forall validEvent evs -> consistent (run PI evs st).
Proof.
  revert st. induction evs as [| ev evs IH]; intros st Hst Hev.
  - exact Hst.
  - cbn [run fold_left]. inversion Hev as [| ? ? H1 H2]; subst.
    apply IH; [apply step_consistent; assumption | exact H2].
Qed.

(** X29. The hook only ever holds reachable snapshots: after any
    sequence of resets, frames and triggers of valid moves from its
    initial state, [cubies] is a reachable snapshot, [isAnimating] is
    true exactly when a move is under way, and that move is valid. *)
Theorem hook_snapshots_reachable (PI : K) (evs : list Event) :
  Forall validEvent evs ->
  reachable (cubies (run PI evs (initial PI)))
  /\ (isAnimating (run PI evs (initial PI)) = true
      <-> activeMove (animRef (run PI evs (initial PI))) <> None)
  /\ (forall m, activeMove (animRef (run PI evs (initial PI))) = Some m ->
        validMove m).
Proof.
  intros H. apply (run_consistent PI evs (initial PI)).
  - apply initial_consistent.
  - exact H.
Qed.

Lemma hook_snapshots_reachable_witness :
  Forall validEvent [TriggerMove (turn AxisX 1 1) (kz 1); Frame (kz 1)]
  /\ reachable (cubies (run (kz 3)
                  [TriggerMove (turn AxisX 1 1) (kz 1); Frame (kz 1)]
                  (initial (kz 3)))).
Proof.
  assert (H : Forall validEvent
                [TriggerMove (turn AxisX 1 1) (kz 1); Frame (kz 1)]).
  { constructor; [apply valid_turn; simpl; tauto |].
    constructor; [exact I | constructor]. }
  split; [exact H |].
  exact (proj1 (hook_snapshots_reachable (kz 3) _ H)).
Defined.






